(** * MIDI track splitter: a shallow embedding of [midisplitter2.cpp]

    The development follows the class [MIDISplitter]: the big-endian codec,
    the pattern search, the track-name extraction, the chunk copy and the
    driver [splitMIDIFile], each translated from the C++ text.

    Conventions.
    - Unsigned machine integers are values of [Z]; every place where the C++
      text computes in [size_t], [uint32_t] or [uint16_t] applies the
      corresponding reduction ([size_t] is taken to be 64 bits wide).
    - A [std::vector<uint8_t>] is a [list byte]; indexing with [operator[]]
      outside the vector is undefined behaviour and shows up as the
      outcome [OutOfBounds].
    - A [std::runtime_error] is the outcome [Raised] carrying the message.
    - A loop whose trip count is not fixed on entry takes fuel; running out
      of it is the outcome [OutOfFuel].
    - What the program prints on [std::cout] is left out; writing to an
      output file that has been created is taken to succeed. *)

From Stdlib Require Import ZArith Lia List Strings.String Strings.Ascii Strings.Byte.
From stdpp Require Import base option list gmap strings pretty.

Local Open Scope Z_scope.

(** ** Outcomes *)

Inductive outcome (A : Type) : Type :=
| Done (a : A)
| Raised (what : string)
| OutOfBounds
| OutOfFuel.

Arguments Done {A} a.
Arguments Raised {A} what.
Arguments OutOfBounds {A}.
Arguments OutOfFuel {A}.

#[global] Instance outcome_ret : MRet outcome := fun A a => Done a.

#[global] Instance outcome_bind : MBind outcome := fun A B k m =>
  match m with
  | Done a => k a
  | Raised what => Raised what
  | OutOfBounds => OutOfBounds
  | OutOfFuel => OutOfFuel
  end.

(** ** Machine integers and vectors *)

Definition SIZE_MAX : Z := 2 ^ 64 - 1.

Definition size_t (x : Z) : Z := x mod 2 ^ 64.
Definition uint32_t (x : Z) : Z := x mod 2 ^ 32.
Definition uint16_t (x : Z) : Z := x mod 2 ^ 16.
Definition uint8_t (x : Z) : Z := x mod 2 ^ 8.

(** The value of a byte as an unsigned integer. *)
Definition u8 (b : byte) : Z := Z.of_N (Byte.to_N b).

(** The byte with a given value (the value is first reduced to 8 bits). *)
Definition byte_of_Z (x : Z) : byte :=
  match Byte.of_N (Z.to_N (uint8_t x)) with
  | Some b => b
  | None => x00
  end.

(** [v.size()] *)
Definition vsize {A : Type} (v : list A) : Z := Z.of_nat (length v).

(** [v[i]] for an index of type [size_t]. The index is looked up only when
    it is inside the vector. *)
Definition at_ (v : list byte) (i : Z) : outcome byte :=
  if (0 <=? i) && (i <? vsize v) then
    match v !! Z.to_nat i with
    | Some b => Done b
    | None => OutOfBounds
    end
  else OutOfBounds.

(** ** Byte codec (lines 28-60) *)

Module Codec.

Definition bytesToUInt32 (bytes : list byte) (offset : Z) : outcome Z :=
  if size_t (offset + 4) >? vsize bytes then Done 0
  else
    b0 ← at_ bytes offset;
    b1 ← at_ bytes (size_t (offset + 1));
    b2 ← at_ bytes (size_t (offset + 2));
    b3 ← at_ bytes (size_t (offset + 3));
    Done (Z.lor (Z.lor (Z.lor (uint32_t (Z.shiftl (u8 b0) 24))
                              (uint32_t (Z.shiftl (u8 b1) 16)))
                       (uint32_t (Z.shiftl (u8 b2) 8)))
                (u8 b3)).

Definition bytesToUInt16 (bytes : list byte) (offset : Z) : outcome Z :=
  if size_t (offset + 2) >? vsize bytes then Done 0
  else
    b0 ← at_ bytes offset;
    b1 ← at_ bytes (size_t (offset + 1));
    Done (uint16_t (Z.lor (Z.shiftl (u8 b0) 8) (u8 b1))).

Definition uint32ToBytes (value : Z) : list byte :=
  [ byte_of_Z (Z.land (Z.shiftr value 24) 255);
    byte_of_Z (Z.land (Z.shiftr value 16) 255);
    byte_of_Z (Z.land (Z.shiftr value 8) 255);
    byte_of_Z (Z.land value 255) ].

Definition uint16ToBytes (value : Z) : list byte :=
  [ byte_of_Z (Z.land (Z.shiftr value 8) 255);
    byte_of_Z (Z.land value 255) ].

(** The big-endian value of a byte sequence, most significant byte first. *)
Definition be_value (bs : list byte) : Z :=
  fold_left (fun acc b => acc * 256 + u8 b) bs 0.

End Codec.

(** ** Pattern search (lines 62-81) *)

Module Search.

(** The inner loop [for (j = 0; j < pattern.size(); j++)]: [n] counts the
    iterations left, [j] is the loop variable. The result is the final value
    of [match]. *)
Fixpoint matchLoop (text pattern : list byte) (i j : Z) (n : nat) : outcome bool :=
  match n with
  | O => Done true
  | S n' =>
      t ← at_ text (size_t (i + j));
      p ← at_ pattern j;
      if Byte.eqb t p then matchLoop text pattern i (size_t (j + 1)) n'
      else Done false
  end.

(** The outer loop [for (i = 0; i <= text.size() - pattern.size(); i++)],
    entered with the current [i] and [result]. A match pushes [i], adds
    [pattern.size() - 1] to it, and the loop increment adds one more. *)
Fixpoint searchLoop (fuel : nat) (text pattern : list byte) (i : Z) (result : list Z)
  : outcome (list Z) :=
  match fuel with
  | O => OutOfFuel
  | S fuel' =>
      if i <=? size_t (vsize text - vsize pattern) then
        m ← matchLoop text pattern i 0 (length pattern);
        if (m : bool) then
          searchLoop fuel' text pattern
            (size_t (size_t (i + size_t (vsize pattern - 1)) + 1)) (result ++ [i])
        else
          searchLoop fuel' text pattern (size_t (i + 1)) result
      else Done result
  end.

Definition simpleSearch (text pattern : list byte) : outcome (list Z) :=
  if (vsize pattern =? 0) || (vsize text <? vsize pattern) then Done []
  else searchLoop (S (length text)) text pattern 0 [].

(** The search as the specification words it: a scan from left to right
    that reports a position where the needle occurs and then resumes right
    after that occurrence. [skip] counts the bytes of the last reported
    occurrence that are still to be passed over. *)
Fixpoint occurs_at (needle hay : list byte) : bool :=
  match needle, hay with
  | [], _ => true
  | _ :: _, [] => false
  | n :: needle', h :: hay' => Byte.eqb h n && occurs_at needle' hay'
  end.

Fixpoint scan (needle hay : list byte) (p : nat) (skip : nat) : list nat :=
  match hay with
  | [] => []
  | _ :: rest =>
      match skip with
      | S k => scan needle rest (S p) k
      | O =>
          if occurs_at needle hay
          then p :: scan needle rest (S p) (length needle - 1)
          else scan needle rest (S p) 0
      end
  end.

Definition findAll (haystack needle : list byte) : list nat :=
  match needle with
  | [] => []
  | _ :: _ =>
      if (length haystack <? length needle)%nat then []
      else scan needle haystack 0 0
  end.

End Search.

(** ** Input streams

    A [std::ifstream] opened in binary mode on a regular file: the bytes of
    the file, the read position and the two state bits the program looks at.
    [badbit] is raised by I/O errors of the device only and is left out.
    Positioning follows the file descriptor: any offset that is not negative
    is accepted, also one beyond the last byte, where a later read finds
    nothing. *)

Record istream : Type := mkIstream {
  content : list byte;
  position : Z;
  eofbit : bool;
  failbit : bool
}.

Module Stream.

Definition good (s : istream) : bool := negb (eofbit s) && negb (failbit s).

(** [!stream] *)
Definition fail (s : istream) : bool := failbit s.

Definition eof (s : istream) : bool := eofbit s.

Definition clear (s : istream) : istream :=
  mkIstream (content s) (position s) false false.

Definition setfail (s : istream) : istream :=
  mkIstream (content s) (position s) (eofbit s) true.

(** The number of bytes between the read position and the end. *)
Definition available (s : istream) : Z :=
  Z.max 0 (vsize (content s) - position s).

(** The [n] bytes at the read position ([n] of them are available). *)
Definition window (s : istream) (n : Z) : list byte :=
  if position s <? vsize (content s)
  then take (Z.to_nat n) (drop (Z.to_nat (position s)) (content s))
  else [].

(** [stream.tellg()]: the sentry fails a stream that is not good; a failed
    stream answers -1. *)
Definition tellg (s : istream) : Z * istream :=
  if good s then (position s, s) else (-1, setfail s).

(** [stream.read(buf, n)]: the bytes extracted (their number is [gcount()])
    and the stream afterwards. Fewer than [n] bytes before the end raise
    [eofbit] and [failbit]. *)
Definition read (s : istream) (n : Z) : list byte * istream :=
  if good s then
    if n <=? available s then
      (window s n, mkIstream (content s) (position s + n) false false)
    else
      (window s (available s),
       mkIstream (content s) (position s + available s) true true)
  else ([], setfail s).

(** [stream.seekg(pos)]: [eofbit] is cleared first; a failed stream is left
    where it is. *)
Definition seekg (s : istream) (pos : Z) : istream :=
  if failbit s then mkIstream (content s) (position s) false true
  else if pos <? 0 then mkIstream (content s) (position s) false true
  else mkIstream (content s) pos false false.

(** [stream.seekg(off, std::ios::cur)] *)
Definition seekg_cur (s : istream) (off : Z) : istream :=
  if failbit s then mkIstream (content s) (position s) false true
  else if position s + off <? 0 then mkIstream (content s) (position s) false true
  else mkIstream (content s) (position s + off) false false.

End Stream.

(** ** Track name extraction (lines 83-132) *)

Module Name.

Definition MAX_SEARCH_SIZE : Z := 1024.

(** The track name meta event, [{0xFF, 0x03}]. *)
Definition pattern : list byte := [xff; x03].

(** ["Track " + std::to_string(trackNumber)] *)
Definition fallback (trackNumber : Z) : string :=
  "Track " +:+ pretty trackNumber.

(** The loop [for (i = 0; i < nameLength; i++) trackName += ...]: [n]
    counts the iterations left. *)
Fixpoint nameLoop (searchBuffer : list byte) (nameIndex i : Z) (n : nat)
    (trackName : string) : outcome string :=
  match n with
  | O => Done trackName
  | S n' =>
      b ← at_ searchBuffer (size_t (size_t (nameIndex + 1) + i));
      nameLoop searchBuffer nameIndex (size_t (i + 1)) n'
        (trackName +:+ String (ascii_of_byte b) EmptyString)
  end.

(** The loop over the matches: [Some name] when an iteration returns,
    [None] when the loop runs to its end. The test [!matches.empty()]
    around it changes nothing: without matches the loop does not iterate. *)
Fixpoint matchesLoop (searchBuffer : list byte) (matches : list Z)
  : outcome (option string) :=
  match matches with
  | [] => Done None
  | matchPos :: rest =>
      let nameIndex := size_t (matchPos + 2) in
      if size_t (nameIndex + 1) <? vsize searchBuffer then
        b ← at_ searchBuffer nameIndex;
        let nameLength := u8 b in
        if size_t (size_t (nameIndex + 1) + nameLength) <=? vsize searchBuffer then
          trackName ← nameLoop searchBuffer nameIndex 0 (Z.to_nat nameLength) EmptyString;
          if negb (String.eqb trackName EmptyString) then Done (Some trackName)
          else matchesLoop searchBuffer rest
        else matchesLoop searchBuffer rest
      else matchesLoop searchBuffer rest
  end.

(** [resize_ok] tells whether [searchBuffer.resize(searchSize)] gets its
    memory; when it does not, [std::bad_alloc] is caught on the spot. The
    result is the returned name and the stream as the call leaves it. *)
Definition extractTrackName (resize_ok : bool) (stream : istream)
    (trackNumber trackSize : Z) : outcome (string * istream) :=
  let searchSize := Z.min (size_t trackSize) MAX_SEARCH_SIZE in
  if negb resize_ok then Done (fallback trackNumber, stream)
  else
    let '(currentPos, stream) := Stream.tellg stream in
    if currentPos =? -1 then Done (fallback trackNumber, stream)
    else
      let '(searchBuffer, stream) := Stream.read stream searchSize in
      if Stream.fail stream then
        let stream := Stream.clear stream in
        let stream := Stream.seekg stream currentPos in
        Done (fallback trackNumber, stream)
      else
        let stream := Stream.seekg stream currentPos in
        let stream := Stream.clear stream in
        matches ← Search.simpleSearch searchBuffer pattern;
        found ← matchesLoop searchBuffer matches;
        match found with
        | Some trackName => Done (trackName, stream)
        | None => Done (fallback trackNumber, stream)
        end.

(** The name as the specification words it. [occurrences] lists, in scan
    order, the positions of the window where the marker occurs; [decode]
    reads the match at [p]: the byte after the marker is the length [L], and
    the [L] bytes after it are the name when they lie inside the window and
    are not empty; [firstName] is the name of the first match that yields
    one. *)
Fixpoint occurrences (needle hay : list byte) (p : nat) : list nat :=
  match hay with
  | [] => []
  | _ :: rest =>
      if Search.occurs_at needle hay
      then p :: occurrences needle rest (S p)
      else occurrences needle rest (S p)
  end.

Definition decode (window : list byte) (p : nat) : option string :=
  match window !! (p + 2)%nat with
  | Some b =>
      let L := Z.to_nat (u8 b) in
      if (1 <=? L)%nat && (p + 3 + L <=? length window)%nat
      then Some (string_of_list_byte (take L (drop (p + 3) window)))
      else None
  | None => None
  end.

Definition firstName (window : list byte) : option string :=
  head (omap (decode window) (occurrences pattern window 0)).


End Name.

(** ** File names and the file system *)

Module Path.

(** The regular files of the machine, by the path handed to the operating
    system. *)
Abbreviation filesystem := (gmap string (list byte)).

(** [s.c_str()] as a system call reads it: the characters before the first
    NUL. *)
Fixpoint c_str (s : string) : string :=
  match s with
  | EmptyString => EmptyString
  | String c rest =>
      if Ascii.eqb c "000"%char then EmptyString else String c (c_str rest)
  end.

Definition starts_with_slash (s : string) : bool :=
  match s with
  | String c _ => Ascii.eqb c "/"%char
  | EmptyString => false
  end.

Fixpoint ends_with_slash (s : string) : bool :=
  match s with
  | EmptyString => false
  | String c EmptyString => Ascii.eqb c "/"%char
  | String _ rest => ends_with_slash rest
  end.

(** [fs::path(dir) / file] as a string. *)
Definition join (dir file : string) : string :=
  if starts_with_slash file then file
  else if String.eqb dir EmptyString || ends_with_slash dir then dir +:+ file
  else dir +:+ "/" +:+ file.

(** [path.filename()]: what follows the last separator; [acc] is the
    component read so far. *)
Fixpoint filename_from (s acc : string) : string :=
  match s with
  | EmptyString => acc
  | String c rest =>
      if Ascii.eqb c "/"%char then filename_from rest EmptyString
      else filename_from rest (acc +:+ String c EmptyString)
  end.

Definition filename (p : string) : string := filename_from p EmptyString.

(** [s] without its last period and what follows it, when it has one. *)
Fixpoint cut_last_dot (s : string) : option string :=
  match s with
  | EmptyString => None
  | String c rest =>
      match cut_last_dot rest with
      | Some rest' => Some (String c rest')
      | None => if Ascii.eqb c "."%char then Some EmptyString else None
      end
  end.

(** [path.stem()]: the file name without its extension; a leading period
    does not start an extension, and dot and dot-dot have none. *)
Definition stem (p : string) : string :=
  let f := filename p in
  if String.eqb f "." || String.eqb f ".." then f
  else
    match f with
    | EmptyString => EmptyString
    | String c rest =>
        match cut_last_dot rest with
        | Some rest' => String c rest'
        | None => f
        end
    end.

(** [fs::exists(path)] *)
Definition exists_ (fs : filesystem) (path : string) : bool :=
  bool_decide (is_Some (fs !! c_str path)).

End Path.

(** ** Safe file names and the chunk copy (lines 134-162) *)

Module Writer.

(** The characters of [invalid] in the source; the double quote among them is
    character 34. *)
Definition invalid : string := "<>:" +:+ String "034"%char "/\|?*".

Fixpoint replace (old new : ascii) (s : string) : string :=
  match s with
  | EmptyString => EmptyString
  | String c rest =>
      String (if Ascii.eqb c old then new else c) (replace old new rest)
  end.

(** The loop [for (char c : invalid) std::replace(..., c, '_')]. *)
Fixpoint replaceLoop (chars : string) (safe : string) : string :=
  match chars with
  | EmptyString => safe
  | String c rest => replaceLoop rest (replace c "_"%char safe)
  end.

Definition getSafeFilename (name : string) : string := replaceLoop invalid name.

Definition BUFFER_SIZE : Z := 4096.

(** The loop [while (size > 0)] of [copyStream]; [out] is what the output
    stream has received so far. Writing to the output stream is taken to
    succeed. *)
Fixpoint copyLoop (fuel : nat) (in_ : istream) (out : list byte) (size : Z)
  : outcome (istream * list byte) :=
  match fuel with
  | O => OutOfFuel
  | S fuel' =>
      if size >? 0 then
        let bytesToRead := Z.min size BUFFER_SIZE in
        let '(buffer, in_) := Stream.read in_ bytesToRead in
        let gcount := vsize buffer in
        if gcount =? 0 then Done (in_, out)
        else
          let out := out ++ buffer in
          let size := size_t (size - gcount) in
          if Stream.eof in_ then Done (in_, out)
          else copyLoop fuel' in_ out size
      else Done (in_, out)
  end.

Definition copyStream (in_ : istream) (out : list byte) (size : Z)
  : outcome (istream * list byte) :=
  copyLoop (Z.to_nat (size / BUFFER_SIZE) + 2) in_ out size.

End Writer.

(** ** The driver [splitMIDIFile] (lines 204-367) *)

Module Track.

Record TrackInfo : Type := mk {
  number : Z;
  name : string;
  size : Z;
  position : Z
}.

End Track.

(** What the run depends on besides the files: whether the search buffer of
    a track (by track number) gets its memory; whether the other allocations
    of [extractTrackName] for that track (the match list and the strings)
    get theirs; and whether a path can be opened for writing. *)
Record environment : Type := mkEnvironment {
  resize_ok : Z -> bool;
  names_ok : Z -> bool;
  can_create : string -> bool
}.

Module Split.

Import Path.

(** An outcome that is not [Done], at another type. *)
Definition abort {A B : Type} (o : outcome A) : outcome B :=
  match o with
  | Raised what => Raised what
  | OutOfFuel => OutOfFuel
  | _ => OutOfBounds
  end.

(** The loop [for (uint16_t i = 0; i < totalTracks; i++)] (lines 244-292):
    [n] counts the iterations left, [i] is the loop variable.

    The handler around [extractTrackName] (lines 271-277) is entered when
    the call throws. The function catches the failure of its search buffer
    itself, and its stream runs without exceptions, so what is left to throw
    is an allocation of the match list or of a string ([names_ok] false);
    all of these come after the stream has been put back, so the stream is
    the one the call would have returned. *)
Fixpoint tracksLoop (env : environment) (n : nat) (i : Z) (file : istream)
    (tracks : list Track.TrackInfo) : outcome (list Track.TrackInfo * istream) :=
  match n with
  | O => Done (tracks, file)
  | S n' =>
      let '(trackStartPos, file) := Stream.tellg file in
      if trackStartPos =? -1 then
        Raised ("Invalid file position at track " +:+ pretty (i + 1))
      else
        let '(trackHeader, file) := Stream.read file 8 in
        if Stream.fail file || negb (vsize trackHeader =? 8) then
          Raised ("Error reading track header " +:+ pretty (i + 1))
        else if negb (String.eqb (string_of_list_byte (take 4 trackHeader)) "MTrk") then
          Raised ("Invalid track header for track " +:+ pretty (i + 1))
        else
          trackSize ← Codec.bytesToUInt32 trackHeader 4;
          let number := uint16_t (i + 1) in
          r ← Name.extractTrackName (resize_ok env number) file number trackSize;
          let name :=
            if names_ok env number then fst r
            else if i =? 0 then "Tempo Track"
            else "Track " +:+ pretty number in
          let track := Track.mk number name trackSize trackStartPos in
          let file := Stream.seekg_cur (snd r) trackSize in
          if Stream.fail file then
            Raised ("Error seeking to next track " +:+ pretty (i + 1))
          else tracksLoop env n' (uint16_t (i + 1)) file (tracks ++ [track])
  end.

(** Lines 213-292: the header checks and the walk over the tracks. The
    result is the division bytes, the tracks and the stream. *)
Definition readFile (env : environment) (file : istream)
  : outcome (list byte * list Track.TrackInfo * istream) :=
  let '(headerData, file) := Stream.read file 14 in
  if Stream.fail file || negb (vsize headerData =? 14) then
    Raised "Error reading MIDI header."
  else if negb (String.eqb (string_of_list_byte (take 4 headerData)) "MThd") then
    Raised "Not a valid MIDI file (missing MThd header)"
  else
    headerSize ← Codec.bytesToUInt32 headerData 4;
    if negb (headerSize =? 6) then Raised "Invalid MIDI header size"
    else
      format ← Codec.bytesToUInt16 headerData 8;
      if negb (format =? 1) then Raised "Not a Format 1 MIDI file"
      else
        totalTracks ← Codec.bytesToUInt16 headerData 10;
        let division := drop 12 headerData in
        r ← tracksLoop env (Z.to_nat totalTracks) 0 file [];
        Done (division, fst r, snd r).

(** Lines 294-314 *)
Definition outputHeader (division : list byte) : list byte :=
  ["M"%byte; "T"%byte; "h"%byte; "d"%byte]
  ++ Codec.uint32ToBytes 6 ++ Codec.uint16ToBytes 1 ++ Codec.uint16ToBytes 1
  ++ division.

(** The loop [while (fs::exists(outputPath))] (lines 333-335). The body
    assigns [outputFile] only; [outputPath] and [counter] are as on entry.
    The result is [outputFile] when the loop is left. *)
Fixpoint existsLoop (fuel : nat) (fs : filesystem) (outputPath : string)
    (baseName safeTrackName : string) (counter : Z) (outputFile : string)
  : outcome string :=
  match fuel with
  | O => OutOfFuel
  | S fuel' =>
      if exists_ fs outputPath then
        existsLoop fuel' fs outputPath baseName safeTrackName counter
          (baseName +:+ " - " +:+ safeTrackName +:+ " (Copy " +:+ pretty counter +:+ ").mid")
      else Done outputFile
  end.

(** The body of the loop over the tracks (lines 322-363), from the input
    stream and the file system to the two afterwards. *)
Definition writeTrack (fuel : nat) (env : environment) (baseName outputDir : string)
    (header : list byte) (track : Track.TrackInfo) (file : istream) (fs : filesystem)
  : outcome istream * filesystem :=
  let safeTrackName := Writer.getSafeFilename (Track.name track) in
  let outputFile := baseName +:+ " - " +:+ safeTrackName +:+ ".mid" in
  let outputPath := join outputDir outputFile in
  let counter := 1 in
  match existsLoop fuel fs outputPath baseName safeTrackName counter outputFile with
  | Done outputFile =>
      let outputPath := join outputDir outputFile in
      if negb (can_create env (c_str outputPath)) then
        (Raised ("Cannot create output file: " +:+ outputPath), fs)
      else
        let fs := <[c_str outputPath := []]> fs in
        let fs := <[c_str outputPath := header]> fs in
        let file := Stream.clear file in
        let file := Stream.seekg file (Track.position track) in
        if Stream.fail file then
          (Raised ("Error seeking to track " +:+ pretty (Track.number track)), fs)
        else
          match Writer.copyStream file header (size_t (uint32_t (8 + Track.size track))) with
          | Done (file, out) => (Done file, <[c_str outputPath := out]> fs)
          | stopped => (abort stopped, fs)
          end
  | stopped => (abort stopped, fs)
  end.

(** The loop [for (const auto& track : tracks)] (lines 321-364). *)
Fixpoint writeLoop (fuel : nat) (env : environment) (baseName outputDir : string)
    (header : list byte) (tracks : list Track.TrackInfo) (file : istream)
    (splitCount : Z) (fs : filesystem) : outcome Z * filesystem :=
  match tracks with
  | [] => (Done splitCount, fs)
  | track :: rest =>
      match writeTrack fuel env baseName outputDir header track file fs with
      | (Done file, fs) =>
          writeLoop fuel env baseName outputDir header rest file (splitCount + 1) fs
      | (stopped, fs) => (abort stopped, fs)
      end
  end.

(** [splitMIDIFile(inputFile, outputDir)]: the outcome (the number of files
    written, on success) and the file system afterwards. [fuel] bounds the
    iterations of each run of the loop at lines 333-335. *)
Definition splitMIDIFile (fuel : nat) (env : environment)
    (inputFile outputDir : string) (fs : filesystem) : outcome Z * filesystem :=
  match fs !! c_str inputFile with
  | None => (Raised ("Cannot open file: " +:+ inputFile), fs)
  | Some bytes =>
      match readFile env (mkIstream bytes 0 false false) with
      | Done (division, tracks, file) =>
          writeLoop fuel env (stem inputFile) outputDir (outputHeader division)
            tracks file 0 fs
      | stopped => (abort stopped, fs)
      end
  end.

End Split.

(** ** Well-formed Format 1 files

    The shape of a valid input, and what a faithful split of it looks
    like. *)

Module Layout.

Import Path.

(** The header chunk of a Format 1 file with [totalTracks] tracks and the
    division bytes [d0 d1]. *)
Definition header (totalTracks : Z) (d0 d1 : byte) : list byte :=
  list_byte_of_string "MThd" ++ Codec.uint32ToBytes 6
  ++ Codec.uint16ToBytes 1 ++ Codec.uint16ToBytes totalTracks ++ [d0; d1].

(** A track chunk: the tag, the length of the payload, the payload. *)
Definition chunk (payload : list byte) : list byte :=
  list_byte_of_string "MTrk" ++ Codec.uint32ToBytes (vsize payload) ++ payload.

(** A file with one track chunk for each payload. *)
Definition file (d0 d1 : byte) (payloads : list (list byte)) : list byte :=
  header (vsize payloads) d0 d1 ++ concat (chunk <$> payloads).

(** The name of the track with this number and payload: the first name in
    the search window, or the fall-back name; the name of the handler when
    an allocation for the names fails. *)
Definition trackName (env : environment) (number : Z) (payload : list byte) : string :=
  if names_ok env number then
    if resize_ok env number then
      default (Name.fallback number)
        (Name.firstName
           (take (Z.to_nat (Z.min (vsize payload) Name.MAX_SEARCH_SIZE)) payload))
    else Name.fallback number
  else if number =? 1 then "Tempo Track"
  else Name.fallback number.

(** The records of the tracks, the first of them being track [i + 1] with its
    chunk at offset [start]. *)
Fixpoint tracksFrom (env : environment) (i start : Z) (payloads : list (list byte))
  : list Track.TrackInfo :=
  match payloads with
  | [] => []
  | payload :: rest =>
      Track.mk (i + 1) (trackName env (i + 1) payload) (vsize payload) start
      :: tracksFrom env (i + 1) (start + 8 + vsize payload) rest
  end.

(** The path, as the operating system reads it, of the file for a track. *)
Definition pathOf (baseName outputDir : string) (track : Track.TrackInfo) : string :=
  c_str (join outputDir
           (baseName +:+ " - " +:+ Writer.getSafeFilename (Track.name track)
            +:+ ".mid")).

(** The files a faithful split writes: for each track its path, and the
    output header followed by the chunk of the track. *)
Definition outputs (baseName outputDir : string) (d0 d1 : byte)
    (tracks : list Track.TrackInfo) (payloads : list (list byte))
  : list (string * list byte) :=
  zip_with (fun track payload =>
              (pathOf baseName outputDir track,
               Split.outputHeader [d0; d1] ++ chunk payload))
    tracks payloads.

(** The file system after the files [(path, bytes)] have been written in
    this order. *)
Fixpoint written (fs : filesystem) (files : list (string * list byte)) : filesystem :=
  match files with
  | [] => fs
  | (path, bytes) :: rest => written (<[path := bytes]> fs) rest
  end.

End Layout.

(** ** Sample files *)

Module Sample.

(** A header chunk with the given format and track count, 480 ticks per
    quarter note. *)
Definition header (format totalTracks : Z) : list byte :=
  list_byte_of_string "MThd" ++ Codec.uint32ToBytes 6
  ++ Codec.uint16ToBytes format ++ Codec.uint16ToBytes totalTracks
  ++ [x01; xe0].

(** A track chunk that declares [declared] bytes and holds [payload]. *)
Definition chunk (declared : Z) (payload : list byte) : list byte :=
  list_byte_of_string "MTrk" ++ Codec.uint32ToBytes declared ++ payload.

(** Track data: a track name event for "Bass" and the end of track. *)
Definition bass : list byte :=
  [x00; xff; x03; x04] ++ list_byte_of_string "Bass" ++ [x00; xff; x2f; x00].

(** Track data: the end of track only. *)
Definition silent : list byte := [x00; xff; x2f; x00].

(** Every allocation and every file creation succeeds. *)
Definition env : environment :=
  mkEnvironment (fun _ => true) (fun _ => true) (fun _ => true).

(** The allocations for the name of track 1 fail. *)
Definition envNoNames : environment :=
  mkEnvironment (fun _ => true) (fun number => negb (number =? 1)) (fun _ => true).

(** One silent track. *)
Definition oneSilent : list byte := header 1 1 ++ chunk 4 silent.

(** A silent track and a track named "Bass". *)
Definition silentAndBass : list (list byte) := [silent; bass].

(** One track named "Bass". *)
Definition oneBass : list byte := header 1 1 ++ chunk 12 bass.

(** Two tracks, both named "Bass". *)
Definition twoBass : list byte := header 1 2 ++ chunk 12 bass ++ chunk 12 bass.

(** One track that declares 10 bytes and is cut after 4. *)
Definition cutShort : list byte := header 1 1 ++ chunk 10 silent.

(** Two tracks declared; the first declares 10 bytes and is cut after 4. *)
Definition cutShortOfTwo : list byte := header 1 2 ++ chunk 10 silent.

(** Format 0, one track. *)
Definition formatZero : list byte := header 0 1 ++ chunk 4 silent.

(** A file system that holds the input file "in/Song.mid" and nothing else. *)
Definition onlyInput (bytes : list byte) : Path.filesystem :=
  {[ "in/Song.mid" := bytes ]}.

(** A stream on [oneBass], right after the chunk header of its track. *)
Definition atBass : istream := mkIstream oneBass 22 false false.

(** A stream on [cutShort], right after the chunk header of its track. *)
Definition atCut : istream := mkIstream cutShort 22 false false.

End Sample.

(** ** Notions for the further properties

    What the further properties are stated with: a name character by
    character, the stream after a copy, what the walk over the tracks
    establishes, and the kinds of outcome. *)

Module Sanitize.

(** Whether a character is one of those listed in [invalid]. *)
Definition isInvalid (c : ascii) : bool :=
  existsb (Ascii.eqb c) (list_ascii_of_string Writer.invalid).

(** What becomes of one character of a name. *)
Definition safeChar (c : ascii) : ascii :=
  if isInvalid c then "_"%char else c.

(** A string, character by character. *)
Fixpoint mapString (f : ascii -> ascii) (s : string) : string :=
  match s with
  | EmptyString => EmptyString
  | String c rest => String (f c) (mapString f rest)
  end.

(** A character after the replacements for [chars], one after the other. *)
Fixpoint throughChars (chars : string) (c : ascii) : ascii :=
  match chars with
  | EmptyString => c
  | String x rest => throughChars rest (if Ascii.eqb c x then "_"%char else c)
  end.

End Sanitize.

Module Copy.

(** The stream after a copy of [size] bytes: right after them when they are
    all there, else at the end with [eofbit] and [failbit]. *)
Definition afterCopy (in_ : istream) (size : Z) : istream :=
  if size <=? Stream.available in_
  then mkIstream (content in_) (position in_ + size) false false
  else mkIstream (content in_) (position in_ + Stream.available in_) true true.

End Copy.

Module Walk.

(** The name the walk gives the track whose chunk header ends at [pos]. *)
Definition nameAt (env : environment) (bytes : list byte) (pos i trackSize : Z)
  : string :=
  let number := uint16_t (i + 1) in
  if names_ok env number then
    match Name.extractTrackName (resize_ok env number)
            (mkIstream bytes pos false false) number trackSize with
    | Done (trackName, _) => trackName
    | _ => EmptyString
    end
  else if i =? 0 then "Tempo Track"
  else "Track " +:+ pretty number.

(** The loop variable after [n] iterations. *)
Definition counter (n : nat) (i : Z) : Z := Nat.iter n (fun i => uint16_t (i + 1)) i.

(** What the walk over the tracks has checked of a file when it returns
    [tracks], the first of them being track [i + 1] with its chunk header at
    [pos]: each track has the next number, begins where the one before it
    ends by its declared size, has its eight header bytes in the file with
    the tag "MTrk", has for size the big-endian value of the four bytes
    after the tag, and has a name. *)
Fixpoint chained (bytes : list byte) (i pos : Z) (tracks : list Track.TrackInfo)
  : Prop :=
  match tracks with
  | [] => True
  | track :: rest =>
      Track.number track = i + 1
      /\ Track.position track = pos
      /\ pos + 8 <= vsize bytes
      /\ take 4 (drop (Z.to_nat pos) bytes) = list_byte_of_string "MTrk"
      /\ Track.size track
         = Codec.be_value (take 4 (drop (Z.to_nat (pos + 4)) bytes))
      /\ Track.name track <> EmptyString
      /\ chained bytes (i + 1) (pos + 8 + Track.size track) rest
  end.

(** The bytes the chunks of [tracks] take by their declared sizes. *)
Fixpoint extent (tracks : list Track.TrackInfo) : Z :=
  match tracks with
  | [] => 0
  | track :: rest => 8 + Track.size track + extent rest
  end.

End Walk.

Module Run.

(** An outcome of the program itself: a result or an exception. *)
Definition settled {A : Type} (o : outcome A) : Prop :=
  match o with
  | Done _ | Raised _ => True
  | _ => False
  end.

(** An outcome that is not a read outside a vector. *)
Definition inBounds {A : Type} (o : outcome A) : Prop :=
  match o with
  | OutOfBounds => False
  | _ => True
  end.


End Run.

(** * Properties *)

(** ** Machine integers and vectors *)

Lemma size_t_small (x : Z) : 0 <= x <= SIZE_MAX -> size_t x = x.
Proof. unfold size_t, SIZE_MAX. intros H. apply Z.mod_small. lia. Qed.

Lemma uint32_t_small (x : Z) : 0 <= x < 2 ^ 32 -> uint32_t x = x.
Proof. unfold uint32_t. intros H. apply Z.mod_small. lia. Qed.

Lemma uint16_t_small (x : Z) : 0 <= x < 2 ^ 16 -> uint16_t x = x.
Proof. unfold uint16_t. intros H. apply Z.mod_small. lia. Qed.

Lemma size_t_range (x : Z) : 0 <= size_t x <= SIZE_MAX.
Proof.
  unfold size_t, SIZE_MAX.
  pose proof (Z.mod_pos_bound x (2 ^ 64) ltac:(lia)). lia.
Qed.

Lemma u8_range (b : byte) : 0 <= u8 b <= 255.
Proof. unfold u8. pose proof (Byte.to_N_bounded b). lia. Qed.

Lemma vsize_nonneg {A : Type} (v : list A) : 0 <= vsize v.
Proof. unfold vsize. lia. Qed.

Lemma vsize_app {A : Type} (u v : list A) : vsize (u ++ v) = vsize u + vsize v.
Proof. unfold vsize. rewrite length_app. lia. Qed.

Lemma at_lookup (v : list byte) (i : nat) (b : byte) :
  v !! i = Some b -> at_ v (Z.of_nat i) = Done b.
Proof.
  intros H. unfold at_, vsize.
  pose proof (lookup_lt_Some _ _ _ H) as Hlt.
  replace (0 <=? Z.of_nat i) with true by (symmetry; apply Z.leb_le; lia).
  replace (Z.of_nat i <? Z.of_nat (length v)) with true
    by (symmetry; apply Z.ltb_lt; lia).
  simpl. rewrite Nat2Z.id, H. reflexivity.
Qed.

Lemma at_in_range (v : list byte) (i : Z) :
  0 <= i < vsize v -> exists b, v !! Z.to_nat i = Some b /\ at_ v i = Done b.
Proof.
  intros H. unfold vsize in H.
  destruct (lookup_lt_is_Some_2 v (Z.to_nat i) ltac:(lia)) as [b Hb].
  exists b. split; [exact Hb |].
  rewrite <- (Z2Nat.id i) by lia. apply at_lookup. exact Hb.
Qed.

Lemma at_outside (v : list byte) (i : Z) :
  vsize v <= i -> at_ v i = OutOfBounds.
Proof.
  intros H. unfold at_.
  replace (i <? vsize v) with false by (symmetry; apply Z.ltb_ge; lia).
  rewrite andb_false_r. reflexivity.
Qed.

Lemma at_take (v : list byte) (n : nat) (i : Z) :
  0 <= i < Z.of_nat n -> (n <= length v)%nat -> at_ (take n v) i = at_ v i.
Proof.
  intros Hi Hn. unfold at_, vsize. rewrite length_take.
  replace (n `min` length v)%nat with n by lia.
  replace (i <? Z.of_nat n) with true by (symmetry; apply Z.ltb_lt; lia).
  replace (i <? Z.of_nat (length v)) with true by (symmetry; apply Z.ltb_lt; lia).
  rewrite lookup_take. destruct (decide (Z.to_nat i < n)%nat); [reflexivity | lia].
Qed.

(** ** Byte codec *)

Module CodecFacts.

Import Codec.

Lemma lor_shiftl_add (a b n : Z) :
  0 <= n -> 0 <= b < 2 ^ n -> Z.lor (Z.shiftl a n) b = a * 2 ^ n + b.
Proof.
  intros Hn Hb.
  assert (Hland : Z.land (Z.shiftl a n) b = 0).
  { apply Z.bits_inj'. intros k Hk. rewrite Z.land_spec, Z.bits_0.
    destruct (Z.lt_ge_cases k n) as [Hlt | Hge].
    - rewrite Z.shiftl_spec_low by lia. reflexivity.
    - replace (Z.testbit b k) with false; [apply andb_false_r |].
      symmetry. destruct (Z.eq_dec b 0) as [-> | Hb0]; [apply Z.bits_0 |].
      apply Z.bits_above_log2; [lia |].
      apply Z.log2_lt_pow2; [lia |].
      apply Z.lt_le_trans with (2 ^ n); [lia |].
      apply Z.pow_le_mono_r; lia. }
  rewrite <- Z.lxor_lor by exact Hland.
  rewrite <- Z.add_nocarry_lxor by exact Hland.
  rewrite Z.shiftl_mul_pow2 by lia. reflexivity.
Qed.

Lemma lor_low_add (a b n : Z) :
  0 <= n -> 0 <= b < 2 ^ n -> a mod 2 ^ n = 0 -> Z.lor a b = a + b.
Proof.
  intros Hn Hb Ha.
  assert (Hq : a = Z.shiftl (a / 2 ^ n) n).
  { rewrite Z.shiftl_mul_pow2 by lia.
    pose proof (Z.div_mod a (2 ^ n) ltac:(lia)). lia. }
  rewrite Hq at 1. rewrite lor_shiftl_add by lia.
  pose proof (Z.div_mod a (2 ^ n) ltac:(lia)). lia.
Qed.

Lemma be_value_4 (b0 b1 b2 b3 : byte) :
  be_value [b0; b1; b2; b3]
  = u8 b0 * 2 ^ 24 + u8 b1 * 2 ^ 16 + u8 b2 * 2 ^ 8 + u8 b3.
Proof. unfold be_value. simpl. lia. Qed.

Lemma be_value_2 (b0 b1 : byte) : be_value [b0; b1] = u8 b0 * 2 ^ 8 + u8 b1.
Proof. unfold be_value. simpl. lia. Qed.

Lemma word32_value (b0 b1 b2 b3 : byte) :
  Z.lor (Z.lor (Z.lor (uint32_t (Z.shiftl (u8 b0) 24))
                      (uint32_t (Z.shiftl (u8 b1) 16)))
               (uint32_t (Z.shiftl (u8 b2) 8)))
        (u8 b3)
  = be_value [b0; b1; b2; b3].
Proof.
  pose proof (u8_range b0). pose proof (u8_range b1).
  pose proof (u8_range b2). pose proof (u8_range b3).
  rewrite be_value_4, !Z.shiftl_mul_pow2 by lia.
  rewrite !uint32_t_small by lia.
  rewrite (lor_low_add (u8 b0 * 2 ^ 24) (u8 b1 * 2 ^ 16) 24);
    [| lia | lia | apply Z.mod_mul; lia].
  rewrite (lor_low_add _ (u8 b2 * 2 ^ 8) 16); [| lia | lia |].
  2:{ replace (u8 b0 * 2 ^ 24 + u8 b1 * 2 ^ 16)
        with ((u8 b0 * 2 ^ 8 + u8 b1) * 2 ^ 16) by lia.
      apply Z.mod_mul. lia. }
  rewrite (lor_low_add _ (u8 b3) 8); [reflexivity | lia | lia |].
  replace (u8 b0 * 2 ^ 24 + u8 b1 * 2 ^ 16 + u8 b2 * 2 ^ 8)
    with ((u8 b0 * 2 ^ 16 + u8 b1 * 2 ^ 8 + u8 b2) * 2 ^ 8) by lia.
  apply Z.mod_mul. lia.
Qed.

Lemma word16_value (b0 b1 : byte) :
  uint16_t (Z.lor (Z.shiftl (u8 b0) 8) (u8 b1)) = be_value [b0; b1].
Proof.
  pose proof (u8_range b0). pose proof (u8_range b1).
  rewrite be_value_2, lor_shiftl_add by lia.
  apply uint16_t_small. lia.
Qed.

Lemma be_value_4_range (b0 b1 b2 b3 : byte) :
  0 <= be_value [b0; b1; b2; b3] < 2 ^ 32.
Proof.
  pose proof (u8_range b0). pose proof (u8_range b1).
  pose proof (u8_range b2). pose proof (u8_range b3).
  rewrite be_value_4. lia.
Qed.

Lemma be_value_2_range (b0 b1 : byte) : 0 <= be_value [b0; b1] < 2 ^ 16.
Proof.
  pose proof (u8_range b0). pose proof (u8_range b1).
  rewrite be_value_2. lia.
Qed.

(** Fewer than four bytes at the offset: the decoder answers 0 and touches
    nothing, as long as [offset + 4] does not wrap. *)
Lemma bytesToUInt32_short (bytes : list byte) (offset : Z) :
  0 <= offset -> offset + 4 <= SIZE_MAX -> vsize bytes < offset + 4 ->
  bytesToUInt32 bytes offset = Done 0.
Proof.
  intros H0 Hmax Hshort. unfold bytesToUInt32.
  rewrite size_t_small by lia.
  replace (offset + 4 >? vsize bytes) with true; [reflexivity |].
  symmetry. apply Z.gtb_lt. lia.
Qed.

Lemma bytesToUInt16_short (bytes : list byte) (offset : Z) :
  0 <= offset -> offset + 2 <= SIZE_MAX -> vsize bytes < offset + 2 ->
  bytesToUInt16 bytes offset = Done 0.
Proof.
  intros H0 Hmax Hshort. unfold bytesToUInt16.
  rewrite size_t_small by lia.
  replace (offset + 2 >? vsize bytes) with true; [reflexivity |].
  symmetry. apply Z.gtb_lt. lia.
Qed.

Lemma at_app_middle (pre mid post : list byte) (k : nat) (b : byte) :
  mid !! k = Some b ->
  at_ (pre ++ mid ++ post) (vsize pre + Z.of_nat k) = Done b.
Proof.
  intros H. unfold vsize. rewrite <- Nat2Z.inj_add. apply at_lookup.
  rewrite lookup_app_r by lia.
  replace (length pre + k - length pre)%nat with k by lia.
  rewrite lookup_app_l by (apply lookup_lt_Some in H; exact H).
  exact H.
Qed.

(** Four bytes at the offset: the decoder answers their big-endian value. *)
Lemma bytesToUInt32_value (pre post : list byte) (b0 b1 b2 b3 : byte) :
  vsize (pre ++ [b0; b1; b2; b3] ++ post) <= SIZE_MAX ->
  bytesToUInt32 (pre ++ [b0; b1; b2; b3] ++ post) (vsize pre)
  = Done (be_value [b0; b1; b2; b3]).
Proof.
  intros Hmax. unfold bytesToUInt32.
  pose proof (vsize_nonneg pre). pose proof (vsize_nonneg post).
  rewrite !vsize_app in Hmax. change (vsize [b0; b1; b2; b3]) with 4 in Hmax.
  rewrite !size_t_small by lia.
  replace (vsize pre + 4 >? vsize (pre ++ [b0; b1; b2; b3] ++ post)) with false.
  2:{ symmetry. rewrite Z.gtb_ltb. apply Z.ltb_ge. rewrite !vsize_app.
      change (vsize [b0; b1; b2; b3]) with 4. lia. }
  pose proof (at_app_middle pre [b0; b1; b2; b3] post 0 b0 eq_refl) as E0.
  pose proof (at_app_middle pre [b0; b1; b2; b3] post 1 b1 eq_refl) as E1.
  pose proof (at_app_middle pre [b0; b1; b2; b3] post 2 b2 eq_refl) as E2.
  pose proof (at_app_middle pre [b0; b1; b2; b3] post 3 b3 eq_refl) as E3.
  change (Z.of_nat 0) with 0 in E0. change (Z.of_nat 1) with 1 in E1.
  change (Z.of_nat 2) with 2 in E2. change (Z.of_nat 3) with 3 in E3.
  rewrite Z.add_0_r in E0. rewrite E0, E1, E2, E3.
  simpl. rewrite word32_value. reflexivity.
Qed.

Lemma bytesToUInt16_value (pre post : list byte) (b0 b1 : byte) :
  vsize (pre ++ [b0; b1] ++ post) <= SIZE_MAX ->
  bytesToUInt16 (pre ++ [b0; b1] ++ post) (vsize pre) = Done (be_value [b0; b1]).
Proof.
  intros Hmax. unfold bytesToUInt16.
  pose proof (vsize_nonneg pre). pose proof (vsize_nonneg post).
  rewrite !vsize_app in Hmax. change (vsize [b0; b1]) with 2 in Hmax.
  rewrite !size_t_small by lia.
  replace (vsize pre + 2 >? vsize (pre ++ [b0; b1] ++ post)) with false.
  2:{ symmetry. rewrite Z.gtb_ltb. apply Z.ltb_ge. rewrite !vsize_app.
      change (vsize [b0; b1]) with 2. lia. }
  pose proof (at_app_middle pre [b0; b1] post 0 b0 eq_refl) as E0.
  pose proof (at_app_middle pre [b0; b1] post 1 b1 eq_refl) as E1.
  change (Z.of_nat 0) with 0 in E0. change (Z.of_nat 1) with 1 in E1.
  rewrite Z.add_0_r in E0. rewrite E0, E1.
  simpl. rewrite word16_value. reflexivity.
Qed.

(** With an offset for which [offset + 4] does not wrap, the decoder reads
    inside the vector only. *)
Lemma bytesToUInt32_defined (bytes : list byte) (offset : Z) :
  0 <= offset -> offset + 4 <= SIZE_MAX ->
  exists v, bytesToUInt32 bytes offset = Done v /\ 0 <= v < 2 ^ 32.
Proof.
  intros H0 Hmax. unfold bytesToUInt32.
  rewrite !size_t_small by lia.
  destruct (Z.gtb_spec (offset + 4) (vsize bytes)) as [Hshort | Hfit].
  - exists 0. split; [reflexivity | lia].
  - destruct (at_in_range bytes offset ltac:(lia)) as [b0 [_ E0]].
    destruct (at_in_range bytes (offset + 1) ltac:(lia)) as [b1 [_ E1]].
    destruct (at_in_range bytes (offset + 2) ltac:(lia)) as [b2 [_ E2]].
    destruct (at_in_range bytes (offset + 3) ltac:(lia)) as [b3 [_ E3]].
    rewrite E0, E1, E2, E3. cbn [mbind outcome_bind].
    rewrite word32_value. eexists. split; [reflexivity |].
    apply be_value_4_range.
Qed.

Lemma bytesToUInt16_defined (bytes : list byte) (offset : Z) :
  0 <= offset -> offset + 2 <= SIZE_MAX ->
  exists v, bytesToUInt16 bytes offset = Done v /\ 0 <= v < 2 ^ 16.
Proof.
  intros H0 Hmax. unfold bytesToUInt16.
  rewrite !size_t_small by lia.
  destruct (Z.gtb_spec (offset + 2) (vsize bytes)) as [Hshort | Hfit].
  - exists 0. split; [reflexivity | lia].
  - destruct (at_in_range bytes offset ltac:(lia)) as [b0 [_ E0]].
    destruct (at_in_range bytes (offset + 1) ltac:(lia)) as [b1 [_ E1]].
    rewrite E0, E1. cbn [mbind outcome_bind].
    rewrite word16_value. eexists. split; [reflexivity |].
    apply be_value_2_range.
Qed.


(** Decoding inside a prefix of the vector is decoding inside the vector. *)
Lemma bytesToUInt32_take (bytes : list byte) (n : nat) (offset : Z) :
  0 <= offset -> offset + 4 <= Z.of_nat n -> (n <= length bytes)%nat ->
  vsize bytes <= SIZE_MAX ->
  bytesToUInt32 (take n bytes) offset = bytesToUInt32 bytes offset.
Proof.
  intros H0 Hn Hlen Hmax. unfold bytesToUInt32.
  unfold vsize in *. rewrite !size_t_small by lia.
  unfold vsize. rewrite length_take.
  replace (n `min` length bytes)%nat with n by lia.
  replace (offset + 4 >? Z.of_nat n) with false
    by (symmetry; rewrite Z.gtb_ltb; apply Z.ltb_ge; lia).
  replace (offset + 4 >? Z.of_nat (length bytes)) with false
    by (symmetry; rewrite Z.gtb_ltb; apply Z.ltb_ge; lia).
  rewrite !at_take by lia. reflexivity.
Qed.

Lemma bytesToUInt16_take (bytes : list byte) (n : nat) (offset : Z) :
  0 <= offset -> offset + 2 <= Z.of_nat n -> (n <= length bytes)%nat ->
  vsize bytes <= SIZE_MAX ->
  bytesToUInt16 (take n bytes) offset = bytesToUInt16 bytes offset.
Proof.
  intros H0 Hn Hlen Hmax. unfold bytesToUInt16.
  unfold vsize in *. rewrite !size_t_small by lia.
  unfold vsize. rewrite length_take.
  replace (n `min` length bytes)%nat with n by lia.
  replace (offset + 2 >? Z.of_nat n) with false
    by (symmetry; rewrite Z.gtb_ltb; apply Z.ltb_ge; lia).
  replace (offset + 2 >? Z.of_nat (length bytes)) with false
    by (symmetry; rewrite Z.gtb_ltb; apply Z.ltb_ge; lia).
  rewrite !at_take by lia. reflexivity.
Qed.


End CodecFacts.

(** ** Pattern search *)

Module SearchFacts.

Import Search.

Lemma occurs_at_short (needle hay : list byte) :
  (length hay < length needle)%nat -> occurs_at needle hay = false.
Proof.
  revert hay. induction needle as [| n needle IH]; intros hay H; simpl in *.
  - lia.
  - destruct hay as [| h hay]; [reflexivity |].
    simpl in H. rewrite IH by lia. apply andb_false_r.
Qed.

Lemma scan_short (needle hay : list byte) (p : nat) :
  (length hay < length needle)%nat -> scan needle hay p 0 = [].
Proof.
  revert p. induction hay as [| h hay IH]; intros p H; [reflexivity |].
  cbn [scan]. rewrite occurs_at_short by exact H.
  apply IH. simpl in H. lia.
Qed.

(** Passing over [k] bytes is the same as dropping them. *)
Lemma scan_skip (needle hay : list byte) (p k : nat) :
  (k <= length hay)%nat ->
  scan needle hay p k = scan needle (drop k hay) (p + k) 0.
Proof.
  revert hay p. induction k as [| k IH]; intros hay p H.
  - rewrite drop_0, Nat.add_0_r. reflexivity.
  - destruct hay as [| h hay]; [simpl in H; lia |].
    cbn [scan drop]. rewrite IH by (simpl in H; lia).
    f_equal. lia.
Qed.

(** The inner loop decides whether the pattern occurs at [i]. *)
Lemma matchLoop_occurs (text pattern : list byte) (i : nat) :
  vsize text <= SIZE_MAX ->
  (i + length pattern <= length text)%nat ->
  forall (n j : nat),
    (j + n = length pattern)%nat ->
    matchLoop text pattern (Z.of_nat i) (Z.of_nat j) n
    = Done (occurs_at (drop j pattern) (drop (i + j) text)).
Proof.
  intros Hmax Hfit. unfold vsize in Hmax.
  induction n as [| n IH]; intros j Hj.
  - cbn [matchLoop]. rewrite drop_ge by lia. reflexivity.
  - cbn [matchLoop].
    destruct (lookup_lt_is_Some_2 text (i + j) ltac:(lia)) as [t Ht].
    destruct (lookup_lt_is_Some_2 pattern j ltac:(lia)) as [p Hp].
    rewrite (size_t_small (Z.of_nat i + Z.of_nat j))
      by (unfold SIZE_MAX in *; lia).
    rewrite <- Nat2Z.inj_add, (at_lookup _ _ _ Ht), (at_lookup _ _ _ Hp).
    cbn [mbind outcome_bind].
    rewrite (drop_S _ _ _ Ht), (drop_S _ _ _ Hp). cbn [occurs_at].
    destruct (Byte.eqb t p); [| reflexivity].
    rewrite size_t_small by (unfold SIZE_MAX in *; lia).
    replace (Z.of_nat j + 1) with (Z.of_nat (S j)) by lia.
    rewrite IH by lia. cbn [andb]. do 3 f_equal. lia.
Qed.

(** The outer loop, entered at position [i], adds to [result] what the scan
    reports from [i] on. *)
Lemma searchLoop_scan (text pattern : list byte) :
  vsize text <= SIZE_MAX ->
  (1 <= length pattern <= length text)%nat ->
  forall (fuel i : nat) (result : list Z),
    (i <= length text)%nat ->
    (length text < fuel + i)%nat ->
    searchLoop fuel text pattern (Z.of_nat i) result
    = Done (result ++ (Z.of_nat <$> scan pattern (drop i text) i 0)).
Proof.
  intros Hmax Hlen. pose proof Hmax as Hmax'. unfold vsize in Hmax'.
  induction fuel as [| fuel IH]; intros i result Hi Hfuel; [lia |].
  cbn [searchLoop]. unfold vsize at 1 2.
  rewrite (size_t_small (Z.of_nat (length text) - Z.of_nat (length pattern)))
    by (unfold SIZE_MAX in *; lia).
  destruct (Z.leb_spec (Z.of_nat i) (Z.of_nat (length text) - Z.of_nat (length pattern)))
    as [Hin | Hout].
  - pose proof (matchLoop_occurs text pattern i Hmax ltac:(lia)
                  (length pattern) 0%nat eq_refl) as Hm.
    change (Z.of_nat 0) with 0 in Hm. rewrite Hm.
    cbn [mbind outcome_bind]. rewrite drop_0, Nat.add_0_r.
    destruct (lookup_lt_is_Some_2 text i ltac:(lia)) as [t Ht].
    rewrite (drop_S _ _ _ Ht). cbn [scan]. rewrite <- (drop_S _ _ _ Ht).
    destruct (occurs_at pattern (drop i text)).
    + unfold vsize.
      rewrite (size_t_small (Z.of_nat (length pattern) - 1))
        by (unfold SIZE_MAX in *; lia).
      rewrite (size_t_small (Z.of_nat i + _)) by (unfold SIZE_MAX in *; lia).
      rewrite size_t_small by (unfold SIZE_MAX in *; lia).
      replace (Z.of_nat i + (Z.of_nat (length pattern) - 1) + 1)
        with (Z.of_nat (i + length pattern)) by lia.
      rewrite IH by lia.
      rewrite (scan_skip pattern (drop (S i) text) (S i) (length pattern - 1))
        by (rewrite length_drop; lia).
      rewrite drop_drop. rewrite fmap_cons, <- app_assoc. cbn [app].
      replace (S i + (length pattern - 1))%nat with (i + length pattern)%nat by lia.
      reflexivity.
    + rewrite size_t_small by (unfold SIZE_MAX in *; lia).
      replace (Z.of_nat i + 1) with (Z.of_nat (S i)) by lia.
      rewrite IH by lia. reflexivity.
  - rewrite scan_short by (rewrite length_drop; lia).
    rewrite app_nil_r. reflexivity.
Qed.

(** The search returns what the scan of the specification reports. *)
Lemma simpleSearch_scan (text pattern : list byte) :
  vsize text <= SIZE_MAX ->
  simpleSearch text pattern = Done (Z.of_nat <$> findAll text pattern).
Proof.
  intros Hmax. unfold simpleSearch, findAll.
  destruct pattern as [| p0 pattern]; [reflexivity |].
  replace (vsize (p0 :: pattern) =? 0) with false
    by (symmetry; apply Z.eqb_neq; unfold vsize; simpl; lia).
  cbn [orb].
  destruct (Z.ltb_spec (vsize text) (vsize (p0 :: pattern))) as [Hshort | Hlong];
    unfold vsize in Hshort || unfold vsize in Hlong.
  - replace (length text <? length (p0 :: pattern))%nat with true;
      [reflexivity |].
    symmetry. apply Nat.ltb_lt. lia.
  - replace (length text <? length (p0 :: pattern))%nat with false
      by (symmetry; apply Nat.ltb_ge; lia).
    pose proof (searchLoop_scan text (p0 :: pattern) Hmax
                  ltac:(simpl in *; lia)
                  (S (length text)) 0%nat [] ltac:(lia) ltac:(lia)) as H.
    change (Z.of_nat 0) with 0 in H. rewrite H, drop_0. reflexivity.
Qed.

(** Facts about the scan of the specification: what it reports are
    occurrences, in increasing order and without overlap, and an occurrence
    it does not report starts inside a reported one. *)
Lemma occurs_at_prefix (needle hay : list byte) :
  occurs_at needle hay = true <-> take (length needle) hay = needle /\
                                  (length needle <= length hay)%nat.
Proof.
  revert hay. induction needle as [| n needle IH]; intros hay; simpl.
  - rewrite take_0. split; [intros _; split; [reflexivity | lia] | reflexivity].
  - destruct hay as [| h hay]; simpl.
    + split; [discriminate | intros [H _]; discriminate].
    + rewrite andb_true_iff, IH. split.
      * intros [Hb [Ht Hl]]. apply Byte.byte_dec_bl in Hb. subst h.
        split; [f_equal; exact Ht | lia].
      * intros [Hc Hl]. injection Hc as -> Ht.
        split; [apply Byte.byte_dec_lb; reflexivity | split; [exact Ht | lia]].
Qed.

Lemma scan_sound (needle hay : list byte) :
  forall (p skip q : nat),
    q ∈ scan needle hay p skip ->
    (p + skip <= q)%nat /\ occurs_at needle (drop (q - p) hay) = true.
Proof.
  induction hay as [| h hay IH]; intros p skip q Hq; cbn [scan] in Hq.
  - apply elem_of_nil in Hq. contradiction.
  - destruct skip as [| k].
    + destruct (occurs_at needle (h :: hay)) eqn:Hocc.
      * apply elem_of_cons in Hq as [-> | Hq].
        -- rewrite Nat.sub_diag, drop_0. split; [lia | exact Hocc].
        -- apply IH in Hq as [Hle Ho]. split; [lia |].
           replace (q - p)%nat with (S (q - S p)) by lia. exact Ho.
      * apply IH in Hq as [Hle Ho]. split; [lia |].
        replace (q - p)%nat with (S (q - S p)) by lia. exact Ho.
    + apply IH in Hq as [Hle Ho]. split; [lia |].
      replace (q - p)%nat with (S (q - S p)) by lia. exact Ho.
Qed.

(** Two reported positions next to each other are at least a needle apart. *)
Inductive spaced (d : nat) : list nat -> Prop :=
| spaced_nil : spaced d []
| spaced_one (p : nat) : spaced d [p]
| spaced_cons (p q : nat) (l : list nat) :
    (p + d <= q)%nat -> spaced d (q :: l) -> spaced d (p :: q :: l).

Lemma scan_spaced (needle hay : list byte) :
  (1 <= length needle)%nat ->
  forall (p skip : nat), spaced (length needle) (scan needle hay p skip).
Proof.
  intros Hn. induction hay as [| h hay IH]; intros p skip; cbn [scan].
  - constructor.
  - destruct skip as [| k]; [| apply IH].
    destruct (occurs_at needle (h :: hay)); [| apply IH].
    specialize (IH (S p) (length needle - 1)%nat).
    destruct (scan needle hay (S p) (length needle - 1)) as [| q l] eqn:Hs.
    + constructor.
    + constructor; [| exact IH].
      assert (Hq : q ∈ scan needle hay (S p) (length needle - 1))
        by (rewrite Hs; apply list_elem_of_here).
      apply scan_sound in Hq. lia.
Qed.

Lemma scan_complete (needle hay : list byte) :
  (1 <= length needle)%nat ->
  forall (p skip q : nat),
    (p + skip <= q)%nat ->
    occurs_at needle (drop (q - p) hay) = true ->
    q ∈ scan needle hay p skip \/
    exists r, r ∈ scan needle hay p skip /\ (r < q < r + length needle)%nat.
Proof.
  intros Hn. induction hay as [| h hay IH]; intros p skip q Hle Hocc.
  - rewrite drop_nil in Hocc. rewrite occurs_at_short in Hocc; [discriminate |].
    simpl. lia.
  - cbn [scan]. destruct skip as [| k].
    + destruct (Nat.eq_dec q p) as [-> | Hne].
      * rewrite Nat.sub_diag, drop_0 in Hocc. rewrite Hocc.
        left. apply list_elem_of_here.
      * replace (q - p)%nat with (S (q - S p)) in Hocc by lia.
        cbn [drop] in Hocc.
        destruct (occurs_at needle (h :: hay)).
        -- destruct (Nat.lt_ge_cases q (p + length needle)) as [Hin | Hout].
           ++ right. exists p. split; [apply list_elem_of_here | lia].
           ++ destruct (IH (S p) (length needle - 1)%nat q ltac:(lia) Hocc)
                as [H | [r [Hr Hlt]]].
              ** left. apply list_elem_of_further. exact H.
              ** right. exists r. split; [apply list_elem_of_further; exact Hr | lia].
        -- destruct (IH (S p) 0%nat q ltac:(lia) Hocc) as [H | [r [Hr Hlt]]].
           ++ left. exact H.
           ++ right. exists r. split; [exact Hr | lia].
    + replace (q - p)%nat with (S (q - S p)) in Hocc by lia.
      cbn [drop] in Hocc.
      apply (IH (S p) k q ltac:(lia) Hocc).
Qed.

End SearchFacts.

(** ** Track name extraction *)

Module NameFacts.

Import Search Name SearchFacts.

Lemma append_cons (d : ascii) (s t : string) :
  String d s +:+ t = String d (s +:+ t).
Proof. reflexivity. Qed.

Lemma append_snoc (s t : string) (c : ascii) :
  (s +:+ String c EmptyString) +:+ t = s +:+ String c t.
Proof.
  induction s as [| d s IH]; [reflexivity |].
  rewrite !append_cons. f_equal. exact IH.
Qed.

Lemma append_empty_r (s : string) : s +:+ EmptyString = s.
Proof.
  induction s as [| d s IH]; [reflexivity |].
  rewrite !append_cons. f_equal. exact IH.
Qed.

Lemma fallback_nonempty (trackNumber : Z) : fallback trackNumber <> EmptyString.
Proof. unfold fallback. simpl. discriminate. Qed.

(** The marker cannot overlap itself, so the search finds every place where
    it occurs. *)
Lemma scan_pattern_occurrences (hay : list byte) :
  forall p : nat,
    scan pattern hay p 0 = occurrences pattern hay p /\
    (head hay <> Some xff -> scan pattern hay p 1 = occurrences pattern hay p).
Proof.
  induction hay as [| h hay IH]; intros p; [split; reflexivity |].
  split.
  - cbn [scan occurrences].
    destruct (occurs_at pattern (h :: hay)) eqn:E; [| apply IH].
    f_equal. change (length pattern - 1)%nat with 1%nat.
    apply IH. unfold pattern in E. cbn [occurs_at] in E.
    destruct hay as [| h2 hay]; [rewrite andb_false_r in E; discriminate |].
    apply andb_true_iff in E as [_ E]. apply andb_true_iff in E as [E _].
    apply Byte.byte_dec_bl in E. subst h2. simpl. discriminate.
  - intros Hh. cbn [scan occurrences].
    replace (occurs_at pattern (h :: hay)) with false; [apply IH |].
    unfold pattern. cbn [occurs_at]. symmetry. apply andb_false_iff. left.
    destruct (Byte.eqb h xff) eqn:E; [| reflexivity].
    apply Byte.byte_dec_bl in E. subst h. contradiction Hh. reflexivity.
Qed.

Lemma occurrences_short (needle hay : list byte) (p : nat) :
  (length hay < length needle)%nat -> occurrences needle hay p = [].
Proof.
  revert p. induction hay as [| h hay IH]; intros p H; [reflexivity |].
  cbn [occurrences]. rewrite occurs_at_short by exact H.
  apply IH. simpl in H. lia.
Qed.

Lemma findAll_occurrences (window : list byte) :
  findAll window pattern = occurrences pattern window 0.
Proof.
  unfold findAll, pattern.
  destruct (Nat.ltb_spec (length window) (length [xff; x03])) as [Hs | Hl].
  - symmetry. apply occurrences_short. exact Hs.
  - apply (scan_pattern_occurrences window 0).
Qed.

Lemma occurrences_sound (needle hay : list byte) :
  forall p q : nat,
    q ∈ occurrences needle hay p ->
    (p <= q)%nat /\ occurs_at needle (drop (q - p) hay) = true.
Proof.
  induction hay as [| h hay IH]; intros p q Hq; cbn [occurrences] in Hq.
  - apply elem_of_nil in Hq. contradiction.
  - destruct (occurs_at needle (h :: hay)) eqn:Hocc.
    + apply elem_of_cons in Hq as [-> | Hq].
      * rewrite Nat.sub_diag, drop_0. split; [lia | exact Hocc].
      * apply IH in Hq as [Hle Ho]. split; [lia |].
        replace (q - p)%nat with (S (q - S p)) by lia. exact Ho.
    + apply IH in Hq as [Hle Ho]. split; [lia |].
      replace (q - p)%nat with (S (q - S p)) by lia. exact Ho.
Qed.

Lemma occurrences_inside (window : list byte) (q : nat) :
  q ∈ occurrences pattern window 0 -> (q + 2 <= length window)%nat.
Proof.
  intros Hq. apply occurrences_sound in Hq as [_ Ho].
  apply occurs_at_prefix in Ho as [_ Hl].
  rewrite length_drop in Hl. change (length pattern) with 2%nat in Hl. lia.
Qed.

Lemma string_of_list_byte_cons (b : byte) (l : list byte) :
  string_of_list_byte (b :: l) = String (ascii_of_byte b) (string_of_list_byte l).
Proof. reflexivity. Qed.

(** The loop that builds the name appends the bytes it passes over. *)
Lemma nameLoop_take (searchBuffer : list byte) (nameIndex : nat) :
  vsize searchBuffer <= SIZE_MAX ->
  forall (n i : nat) (trackName : string),
    (nameIndex + 1 + i + n <= length searchBuffer)%nat ->
    nameLoop searchBuffer (Z.of_nat nameIndex) (Z.of_nat i) n trackName
    = Done (trackName +:+
            string_of_list_byte (take n (drop (nameIndex + 1 + i) searchBuffer))).
Proof.
  intros Hmax. unfold vsize in Hmax.
  induction n as [| n IH]; intros i trackName Hfit.
  - cbn [nameLoop take]. simpl. rewrite append_empty_r. reflexivity.
  - cbn [nameLoop].
    destruct (lookup_lt_is_Some_2 searchBuffer (nameIndex + 1 + i) ltac:(lia))
      as [b Hb].
    rewrite (size_t_small (Z.of_nat nameIndex + 1)) by (unfold SIZE_MAX in *; lia).
    rewrite (size_t_small (Z.of_nat nameIndex + 1 + Z.of_nat i))
      by (unfold SIZE_MAX in *; lia).
    replace (Z.of_nat nameIndex + 1 + Z.of_nat i)
      with (Z.of_nat (nameIndex + 1 + i)) by lia.
    rewrite (at_lookup _ _ _ Hb). cbn [mbind outcome_bind].
    rewrite size_t_small by (unfold SIZE_MAX in *; lia).
    replace (Z.of_nat i + 1) with (Z.of_nat (S i)) by lia.
    rewrite IH by lia.
    rewrite (drop_S _ _ _ Hb). cbn [take]. rewrite string_of_list_byte_cons.
    rewrite append_snoc.
    replace (nameIndex + 1 + S i)%nat with (S (nameIndex + 1 + i)) by lia.
    reflexivity.
Qed.

Lemma decode_nonempty (window : list byte) (p : nat) (name : string) :
  decode window p = Some name -> name <> EmptyString.
Proof.
  unfold decode. destruct (window !! (p + 2)%nat) as [b |]; [| discriminate].
  destruct (Nat.leb_spec 1 (Z.to_nat (u8 b))) as [H1 | H1]; [| discriminate].
  destruct (Nat.leb_spec (p + 3 + Z.to_nat (u8 b)) (length window)) as [H2 | H2];
    [| discriminate].
  cbn [andb]. intros [= <-].
  destruct (lookup_lt_is_Some_2 window (p + 3) ltac:(lia)) as [c Hc].
  rewrite (drop_S _ _ _ Hc).
  destruct (Z.to_nat (u8 b)) as [| L]; [lia |].
  cbn [take]. rewrite string_of_list_byte_cons. discriminate.
Qed.

Lemma head_omap_cons {A B : Type} (f : A -> option B) (x : A) (l : list A) :
  head (omap f (x :: l))
  = match f x with Some y => Some y | None => head (omap f l) end.
Proof. cbn. destruct (f x); reflexivity. Qed.

(** The loop over the matches returns the name of the first match that
    yields one. *)
Lemma matchesLoop_decode (searchBuffer : list byte) :
  vsize searchBuffer <= 2 ^ 32 ->
  forall ps : list nat,
    (forall p, p ∈ ps -> (p + 2 <= length searchBuffer)%nat) ->
    matchesLoop searchBuffer (Z.of_nat <$> ps)
    = Done (head (omap (decode searchBuffer) ps)).
Proof.
  intros Hmax. unfold vsize in Hmax.
  assert (Hmax' : vsize searchBuffer <= SIZE_MAX)
    by (unfold vsize, SIZE_MAX; lia).
  induction ps as [| p ps IH]; intros Hps; [reflexivity |].
  assert (Hp : (p + 2 <= length searchBuffer)%nat)
    by (apply Hps, list_elem_of_here).
  specialize (IH (fun q Hq => Hps q (list_elem_of_further _ _ _ Hq))).
  rewrite fmap_cons, head_omap_cons. cbn [matchesLoop]. unfold vsize.
  rewrite (size_t_small (Z.of_nat p + 2)) by (unfold SIZE_MAX; lia).
  rewrite (size_t_small (Z.of_nat p + 2 + 1)) by (unfold SIZE_MAX; lia).
  unfold decode at 1.
  destruct (Z.ltb_spec (Z.of_nat p + 2 + 1) (Z.of_nat (length searchBuffer)))
    as [Hin | Hout].
  - destruct (lookup_lt_is_Some_2 searchBuffer (p + 2) ltac:(lia)) as [b Hb].
    replace (Z.of_nat p + 2) with (Z.of_nat (p + 2)) by lia.
    rewrite (at_lookup _ _ _ Hb), Hb. cbn [mbind outcome_bind].
    pose proof (u8_range b) as Hu.
    rewrite size_t_small by (unfold SIZE_MAX; lia).
    destruct (Z.leb_spec (Z.of_nat (p + 2) + 1 + u8 b) (Z.of_nat (length searchBuffer)))
      as [Hfit | Hover].
    + pose proof (nameLoop_take searchBuffer (p + 2) Hmax' (Z.to_nat (u8 b)) 0
                    EmptyString ltac:(lia)) as Hn.
      change (Z.of_nat 0) with 0 in Hn. rewrite Hn. cbn [mbind outcome_bind].
      change (EmptyString +:+ ?s) with s.
      replace (p + 2 + 1 + 0)%nat with (p + 3)%nat by lia.
      replace (p + 3 + Z.to_nat (u8 b) <=? length searchBuffer)%nat with true
        by (symmetry; apply Nat.leb_le; lia).
      rewrite andb_true_r.
      destruct (Nat.leb_spec 1 (Z.to_nat (u8 b))) as [H1 | H1].
      * assert (Hne : string_of_list_byte
                        (take (Z.to_nat (u8 b)) (drop (p + 3) searchBuffer))
                      <> EmptyString).
        { apply (decode_nonempty searchBuffer p). unfold decode. rewrite Hb.
          replace (1 <=? Z.to_nat (u8 b))%nat with true
            by (symmetry; apply Nat.leb_le; lia).
          replace (p + 3 + Z.to_nat (u8 b) <=? length searchBuffer)%nat with true
            by (symmetry; apply Nat.leb_le; lia).
          reflexivity. }
        apply String.eqb_neq in Hne. rewrite Hne. reflexivity.
      * replace (Z.to_nat (u8 b)) with 0%nat by lia.
        cbn [take]. exact IH.
    + replace (p + 3 + Z.to_nat (u8 b) <=? length searchBuffer)%nat with false
        by (symmetry; apply Nat.leb_gt; lia).
      rewrite andb_false_r. exact IH.
  - destruct (searchBuffer !! (p + 2)%nat) as [b |] eqn:Hb; [| exact IH].
    pose proof (u8_range b) as Hu.
    destruct (Nat.leb_spec 1 (Z.to_nat (u8 b))) as [H1 | H1]; [| exact IH].
    replace (p + 3 + Z.to_nat (u8 b) <=? length searchBuffer)%nat with false
      by (symmetry; apply Nat.leb_gt; lia).
    exact IH.
Qed.

(** Search and loop, on a buffer of any content. *)
Lemma simpleSearch_pattern (searchBuffer : list byte) :
  vsize searchBuffer <= 2 ^ 32 ->
  Search.simpleSearch searchBuffer pattern
  = Done (Z.of_nat <$> occurrences pattern searchBuffer 0).
Proof.
  intros Hmax. rewrite simpleSearch_scan by (unfold SIZE_MAX; lia).
  rewrite findAll_occurrences. reflexivity.
Qed.

Lemma matchesLoop_firstName (searchBuffer : list byte) :
  vsize searchBuffer <= 2 ^ 32 ->
  matchesLoop searchBuffer (Z.of_nat <$> occurrences pattern searchBuffer 0)
  = Done (firstName searchBuffer).
Proof.
  intros Hmax. apply matchesLoop_decode; [exact Hmax |].
  apply occurrences_inside.
Qed.

Lemma window_length (s : istream) (n : Z) :
  0 <= n -> vsize (Stream.window s n) <= n.
Proof.
  intros Hn. unfold Stream.window.
  destruct (position s <? vsize (content s)); unfold vsize; [| simpl; lia].
  rewrite length_take. lia.
Qed.

Lemma window_exact (s : istream) (n : Z) :
  0 <= n -> 0 <= position s -> n <= Stream.available s ->
  vsize (Stream.window s n) = n.
Proof.
  intros Hn Hp Ha. unfold Stream.window, Stream.available, vsize in *.
  destruct (Z.ltb_spec (position s) (Z.of_nat (length (content s)))) as [Hlt | Hge];
    fold (@vsize byte).
  - rewrite length_take, length_drop. lia.
  - simpl. lia.
Qed.

Lemma read_length (s : istream) (n : Z) :
  0 <= n -> vsize (fst (Stream.read s n)) <= n.
Proof.
  intros Hn. unfold Stream.read.
  destruct (Stream.good s); [| unfold vsize; simpl; lia].
  destruct (Z.leb_spec n (Stream.available s)) as [Hle | Hgt]; cbn [fst].
  - apply window_length. exact Hn.
  - pose proof (window_length s (Stream.available s)
                  ltac:(unfold Stream.available; lia)). lia.
Qed.

Lemma searchSize_range (trackSize : Z) :
  0 <= Z.min (size_t trackSize) MAX_SEARCH_SIZE <= 1024.
Proof.
  pose proof (size_t_range trackSize). unfold MAX_SEARCH_SIZE. lia.
Qed.

(** Every call returns: with a name that is not empty, with the bytes of
    the stream as they were, and, for a stream at a position, at that
    position again. *)
Lemma extractTrackName_returns (resize_ok : bool) (stream : istream)
    (trackNumber trackSize : Z) :
  exists (trackName : string) (stream' : istream),
    extractTrackName resize_ok stream trackNumber trackSize
    = Done (trackName, stream')
    /\ trackName <> EmptyString
    /\ content stream' = content stream
    /\ (0 <= position stream -> position stream' = position stream)
    /\ (0 <= position stream -> Stream.good stream = true ->
        Stream.good stream' = true).
Proof.
  pose proof (searchSize_range trackSize) as Hsz.
  unfold extractTrackName.
  destruct resize_ok; cbn [negb].
  2:{ eexists _, _. split; [reflexivity |].
      split; [apply fallback_nonempty |]. auto. }
  unfold Stream.tellg.
  destruct (Stream.good stream) eqn:Hgood.
  2:{ change (-1 =? -1) with true. cbv iota beta.
      eexists _, _. split; [reflexivity |].
      split; [apply fallback_nonempty |].
      split; [reflexivity |]. split; [reflexivity | intros _; discriminate]. }
  destruct (Z.eqb_spec (position stream) (-1)) as [Hm1 | Hm1].
  { eexists _, _. split; [reflexivity |].
    split; [apply fallback_nonempty |]. auto. }
  pose proof (read_length stream _ (proj1 Hsz)) as Hlen.
  unfold Stream.read in *. rewrite Hgood in *.
  destruct (Z.leb_spec (Z.min (size_t trackSize) MAX_SEARCH_SIZE)
              (Stream.available stream)) as [Hle | Hgt]; cbn [fst] in Hlen.
  - unfold Stream.fail. cbn [failbit].
    rewrite simpleSearch_pattern by lia. cbn [mbind outcome_bind].
    rewrite matchesLoop_firstName by lia. cbn [mbind outcome_bind].
    assert (Hname : forall name,
               firstName (Stream.window stream
                            (Z.min (size_t trackSize) MAX_SEARCH_SIZE)) = Some name ->
               name <> EmptyString).
    { intros name Hf. unfold firstName in Hf.
      apply head_Some_elem_of, list_elem_of_omap in Hf as [p [_ Hd]].
      apply (decode_nonempty _ _ _ Hd). }
    destruct (firstName _) as [name |]; eexists _, _;
      (split; [reflexivity |]);
      (split; [first [apply Hname; reflexivity | apply fallback_nonempty] |]);
      unfold Stream.seekg, Stream.clear; cbn [failbit position content];
      (split; [destruct (position stream <? 0); reflexivity |]);
      (split; [| intros _ _; destruct (position stream <? 0); reflexivity]);
      intros Hp;
      replace (position stream <? 0) with false
        by (symmetry; apply Z.ltb_ge; lia);
      reflexivity.
  - unfold Stream.fail. cbn [failbit].
    eexists _, _. split; [reflexivity |].
    split; [apply fallback_nonempty |].
    unfold Stream.seekg, Stream.clear. cbn [failbit position content].
    split; [destruct (position stream <? 0); reflexivity |].
    split.
    + intros Hp.
      replace (position stream <? 0) with false
        by (symmetry; apply Z.ltb_ge; lia).
      reflexivity.
    + intros Hp _.
      replace (position stream <? 0) with false
        by (symmetry; apply Z.ltb_ge; lia).
      reflexivity.
Qed.

(** A call on a good stream that holds the whole search window: the name is
    the first one the window yields, or the fall-back name; the stream is
    back where it was. *)
Lemma extractTrackName_window (stream : istream) (trackNumber trackSize : Z) :
  Stream.good stream = true ->
  0 <= position stream ->
  Z.min (size_t trackSize) MAX_SEARCH_SIZE <= Stream.available stream ->
  extractTrackName true stream trackNumber trackSize
  = Done (default (fallback trackNumber)
            (firstName (Stream.window stream
                          (Z.min (size_t trackSize) MAX_SEARCH_SIZE))),
          mkIstream (content stream) (position stream) false false).
Proof.
  intros Hgood Hpos Hfit.
  pose proof (searchSize_range trackSize) as Hsz.
  unfold extractTrackName. cbn [negb].
  unfold Stream.tellg. rewrite Hgood.
  replace (position stream =? -1) with false
    by (symmetry; apply Z.eqb_neq; lia).
  unfold Stream.read. rewrite Hgood.
  replace (Z.min (size_t trackSize) MAX_SEARCH_SIZE <=? Stream.available stream)
    with true by (symmetry; apply Z.leb_le; exact Hfit).
  unfold Stream.fail. cbn [failbit].
  pose proof (window_length stream _ (proj1 Hsz)) as Hlen.
  rewrite simpleSearch_pattern by lia. cbn [mbind outcome_bind].
  rewrite matchesLoop_firstName by lia. cbn [mbind outcome_bind].
  unfold Stream.seekg, Stream.clear. cbn [failbit position content].
  replace (position stream <? 0) with false by (symmetry; apply Z.ltb_ge; lia).
  cbn [failbit position content].
  destruct (firstName _); reflexivity.
Qed.

(** A call that finds fewer bytes than the search window: the fall-back
    name, and the stream back where it was. *)
Lemma extractTrackName_short (resize_ok : bool) (stream : istream)
    (trackNumber trackSize : Z) :
  Stream.good stream = true ->
  0 <= position stream ->
  Stream.available stream < Z.min (size_t trackSize) MAX_SEARCH_SIZE ->
  extractTrackName resize_ok stream trackNumber trackSize
  = Done (fallback trackNumber,
          if resize_ok
          then mkIstream (content stream) (position stream) false false
          else stream).
Proof.
  intros Hgood Hpos Hshort.
  unfold extractTrackName. destruct resize_ok; cbn [negb]; [| reflexivity].
  unfold Stream.tellg. rewrite Hgood.
  replace (position stream =? -1) with false
    by (symmetry; apply Z.eqb_neq; lia).
  unfold Stream.read. rewrite Hgood.
  replace (Z.min (size_t trackSize) MAX_SEARCH_SIZE <=? Stream.available stream)
    with false by (symmetry; apply Z.leb_gt; exact Hshort).
  unfold Stream.fail, Stream.seekg, Stream.clear. cbn [failbit position content].
  replace (position stream <? 0) with false by (symmetry; apply Z.ltb_ge; lia).
  reflexivity.
Qed.


Lemma firstName_after (window : list byte) :
  forall (pre rest : list byte) (p : nat),
    (forall q, (p <= q < p + length pre)%nat ->
               occurs_at pattern (drop (q - p) (pre ++ rest)) = true ->
               decode window q = None) ->
    head (omap (decode window) (occurrences pattern (pre ++ rest) p))
    = head (omap (decode window) (occurrences pattern rest (p + length pre))).
Proof.
  induction pre as [| h pre IH]; intros rest p Hskip.
  - cbn [app length]. rewrite Nat.add_0_r. reflexivity.
  - change ((h :: pre) ++ rest) with (h :: (pre ++ rest)).
    cbn [occurrences].
    assert (Hrest : head (omap (decode window)
                            (occurrences pattern (pre ++ rest) (S p)))
                    = head (omap (decode window)
                              (occurrences pattern rest (p + length (h :: pre))))).
    { rewrite IH; [cbn [length]; do 3 f_equal; lia |].
      intros q Hq Hocc. apply Hskip; [cbn [length]; lia |].
      replace (q - p)%nat with (S (q - S p)) by lia. exact Hocc. }
    destruct (occurs_at pattern (h :: pre ++ rest)) eqn:Hocc; [| exact Hrest].
    rewrite head_omap_cons.
    rewrite (Hskip p); [exact Hrest | cbn [length]; lia |].
    rewrite Nat.sub_diag, drop_0. exact Hocc.
Qed.

(** A window in which a name event is the first match that yields a name:
    every marker before it is followed by a length of zero or by a length
    that leads out of the window. *)
Lemma firstName_event (pre post nameBytes : list byte) (lengthByte : byte) :
  let window := pre ++ [xff; x03; lengthByte] ++ nameBytes ++ post in
  Z.to_nat (u8 lengthByte) = length nameBytes ->
  (1 <= length nameBytes)%nat ->
  (forall q, (q < length pre)%nat ->
             occurs_at pattern (drop q window) = true ->
             decode window q = None) ->
  firstName window = Some (string_of_list_byte nameBytes).
Proof.
  intros window HL Hne Hskip. unfold firstName.
  unfold window at 2.
  rewrite (firstName_after window pre _ 0).
  2:{ intros q Hq Hocc. apply Hskip; [lia |].
      rewrite Nat.sub_0_r in Hocc. exact Hocc. }
  cbn [app occurrences]. unfold pattern at 1. cbn [occurs_at].
  change (Byte.eqb xff xff) with true. change (Byte.eqb x03 x03) with true.
  cbn [andb]. rewrite head_omap_cons.
  assert (Hd : decode window (0 + length pre)
               = Some (string_of_list_byte nameBytes)).
  { unfold decode, window. cbn [Nat.add].
    rewrite lookup_app_r by lia.
    replace (length pre + 2 - length pre)%nat with 2%nat by lia.
    cbn [app lookup list_lookup]. rewrite HL.
    replace (1 <=? length nameBytes)%nat with true
      by (symmetry; apply Nat.leb_le; lia).
    replace (length pre + 3 + length nameBytes
             <=? length (pre ++ xff :: x03 :: lengthByte :: nameBytes ++ post))%nat
      with true.
    2:{ symmetry. apply Nat.leb_le. rewrite length_app. cbn [length].
        rewrite length_app. lia. }
    cbn [andb]. rewrite drop_app_add. cbn [drop].
    rewrite drop_0, take_app_length. reflexivity. }
  rewrite Hd. reflexivity.
Qed.

Lemma decode_outside (window : list byte) (q : nat) (lengthByte : byte) :
  window !! (q + 2)%nat = Some lengthByte ->
  (length window < q + 3 + Z.to_nat (u8 lengthByte))%nat ->
  decode window q = None.
Proof.
  intros Hb Hout. unfold decode. rewrite Hb.
  replace (q + 3 + Z.to_nat (u8 lengthByte) <=? length window)%nat with false
    by (symmetry; apply Nat.leb_gt; lia).
  rewrite andb_false_r. reflexivity.
Qed.


End NameFacts.

(** ** Streams and the chunk copy *)

Module StreamFacts.

Lemma read_ok (s : istream) (n : Z) :
  Stream.good s = true -> 0 <= n -> 0 <= position s ->
  n <= Stream.available s ->
  Stream.read s n
  = (take (Z.to_nat n) (drop (Z.to_nat (position s)) (content s)),
     mkIstream (content s) (position s + n) false false).
Proof.
  intros Hgood Hn Hp Ha. unfold Stream.read. rewrite Hgood.
  replace (n <=? Stream.available s) with true by (symmetry; apply Z.leb_le; lia).
  f_equal. unfold Stream.window.
  destruct (Z.ltb_spec (position s) (vsize (content s))) as [Hin | Hout];
    [reflexivity |].
  rewrite drop_ge by (unfold vsize in Hout; lia).
  rewrite take_nil. reflexivity.
Qed.

Lemma read_short (s : istream) (n : Z) :
  Stream.good s = true -> Stream.available s < n ->
  Stream.fail (snd (Stream.read s n)) = true.
Proof.
  intros Hgood Hn. unfold Stream.read. rewrite Hgood.
  replace (n <=? Stream.available s) with false by (symmetry; apply Z.leb_gt; lia).
  reflexivity.
Qed.

Lemma window_take (s : istream) (n : Z) :
  0 <= position s ->
  Stream.window s n = take (Z.to_nat n) (drop (Z.to_nat (position s)) (content s)).
Proof.
  intros Hp. unfold Stream.window.
  destruct (Z.ltb_spec (position s) (vsize (content s))) as [Hin | Hout];
    [reflexivity |].
  rewrite drop_ge by (unfold vsize in Hout; lia).
  rewrite take_nil. reflexivity.
Qed.

Lemma vsize_take_drop (v : list byte) (n p : Z) :
  0 <= n -> 0 <= p -> n <= Z.max 0 (vsize v - p) ->
  vsize (take (Z.to_nat n) (drop (Z.to_nat p) v)) = n.
Proof.
  intros Hn Hp Ha. unfold vsize in *. rewrite length_take, length_drop. lia.
Qed.

End StreamFacts.

Module WriterFacts.

Import Writer StreamFacts.

(** With all [size] bytes in the stream, the loop appends exactly them to
    the output and leaves the stream right after them. [fuel] is enough
    when one iteration per buffer and one more are granted. *)
Lemma copyLoop_exact :
  forall (fuel : nat) (in_ : istream) (out : list byte) (size : Z),
    Stream.good in_ = true ->
    0 <= position in_ ->
    0 <= size <= Stream.available in_ ->
    size <= SIZE_MAX ->
    size <= BUFFER_SIZE * (Z.of_nat fuel - 1) ->
    copyLoop fuel in_ out size
    = Done (mkIstream (content in_) (position in_ + size) false false,
            out ++ take (Z.to_nat size) (drop (Z.to_nat (position in_)) (content in_))).
Proof.
  unfold BUFFER_SIZE.
  induction fuel as [| fuel IH]; intros in_ out size Hgood Hpos Hsize Hmax Hfuel;
    [lia |].
  cbn [copyLoop].
  destruct (Z.gtb_spec size 0) as [Hgt | Hle].
  - assert (Hread : 0 <= Z.min size BUFFER_SIZE <= Stream.available in_)
      by (unfold BUFFER_SIZE; lia).
    rewrite read_ok by (try exact Hgood; lia).
    set (n := Z.min size BUFFER_SIZE) in *.
    rewrite vsize_take_drop by (unfold Stream.available in Hread; lia).
    replace (n =? 0) with false
      by (symmetry; apply Z.eqb_neq; unfold n, BUFFER_SIZE; lia).
    unfold Stream.eof. cbn [eofbit].
    assert (Hn : 0 < n <= size) by (unfold n, BUFFER_SIZE; lia).
    rewrite size_t_small by lia.
    rewrite IH;
      [| reflexivity | cbn [position]; lia
       | unfold Stream.available in *; cbn [position content]; lia
       | lia | unfold n, BUFFER_SIZE; lia].
    cbn [position content]. f_equal. f_equal; [f_equal; lia |].
    rewrite <- app_assoc. f_equal.
    replace (Z.to_nat (position in_ + n))
      with (Z.to_nat (position in_) + Z.to_nat n)%nat by lia.
    rewrite <- drop_drop, take_take_drop. f_equal. lia.
  - assert (size = 0) as -> by lia.
    change (Z.to_nat 0) with 0%nat. rewrite take_0, app_nil_r, Z.add_0_r.
    destruct in_ as [c p e f]. unfold Stream.good in Hgood. cbn in Hgood.
    destruct e, f; try discriminate. reflexivity.
Qed.

Lemma copyStream_exact (in_ : istream) (out : list byte) (size : Z) :
  Stream.good in_ = true ->
  0 <= position in_ ->
  0 <= size <= Stream.available in_ ->
  size <= SIZE_MAX ->
  copyStream in_ out size
  = Done (mkIstream (content in_) (position in_ + size) false false,
          out ++ take (Z.to_nat size) (drop (Z.to_nat (position in_)) (content in_))).
Proof.
  intros Hgood Hpos Hsize Hmax. unfold copyStream.
  apply copyLoop_exact; try assumption.
  unfold BUFFER_SIZE.
  pose proof (Z.div_mod size 4096 ltac:(lia)).
  pose proof (Z.mod_pos_bound size 4096 ltac:(lia)).
  assert (0 <= size / 4096) by (apply Z.div_pos; lia).
  lia.
Qed.

(** The copy returns on every stream and for every size: the number of
    iterations granted by [copyStream] is never used up. *)
Lemma copyLoop_returns :
  forall (fuel : nat) (in_ : istream) (out : list byte) (size : Z),
    0 <= position in_ ->
    0 <= size <= SIZE_MAX ->
    size <= BUFFER_SIZE * (Z.of_nat fuel - 1) ->
    exists r, copyLoop fuel in_ out size = Done r.
Proof.
  unfold BUFFER_SIZE.
  induction fuel as [| fuel IH]; intros in_ out size Hpos Hmax Hfuel.
  - exfalso. lia.
  - cbn [copyLoop].
    destruct (Z.gtb_spec size 0) as [Hgt | Hle]; [| eexists; reflexivity].
    unfold Stream.read.
    destruct (Stream.good in_) eqn:Hgood;
      [| change (vsize [] =? 0) with true; cbv iota; eexists; reflexivity].
    destruct (Z.leb_spec (Z.min size BUFFER_SIZE) (Stream.available in_))
      as [Hfull | Hpart].
    + rewrite window_take by exact Hpos.
      rewrite vsize_take_drop
        by (unfold Stream.available, BUFFER_SIZE in *; lia).
      destruct (Z.min size BUFFER_SIZE =? 0); [eexists; reflexivity |].
      unfold Stream.eof. cbn [eofbit].
      rewrite size_t_small by (unfold BUFFER_SIZE; lia).
      apply IH; [cbn [position]; unfold BUFFER_SIZE; lia | unfold BUFFER_SIZE; lia
                | unfold BUFFER_SIZE; lia].
    + destruct (vsize (Stream.window in_ (Stream.available in_)) =? 0);
        eexists; reflexivity.
Qed.

Lemma copyStream_returns (in_ : istream) (out : list byte) (size : Z) :
  0 <= position in_ -> 0 <= size <= SIZE_MAX ->
  exists r, copyStream in_ out size = Done r.
Proof.
  intros Hpos Hsize. unfold copyStream.
  apply copyLoop_returns; [exact Hpos | lia |].
  unfold BUFFER_SIZE.
  pose proof (Z.div_mod size 4096 ltac:(lia)).
  pose proof (Z.mod_pos_bound size 4096 ltac:(lia)).
  assert (0 <= size / 4096) by (apply Z.div_pos; lia).
  lia.
Qed.


End WriterFacts.

(** ** The driver *)

Module SplitFacts.

Import Path Split StreamFacts.

(** The loop at lines 333-335 does not change what it tests: entered once,
    it is never left. *)
Lemma existsLoop_spins (fs : filesystem) (outputPath baseName safeTrackName : string)
    (counter : Z) :
  exists_ fs outputPath = true ->
  forall (fuel : nat) (outputFile : string),
    existsLoop fuel fs outputPath baseName safeTrackName counter outputFile
    = OutOfFuel.
Proof.
  intros Hex. induction fuel as [| fuel IH]; intros outputFile; [reflexivity |].
  cbn [existsLoop]. rewrite Hex. apply IH.
Qed.

Lemma existsLoop_fresh (fs : filesystem) (outputPath baseName safeTrackName : string)
    (counter : Z) (fuel : nat) (outputFile : string) :
  exists_ fs outputPath = false ->
  existsLoop (S fuel) fs outputPath baseName safeTrackName counter outputFile
  = Done outputFile.
Proof. intros Hex. cbn [existsLoop]. rewrite Hex. reflexivity. Qed.

(** A track whose first candidate path exists is never written. *)
Lemma writeTrack_collision (fuel : nat) (env : environment)
    (baseName outputDir : string) (header : list byte)
    (track : Track.TrackInfo) (file : istream) (fs : filesystem) :
  exists_ fs (join outputDir
                (baseName +:+ " - " +:+ Writer.getSafeFilename (Track.name track)
                 +:+ ".mid")) = true ->
  writeTrack fuel env baseName outputDir header track file fs = (OutOfFuel, fs).
Proof.
  intros Hex. unfold writeTrack.
  rewrite (existsLoop_spins _ _ _ _ _ Hex). reflexivity.
Qed.

(** A track whose first candidate path is free. *)
Lemma writeTrack_fresh (fuel : nat) (env : environment)
    (baseName outputDir : string) (header : list byte)
    (track : Track.TrackInfo) (file : istream) (fs : filesystem) :
  let outputPath :=
    join outputDir
      (baseName +:+ " - " +:+ Writer.getSafeFilename (Track.name track) +:+ ".mid") in
  exists_ fs outputPath = false ->
  can_create env (c_str outputPath) = true ->
  writeTrack (S fuel) env baseName outputDir header track file fs
  = let fs' := <[c_str outputPath := header]> (<[c_str outputPath := []]> fs) in
    let file' := Stream.seekg (Stream.clear file) (Track.position track) in
    if Stream.fail file' then
      (Raised ("Error seeking to track " +:+ pretty (Track.number track)), fs')
    else
      match Writer.copyStream file' header
              (size_t (uint32_t (8 + Track.size track))) with
      | Done (file'', out) => (Done file'', <[c_str outputPath := out]> fs')
      | stopped => (abort stopped, fs')
      end.
Proof.
  intros outputPath Hex Hcreate. unfold writeTrack.
  fold outputPath. rewrite (existsLoop_fresh _ _ _ _ _ _ _ Hex).
  fold outputPath. rewrite Hcreate. reflexivity.
Qed.

(** A track whose first candidate path is free and whose chunk is all in
    the file: the file written is the output header followed by the
    [8 + size] bytes at the recorded position, and nothing else changes. *)
Lemma writeTrack_lossless (fuel : nat) (env : environment)
    (baseName outputDir : string) (header : list byte)
    (track : Track.TrackInfo) (file : istream) (fs : filesystem) :
  let outputPath :=
    join outputDir
      (baseName +:+ " - " +:+ Writer.getSafeFilename (Track.name track) +:+ ".mid") in
  exists_ fs outputPath = false ->
  can_create env (c_str outputPath) = true ->
  0 <= Track.position track ->
  0 <= Track.size track ->
  8 + Track.size track < 2 ^ 32 ->
  Track.position track + (8 + Track.size track) <= vsize (content file) ->
  writeTrack (S fuel) env baseName outputDir header track file fs
  = (Done (mkIstream (content file)
             (Track.position track + (8 + Track.size track)) false false),
     <[c_str outputPath :=
         header ++ take (Z.to_nat (8 + Track.size track))
                     (drop (Z.to_nat (Track.position track)) (content file))]> fs).
Proof.
  intros outputPath Hex Hcreate Hpos Hsize Hwrap Hin.
  rewrite writeTrack_fresh by assumption. fold outputPath. cbv zeta.
  unfold Stream.seekg, Stream.clear, Stream.fail. cbn [failbit position content].
  replace (Track.position track <? 0) with false
    by (symmetry; apply Z.ltb_ge; lia).
  cbn [failbit].
  rewrite uint32_t_small by lia.
  rewrite size_t_small by (unfold SIZE_MAX; lia).
  rewrite WriterFacts.copyStream_exact;
    [| reflexivity | cbn [position]; lia
     | unfold Stream.available; cbn [position content]; lia
     | unfold SIZE_MAX; lia].
  cbn [position content]. rewrite !insert_insert_eq. reflexivity.
Qed.

Lemma splitMIDIFile_read (fuel : nat) (env : environment)
    (inputFile outputDir : string) (fs : filesystem) (bytes division : list byte)
    (tracks : list Track.TrackInfo) (file : istream) :
  fs !! c_str inputFile = Some bytes ->
  readFile env (mkIstream bytes 0 false false) = Done (division, tracks, file) ->
  splitMIDIFile fuel env inputFile outputDir fs
  = writeLoop fuel env (stem inputFile) outputDir (outputHeader division)
      tracks file 0 fs.
Proof. intros Hfs Hread. unfold splitMIDIFile. rewrite Hfs, Hread. reflexivity. Qed.

(** A header whose format field is not 1 stops [readFile]. *)
Lemma readFile_format (env : environment) (bytes : list byte) (format : Z) :
  vsize bytes <= SIZE_MAX ->
  Codec.bytesToUInt16 bytes 8 = Done format ->
  format <> 1 ->
  exists what : string,
    readFile env (mkIstream bytes 0 false false) = Raised what /\
    (14 <= vsize bytes ->
     string_of_list_byte (take 4 bytes) = "MThd" ->
     Codec.bytesToUInt32 bytes 4 = Done 6 ->
     what = "Not a Format 1 MIDI file").
Proof.
  intros Hmax Hformat Hne. unfold readFile.
  destruct (Z.lt_ge_cases (vsize bytes) 14) as [Hshort | Hlen].
  { pose proof (read_short (mkIstream bytes 0 false false) 14 eq_refl
                  ltac:(unfold Stream.available; cbn [position content]; lia))
      as Hfail.
    destruct (Stream.read (mkIstream bytes 0 false false) 14) as [headerData file].
    cbn [snd] in Hfail. rewrite Hfail. cbn [orb].
    eexists. split; [reflexivity |]. intros H. lia. }
  rewrite read_ok;
    [| reflexivity | lia | cbn [position]; lia
     | unfold Stream.available; cbn [position content]; lia].
  cbn [position content]. change (Z.to_nat 0) with 0%nat. rewrite drop_0.
  change (Z.to_nat 14) with 14%nat.
  unfold Stream.fail. cbn [failbit orb].
  replace (vsize (take 14 bytes) =? 14) with true.
  2:{ symmetry. apply Z.eqb_eq. unfold vsize in *. rewrite length_take. lia. }
  cbn [negb]. rewrite take_take. change (4 `min` 14)%nat with 4%nat.
  rewrite CodecFacts.bytesToUInt32_take, !CodecFacts.bytesToUInt16_take
    by (unfold vsize in *; lia).
  destruct (String.eqb_spec (string_of_list_byte (take 4 bytes)) "MThd")
    as [Hmagic | Hmagic]; cbn [negb].
  2:{ eexists. split; [reflexivity |]. intros _ H. contradiction. }
  destruct (CodecFacts.bytesToUInt32_defined bytes 4
              ltac:(lia) ltac:(unfold SIZE_MAX; lia)) as [v [Hv _]].
  rewrite Hv. cbn [mbind outcome_bind].
  destruct (Z.eqb_spec v 6) as [H6 | H6]; cbn [negb].
  2:{ eexists. split; [reflexivity |]. intros _ _ [= H]. contradiction. }
  rewrite Hformat. cbn [mbind outcome_bind].
  replace (format =? 1) with false by (symmetry; apply Z.eqb_neq; exact Hne).
  cbn [negb]. eexists. split; reflexivity.
Qed.

End SplitFacts.

(** ** Well-formed files *)

Module LayoutFacts.

Import Path Split Codec CodecFacts StreamFacts Layout.

Lemma u8_byte_of_Z (x : Z) : 0 <= x < 256 -> u8 (byte_of_Z x) = x.
Proof.
  intros Hx. unfold u8, byte_of_Z, uint8_t.
  rewrite Z.mod_small by lia.
  destruct (Byte.of_N (Z.to_N x)) as [b |] eqn:E.
  - apply Byte.to_of_N in E. rewrite E. lia.
  - apply Byte.of_N_None_iff in E. lia.
Qed.

Lemma land_255 (x : Z) : Z.land x 255 = x mod 256.
Proof. change 255 with (Z.ones 8). rewrite Z.land_ones by lia. reflexivity. Qed.

Lemma be_value_uint32ToBytes (v : Z) :
  0 <= v < 2 ^ 32 -> be_value (uint32ToBytes v) = v.
Proof.
  intros Hv. unfold uint32ToBytes. rewrite be_value_4.
  rewrite !land_255, !Z.shiftr_div_pow2 by lia.
  rewrite !u8_byte_of_Z by (apply Z.mod_pos_bound; lia).
  change (2 ^ 24) with 16777216. change (2 ^ 16) with 65536. change (2 ^ 8) with 256.
  Z.div_mod_to_equations. lia.
Qed.

Lemma be_value_uint16ToBytes (v : Z) :
  0 <= v < 2 ^ 16 -> be_value (uint16ToBytes v) = v.
Proof.
  intros Hv. unfold uint16ToBytes. rewrite be_value_2.
  rewrite !land_255, !Z.shiftr_div_pow2 by lia.
  rewrite !u8_byte_of_Z by (apply Z.mod_pos_bound; lia).
  change (2 ^ 8) with 256.
  Z.div_mod_to_equations. lia.
Qed.


Lemma chunk_tag (payload : list byte) :
  chunk payload = (list_byte_of_string "MTrk" ++ uint32ToBytes (vsize payload)) ++ payload.
Proof. unfold chunk. rewrite <- app_assoc. reflexivity. Qed.

Lemma trackHeader_size (v : Z) :
  0 <= v < 2 ^ 32 ->
  bytesToUInt32 (list_byte_of_string "MTrk" ++ uint32ToBytes v) 4 = Done v.
Proof.
  intros Hv.
  pose proof (bytesToUInt32_value (list_byte_of_string "MTrk") []
                (byte_of_Z (Z.land (Z.shiftr v 24) 255))
                (byte_of_Z (Z.land (Z.shiftr v 16) 255))
                (byte_of_Z (Z.land (Z.shiftr v 8) 255))
                (byte_of_Z (Z.land v 255))
                ltac:(vm_compute; discriminate)) as H.
  change (be_value _) with (be_value (uint32ToBytes v)) in H.
  rewrite be_value_uint32ToBytes in H by exact Hv. exact H.
Qed.

Lemma vsize_chunk (payload : list byte) : vsize (chunk payload) = 8 + vsize payload.
Proof.
  unfold chunk. rewrite !vsize_app.
  change (vsize (list_byte_of_string "MTrk")) with 4.
  change (vsize (uint32ToBytes (vsize payload))) with 4. lia.
Qed.

(** The walk over the tracks of a well-formed file records each track with
    its number, name, size and chunk offset, and ends after the last chunk. *)
Lemma tracksLoop_layout (env : environment) :
  forall (payloads : list (list byte)) (i : Z) (pre post : list byte)
         (tracks : list Track.TrackInfo),
    let bytes := pre ++ concat (chunk <$> payloads) ++ post in
    0 <= i ->
    i + vsize payloads < 2 ^ 16 ->
    vsize bytes <= SIZE_MAX ->
    Forall (fun payload => 8 + vsize payload < 2 ^ 32) payloads ->
    tracksLoop env (length payloads) i (mkIstream bytes (vsize pre) false false) tracks
    = Done (tracks ++ tracksFrom env i (vsize pre) payloads,
            mkIstream bytes (vsize pre + vsize (concat (chunk <$> payloads)))
              false false).
Proof.
  induction payloads as [| payload rest IH]; intros i pre post tracks bytes Hi Hn Hmax Hall.
  - cbn [length tracksLoop tracksFrom fmap list_fmap concat]. 
    rewrite app_nil_r. change (vsize []) with 0. rewrite Z.add_0_r. reflexivity.
  - apply Forall_cons in Hall as [Hp Hall].
    pose proof (vsize_nonneg payload) as Hpl.
    pose proof (vsize_nonneg pre) as Hpre.
    assert (Hn' : vsize (payload :: rest) = 1 + vsize rest)
      by (unfold vsize; cbn [length]; lia).
    pose proof (vsize_nonneg rest) as Hrest.
    cbn [length tracksLoop].
    unfold Stream.tellg. change (Stream.good (mkIstream bytes (vsize pre) false false)) with true.
    cbv iota beta.
    assert (Hbytes : bytes = pre ++ (list_byte_of_string "MTrk" ++ uint32ToBytes (vsize payload))
                              ++ payload ++ concat (chunk <$> rest) ++ post).
    { unfold bytes. rewrite fmap_cons. cbn [concat]. rewrite chunk_tag.
      rewrite <- !app_assoc. reflexivity. }
    assert (Hlen : vsize bytes = vsize pre + 8 + vsize payload
                                 + vsize (concat (chunk <$> rest)) + vsize post).
    { rewrite Hbytes. rewrite !vsize_app. 
      change (vsize (list_byte_of_string "MTrk")) with 4.
      change (vsize (uint32ToBytes (vsize payload))) with 4. lia. }
    pose proof (vsize_nonneg (concat (chunk <$> rest))) as Hc.
    pose proof (vsize_nonneg post) as Hpost.
    rewrite read_ok;
      [| reflexivity | lia | cbn [position]; lia
       | unfold Stream.available; cbn [position content]; lia].
    cbn [position content].
    assert (Hhead : take (Z.to_nat 8) (drop (Z.to_nat (vsize pre)) bytes)
                    = list_byte_of_string "MTrk" ++ uint32ToBytes (vsize payload)).
    { rewrite Hbytes. unfold vsize at 1. rewrite Nat2Z.id, drop_app_length.
      rewrite take_app_length'; reflexivity. }
    rewrite Hhead.
    unfold Stream.fail. cbn [failbit orb].
    change (vsize (list_byte_of_string "MTrk" ++ uint32ToBytes (vsize payload)) =? 8)
      with true.
    cbn [negb].
    change (string_of_list_byte
              (take 4 (list_byte_of_string "MTrk" ++ uint32ToBytes (vsize payload))))
      with "MTrk"%string.
    rewrite String.eqb_refl. cbn [negb].
    rewrite trackHeader_size by lia. cbn [mbind outcome_bind].
    rewrite (uint16_t_small (i + 1)) by lia.
    set (file := mkIstream bytes (vsize pre + 8) false false).
    assert (Hname : Name.extractTrackName (resize_ok env (i + 1)) file (i + 1) (vsize payload)
                    = Done (if resize_ok env (i + 1) then
                              default (Name.fallback (i + 1))
                                (Name.firstName
                                   (take (Z.to_nat (Z.min (vsize payload)
                                                      Name.MAX_SEARCH_SIZE)) payload))
                            else Name.fallback (i + 1), file)).
    { destruct (resize_ok env (i + 1)); [| reflexivity].
      rewrite NameFacts.extractTrackName_window;
        [| reflexivity | cbn [file position]; lia
         | unfold Stream.available; cbn [file position content];
           rewrite size_t_small by (unfold SIZE_MAX; lia); lia].
      rewrite size_t_small by (unfold SIZE_MAX; lia).
      rewrite window_take by (cbn [file position]; lia).
      cbn [file position content].
      replace (drop (Z.to_nat (vsize pre + 8)) bytes)
        with (payload ++ concat (chunk <$> rest) ++ post).
      2:{ rewrite Hbytes, (app_assoc pre). rewrite drop_app_length'; [reflexivity |].
          rewrite length_app.
          change (length (list_byte_of_string "MTrk" ++ uint32ToBytes (vsize payload)))
            with 8%nat.
          unfold vsize. lia. }
      rewrite take_app_le by (unfold vsize, Name.MAX_SEARCH_SIZE; lia).
      reflexivity. }
    rewrite Hname. cbn [mbind outcome_bind fst snd].
    assert (Hhandler : (if names_ok env (i + 1) then
                          if resize_ok env (i + 1) then
                            default (Name.fallback (i + 1))
                              (Name.firstName
                                 (take (Z.to_nat (Z.min (vsize payload)
                                                    Name.MAX_SEARCH_SIZE)) payload))
                          else Name.fallback (i + 1)
                        else if i =? 0 then "Tempo Track"%string
                        else ("Track " +:+ pretty (i + 1))%string)
                       = trackName env (i + 1) payload).
    { unfold trackName, Name.fallback.
      replace (i + 1 =? 1) with (i =? 0); [reflexivity |].
      destruct (Z.eqb_spec i 0) as [-> | Hne]; [reflexivity |].
      symmetry. apply Z.eqb_neq. lia. }
    rewrite Hhandler.
    unfold Stream.seekg_cur. cbn [file failbit position content].
    replace (vsize pre + 8 + vsize payload <? 0) with false
      by (symmetry; apply Z.ltb_ge; lia).
    cbn [failbit].
    specialize (IH (i + 1) (pre ++ chunk payload) post
                  (tracks ++ [Track.mk (i + 1) (trackName env (i + 1) payload)
                                (vsize payload) (vsize pre)])).
    assert (Hsame : (pre ++ chunk payload) ++ concat (chunk <$> rest) ++ post = bytes).
    { unfold bytes. rewrite fmap_cons. cbn [concat]. rewrite <- !app_assoc. reflexivity. }
    cbv zeta in IH. rewrite Hsame in IH.
    rewrite vsize_app, vsize_chunk in IH.
    replace (vsize pre + (8 + vsize payload)) with (vsize pre + 8 + vsize payload) in IH by lia.
    rewrite IH; [| lia | lia | exact Hmax | exact Hall].
    cbn [tracksFrom]. rewrite <- app_assoc. cbn [app].
    rewrite fmap_cons. cbn [concat]. rewrite vsize_app, vsize_chunk.
    replace (vsize pre =? -1) with false by (symmetry; apply Z.eqb_neq; lia).
    do 3 f_equal. lia.
Qed.

Lemma header_size (n : Z) (d0 d1 : byte) :
  bytesToUInt32 (header n d0 d1) 4 = Done 6.
Proof. vm_compute. reflexivity. Qed.

Lemma header_format (n : Z) (d0 d1 : byte) :
  bytesToUInt16 (header n d0 d1) 8 = Done 1.
Proof. vm_compute. reflexivity. Qed.

Lemma header_tracks (n : Z) (d0 d1 : byte) :
  0 <= n < 2 ^ 16 -> bytesToUInt16 (header n d0 d1) 10 = Done n.
Proof.
  intros Hn.
  pose proof (bytesToUInt16_value
                (list_byte_of_string "MThd" ++ uint32ToBytes 6 ++ uint16ToBytes 1)
                [d0; d1]
                (byte_of_Z (Z.land (Z.shiftr n 8) 255))
                (byte_of_Z (Z.land n 255))
                ltac:(vm_compute; discriminate)) as H.
  change (be_value _) with (be_value (uint16ToBytes n)) in H.
  rewrite be_value_uint16ToBytes in H by exact Hn. exact H.
Qed.

Lemma vsize_header (n : Z) (d0 d1 : byte) : vsize (header n d0 d1) = 14.
Proof. reflexivity. Qed.

Lemma readFile_layout (env : environment) (d0 d1 : byte) (payloads : list (list byte)) :
  vsize payloads < 2 ^ 16 ->
  vsize (file d0 d1 payloads) <= SIZE_MAX ->
  Forall (fun payload => 8 + vsize payload < 2 ^ 32) payloads ->
  readFile env (mkIstream (file d0 d1 payloads) 0 false false)
  = Done ([d0; d1], tracksFrom env 0 14 payloads,
          mkIstream (file d0 d1 payloads) (vsize (file d0 d1 payloads)) false false).
Proof.
  intros Hn Hmax Hall. pose proof (vsize_nonneg payloads) as Hn0.
  pose proof (vsize_nonneg (concat (chunk <$> payloads))) as Hc.
  assert (Hlen : vsize (file d0 d1 payloads) = 14 + vsize (concat (chunk <$> payloads)))
    by (unfold file; rewrite vsize_app, vsize_header; reflexivity).
  unfold readFile.
  rewrite read_ok;
    [| reflexivity | lia | cbn [position]; lia
     | unfold Stream.available; cbn [position content]; lia].
  cbn [position content]. change (Z.to_nat 0) with 0%nat. rewrite drop_0.
  assert (Hhead : take (Z.to_nat 14) (file d0 d1 payloads)
                  = header (vsize payloads) d0 d1).
  { unfold file. rewrite take_app_length'; reflexivity. }
  rewrite Hhead. unfold Stream.fail. cbn [failbit orb].
  rewrite vsize_header. change (14 =? 14) with true. cbn [negb].
  change (string_of_list_byte (take 4 (header (vsize payloads) d0 d1)))
    with "MThd"%string.
  rewrite String.eqb_refl. cbn [negb].
  rewrite header_size. cbn [mbind outcome_bind]. change (6 =? 6) with true.
  cbn [negb]. rewrite header_format. cbn [mbind outcome_bind].
  change (1 =? 1) with true. cbn [negb].
  rewrite header_tracks by lia. cbn [mbind outcome_bind].
  change (drop 12 (header (vsize payloads) d0 d1)) with [d0; d1].
  unfold vsize at 1. rewrite Nat2Z.id.
  pose proof (tracksLoop_layout env payloads 0 (header (vsize payloads) d0 d1) [] [])
    as Hloop.
  cbv zeta in Hloop. rewrite app_nil_r, vsize_header in Hloop.
  change (0 + 14) with 14.
  fold (file d0 d1 payloads) in Hloop.
  rewrite Hloop; [| lia | lia | exact Hmax | exact Hall].
  cbn [fst snd app]. rewrite Hlen. reflexivity.
Qed.

(** The chunks at the recorded positions are the chunks of the payloads. *)
Lemma tracksFrom_chunks (env : environment) :
  forall (payloads : list (list byte)) (i : Z) (pre post : list byte),
    let bytes := pre ++ concat (chunk <$> payloads) ++ post in
    Forall2 (fun track payload =>
               0 <= Track.position track /\
               Track.size track = vsize payload /\
               Track.position track + (8 + Track.size track) <= vsize bytes /\
               take (Z.to_nat (8 + Track.size track))
                 (drop (Z.to_nat (Track.position track)) bytes) = chunk payload)
      (tracksFrom env i (vsize pre) payloads) payloads.
Proof.
  induction payloads as [| payload rest IH]; intros i pre post bytes; [constructor |].
  cbn [tracksFrom]. constructor.
  - cbn [Track.position Track.size].
    pose proof (vsize_nonneg pre). pose proof (vsize_nonneg payload).
    pose proof (vsize_nonneg (concat (chunk <$> rest) ++ post)).
    assert (Hbytes : bytes = pre ++ chunk payload ++ concat (chunk <$> rest) ++ post).
    { unfold bytes. rewrite fmap_cons. cbn [concat]. rewrite <- !app_assoc. reflexivity. }
    split; [lia |]. split; [reflexivity |]. split.
    + rewrite Hbytes, !vsize_app, vsize_chunk. rewrite vsize_app in *. lia.
    + rewrite Hbytes. unfold vsize at 2. rewrite Nat2Z.id, drop_app_length.
      rewrite take_app_length'; [reflexivity |].
      rewrite <- vsize_chunk. unfold vsize. lia.
  - specialize (IH (i + 1) (pre ++ chunk payload) post). cbv zeta in IH.
    replace ((pre ++ chunk payload) ++ concat (chunk <$> rest) ++ post)
      with bytes in IH
      by (unfold bytes; rewrite fmap_cons; cbn [concat];
          rewrite <- !app_assoc; reflexivity).
    rewrite vsize_app, vsize_chunk in IH.
    replace (vsize pre + (8 + vsize payload)) with (vsize pre + 8 + vsize payload)
      in IH by lia.
    exact IH.
Qed.

Lemma written_other (files : list (string * list byte)) :
  forall (fs : filesystem) (path : string),
    path ∉ files.*1 -> written fs files !! path = fs !! path.
Proof.
  induction files as [| [p b] files IH]; intros fs path Hnot; [reflexivity |].
  cbn [written]. rewrite fmap_cons in Hnot. cbn [fst] in Hnot.
  apply not_elem_of_cons in Hnot as [Hne Hnot].
  rewrite IH by exact Hnot. apply lookup_insert_ne. congruence.
Qed.

Lemma written_lookup (files : list (string * list byte)) :
  forall (fs : filesystem) (k : nat) (path : string) (bytes : list byte),
    NoDup files.*1 ->
    files !! k = Some (path, bytes) ->
    written fs files !! path = Some bytes.
Proof.
  induction files as [| [p b] files IH]; intros fs k path bytes Hnd Hk;
    [discriminate |].
  rewrite fmap_cons in Hnd. cbn [fst] in Hnd. apply NoDup_cons in Hnd as [Hp Hnd].
  cbn [written]. destruct k as [| k].
  - injection Hk as -> ->. rewrite written_other by exact Hp.
    apply lookup_insert_eq.
  - apply (IH _ k); assumption.
Qed.

(** The loop over the tracks writes one file per track when the paths are
    free, differ from one another and can be created. *)
Lemma writeLoop_layout (fuel : nat) (env : environment) (baseName outputDir : string)
    (d0 d1 : byte) (bytes : list byte) :
  forall (tracks : list Track.TrackInfo) (payloads : list (list byte)),
    Forall2 (fun track payload =>
               0 <= Track.position track /\
               Track.size track = vsize payload /\
               Track.position track + (8 + Track.size track) <= vsize bytes /\
               take (Z.to_nat (8 + Track.size track))
                 (drop (Z.to_nat (Track.position track)) bytes) = chunk payload)
      tracks payloads ->
    Forall (fun payload => 8 + vsize payload < 2 ^ 32) payloads ->
    NoDup (pathOf baseName outputDir <$> tracks) ->
    forall (file : istream) (splitCount : Z) (fs : filesystem),
      content file = bytes ->
      (forall track, track ∈ tracks ->
                     fs !! pathOf baseName outputDir track = None /\
                     can_create env (pathOf baseName outputDir track) = true) ->
      writeLoop (S fuel) env baseName outputDir (outputHeader [d0; d1]) tracks
        file splitCount fs
      = (Done (splitCount + vsize tracks),
         written fs (outputs baseName outputDir d0 d1 tracks payloads)).
Proof.
  intros tracks payloads Hlayout.
  induction Hlayout as [| track payload tracks payloads Hone Hrest IH];
    intros Hall Hnd file splitCount fs Hcontent Hfree.
  - cbn [writeLoop outputs zip_with written].
    change (vsize []) with 0. rewrite Z.add_0_r. reflexivity.
  - destruct Hone as (Hpos & Hsize & Hin & Hchunk).
    apply Forall_cons in Hall as [Hp Hall].
    rewrite fmap_cons in Hnd. apply NoDup_cons in Hnd as [Hfirst Hnd].
    destruct (Hfree track ltac:(apply list_elem_of_here)) as [Hnone Hcreate].
    pose proof (vsize_nonneg payload) as Hpl.
    cbn [writeLoop].
    rewrite SplitFacts.writeTrack_lossless;
      [| unfold exists_; fold (pathOf baseName outputDir track); rewrite Hnone;
         apply bool_decide_eq_false; intros [x Hx]; discriminate
       | exact Hcreate | exact Hpos | lia | lia | rewrite Hcontent; exact Hin].
    cbv zeta. rewrite Hcontent, Hchunk.
    fold (pathOf baseName outputDir track).
    rewrite (IH Hall Hnd
               (mkIstream bytes (Track.position track + (8 + Track.size track))
                  false false)
               (splitCount + 1)
               (<[pathOf baseName outputDir track
                  := outputHeader [d0; d1] ++ chunk payload]> fs)
               eq_refl).
    2:{ intros other Hother.
      destruct (Hfree other ltac:(apply list_elem_of_further; exact Hother))
        as [Hnone' Hcreate'].
      split; [| exact Hcreate'].
      rewrite lookup_insert_ne; [exact Hnone' |].
      intros Heq. apply Hfirst. rewrite Heq.
      apply list_elem_of_fmap. exists other. split; [reflexivity | exact Hother]. }
    cbn [outputs zip_with written]. f_equal. f_equal.
    unfold vsize. cbn [length]. lia.
Qed.

Lemma length_tracksFrom (env : environment) (payloads : list (list byte)) :
  forall i start : Z, length (tracksFrom env i start payloads) = length payloads.
Proof.
  induction payloads as [| payload rest IH]; intros i start; [reflexivity |].
  cbn [tracksFrom length]. rewrite IH. reflexivity.
Qed.

Lemma outputs_chunks (baseName outputDir : string) (d0 d1 : byte) :
  forall (tracks : list Track.TrackInfo) (payloads : list (list byte)),
    length tracks = length payloads ->
    concat (drop 14 <$> (outputs baseName outputDir d0 d1 tracks payloads).*2)
    = concat (chunk <$> payloads).
Proof.
  induction tracks as [| track tracks IH]; intros [| payload payloads] Hlen;
    try discriminate; [reflexivity |].
  cbn [outputs zip_with fmap list_fmap snd concat].
  f_equal. apply IH. simpl in Hlen. lia.
Qed.

(** A well-formed Format 1 file whose tracks get paths that differ from one
    another, are free and can be created: the run returns the number of
    tracks; each track's path holds the output header followed by the
    track's chunk; no other path changes; the chunks of the files written,
    in order, are the chunks of the input. *)
Theorem splitMIDIFile_lossless (fuel : nat) (env : environment)
    (inputFile outputDir : string) (fs : filesystem)
    (d0 d1 : byte) (payloads : list (list byte)) :
  let bytes := file d0 d1 payloads in
  let tracks := tracksFrom env 0 14 payloads in
  let files := outputs (stem inputFile) outputDir d0 d1 tracks payloads in
  fs !! c_str inputFile = Some bytes ->
  vsize payloads < 2 ^ 16 ->
  vsize bytes <= SIZE_MAX ->
  Forall (fun payload => 8 + vsize payload < 2 ^ 32) payloads ->
  NoDup (pathOf (stem inputFile) outputDir <$> tracks) ->
  (forall track, track ∈ tracks ->
                 fs !! pathOf (stem inputFile) outputDir track = None /\
                 can_create env (pathOf (stem inputFile) outputDir track) = true) ->
  splitMIDIFile (S fuel) env inputFile outputDir fs
  = (Done (vsize payloads), written fs files)
  /\ (forall (k : nat) (track : Track.TrackInfo) (payload : list byte),
         tracks !! k = Some track -> payloads !! k = Some payload ->
         written fs files !! pathOf (stem inputFile) outputDir track
         = Some (outputHeader [d0; d1] ++ chunk payload))
  /\ (forall path, path ∉ files.*1 -> written fs files !! path = fs !! path)
  /\ concat (drop 14 <$> files.*2) = drop 14 bytes.
Proof.
  intros bytes tracks files Hfs Hn Hmax Hall Hnd Hfree.
  assert (Hkeys : files.*1 = pathOf (stem inputFile) outputDir <$> tracks).
  { unfold files, outputs.
    pose proof (length_tracksFrom env payloads 0 14) as Hlen. fold tracks in Hlen.
    clearbody tracks. clear -Hlen. revert payloads Hlen.
    induction tracks as [| t ts IH]; intros [| p ps] Hlen; try discriminate;
      [reflexivity |].
    cbn [zip_with fmap list_fmap fst]. f_equal. apply IH. simpl in Hlen. lia. }
  split; [| split; [| split]].
  - rewrite (SplitFacts.splitMIDIFile_read _ _ _ _ _ _ _ _ _ Hfs
               (readFile_layout env d0 d1 payloads Hn Hmax Hall)).
    pose proof (tracksFrom_chunks env payloads 0 (header (vsize payloads) d0 d1) [])
      as Hlayout.
    cbv zeta in Hlayout. rewrite app_nil_r, vsize_header in Hlayout.
    fold (file d0 d1 payloads) in Hlayout. fold bytes tracks in Hlayout.
    fold bytes. fold tracks.
    rewrite (writeLoop_layout fuel env (stem inputFile) outputDir d0 d1 bytes
               tracks payloads Hlayout Hall Hnd
               (mkIstream bytes (vsize bytes) false false) 0 fs eq_refl Hfree).
    f_equal. f_equal.
    unfold vsize, tracks. rewrite length_tracksFrom. lia.
  - intros k track payload Ht Hp.
    apply (written_lookup files fs k); [rewrite Hkeys; exact Hnd |].
    unfold files, outputs. rewrite lookup_zip_with, Ht, Hp. reflexivity.
  - intros path Hpath. apply written_other. exact Hpath.
  - unfold files. rewrite outputs_chunks by apply length_tracksFrom.
    unfold bytes, file. rewrite drop_app_length'; reflexivity.
Qed.


Example splitMIDIFile_lossless_run :
  let fs : filesystem :=
    {[ "in/Song.mid" := file x01 xe0 Sample.silentAndBass ]} in
  splitMIDIFile 1 Sample.env "in/Song.mid" "out" fs
  = (Done 2,
     <["out/Song - Bass.mid" := outputHeader [x01; xe0] ++ chunk Sample.bass]>
       (<["out/Song - Track 1.mid" := outputHeader [x01; xe0] ++ chunk Sample.silent]>
          fs)).
Proof.
  intros fs.
  assert (Hfs : fs !! c_str "in/Song.mid" = Some (file x01 xe0 Sample.silentAndBass))
    by (vm_compute; reflexivity).
  assert (Hn : vsize Sample.silentAndBass < 2 ^ 16) by (vm_compute; reflexivity).
  assert (Hmax : vsize (file x01 xe0 Sample.silentAndBass) <= SIZE_MAX)
    by (vm_compute; discriminate).
  assert (Hall : Forall (fun payload => 8 + vsize payload < 2 ^ 32)
                   Sample.silentAndBass)
    by (repeat constructor).
  assert (Hnd : NoDup (pathOf (stem "in/Song.mid") "out"
                         <$> tracksFrom Sample.env 0 14 Sample.silentAndBass))
    by (apply (bool_decide_unpack _); vm_compute; exact I).
  assert (Hfree : forall track,
             track ∈ tracksFrom Sample.env 0 14 Sample.silentAndBass ->
             fs !! pathOf (stem "in/Song.mid") "out" track = None /\
             can_create Sample.env (pathOf (stem "in/Song.mid") "out" track) = true).
  { intros track Hin. split; [| reflexivity].
    vm_compute in Hin.
    apply elem_of_cons in Hin as [-> | Hin]; [vm_compute; reflexivity |].
    apply elem_of_cons in Hin as [-> | Hin]; [vm_compute; reflexivity |].
    apply elem_of_nil in Hin. contradiction. }
  rewrite (proj1 (splitMIDIFile_lossless 0 Sample.env "in/Song.mid" "out"
                    fs x01 xe0 Sample.silentAndBass Hfs Hn Hmax Hall Hnd Hfree)).
  vm_compute. reflexivity.
Qed.

End LayoutFacts.

(** * Specification claims *)

Import Path.

(** C1. One output file per track, each holding the track's chunk byte for
    byte, is what [splitMIDIFile] should produce for every valid Format 1
    file. It does not for a file with two tracks of the same name: the first
    track is written to "out/Song - Bass.mid" (header and chunk, as they
    should be), and for the second track the loop at lines 333-335 finds that
    path taken and is never left, whatever the number of iterations granted.
    No file for the second track comes to exist. *)
Theorem same_name_tracks_never_finish :
  forall fuel : nat,
    Split.splitMIDIFile (S fuel) Sample.env "in/Song.mid" "out"
      (Sample.onlyInput Sample.twoBass)
    = (OutOfFuel,
       <["out/Song - Bass.mid" :=
           Split.outputHeader [x01; xe0] ++ Sample.chunk 12 Sample.bass]>
         (Sample.onlyInput Sample.twoBass)).
Proof.
  intros fuel.
  erewrite SplitFacts.splitMIDIFile_read;
    [| vm_compute; reflexivity | vm_compute; reflexivity].
  cbn [Split.writeLoop].
  rewrite SplitFacts.writeTrack_fresh;
    [| vm_compute; reflexivity | vm_compute; reflexivity].
  cbv zeta.
  set (seek := Stream.fail _). vm_compute in seek. subst seek. cbv iota.
  set (step := Writer.copyStream _ _ _). vm_compute in step. subst step.
  cbv beta iota. cbn [Split.writeLoop].
  rewrite SplitFacts.writeTrack_collision by (vm_compute; reflexivity).
  cbn [Split.abort]. vm_compute. reflexivity.
Qed.

(** C2. A taken path should be answered by " (Copy 1)", " (Copy 2)" and so
    on until a path is free. With "out/Song - Bass.mid" in place and a track
    named "Bass" to write, the run does not return for any number of
    iterations granted to the loop at lines 333-335, and the file system is
    as it was: no "Song - Bass (Copy 1).mid" comes to exist. *)
Theorem taken_path_never_renamed :
  forall fuel : nat,
    let fs : filesystem :=
      <["out/Song - Bass.mid" := []]> (Sample.onlyInput Sample.oneBass) in
    Split.splitMIDIFile fuel Sample.env "in/Song.mid" "out" fs = (OutOfFuel, fs)
    /\ fs !! "out/Song - Bass (Copy 1).mid" = None.
Proof.
  intros fuel fs. split; [| vm_compute; reflexivity].
  erewrite SplitFacts.splitMIDIFile_read;
    [| vm_compute; reflexivity | vm_compute; reflexivity].
  cbn [Split.writeLoop].
  rewrite SplitFacts.writeTrack_collision by (vm_compute; reflexivity).
  reflexivity.
Qed.

(** C3. A first track without a name event should be called "Tempo Track".
    [extractTrackName] answers "Track 1" for it, as it answers "Track n" for
    track n, and that answer is what [splitMIDIFile] uses: the file written
    is "out/Song - Track 1.mid". The name "Tempo Track" (line 273) is given
    by the handler around the call only, that is when the call throws. *)
Theorem first_track_is_named_Track_1 :
  Split.readFile Sample.env (mkIstream Sample.oneSilent 0 false false)
  = Done ([x01; xe0], [Track.mk 1 "Track 1" 4 14],
          mkIstream Sample.oneSilent 26 false false)
  /\ (forall fuel : nat,
         Split.splitMIDIFile (S fuel) Sample.env "in/Song.mid" "out"
           (Sample.onlyInput Sample.oneSilent)
         = (Done 1,
            <["out/Song - Track 1.mid" :=
                Split.outputHeader [x01; xe0] ++ Sample.chunk 4 Sample.silent]>
              (Sample.onlyInput Sample.oneSilent)))
  /\ Split.readFile Sample.envNoNames (mkIstream Sample.oneSilent 0 false false)
     = Done ([x01; xe0], [Track.mk 1 "Tempo Track" 4 14],
             mkIstream Sample.oneSilent 26 false false).
Proof.
  split; [vm_compute; reflexivity |].
  split; [| vm_compute; reflexivity].
  intros fuel.
  erewrite SplitFacts.splitMIDIFile_read;
    [| vm_compute; reflexivity | vm_compute; reflexivity].
  cbn [Split.writeLoop].
  rewrite SplitFacts.writeTrack_fresh;
    [| vm_compute; reflexivity | vm_compute; reflexivity].
  vm_compute. reflexivity.
Qed.

(** C4. On a good stream that holds the whole search window (the first
    min(declared length, 1024) bytes of the track), and with the search
    buffer allocated, [extractTrackName] goes through the places where the
    marker {0xFF, 0x03} occurs, in order, and returns the first name that one
    of them yields ([Name.firstName]); a match whose length byte leads out of
    the window yields none. In particular, when the window holds
    {0xFF, 0x03, 0x04, 'B','a','s','s'} and no marker before it yields a
    name, the name returned is "Bass". *)
Theorem extractTrackName_first_match (stream : istream) (trackNumber trackSize : Z) :
  Stream.good stream = true ->
  0 <= position stream ->
  Z.min (size_t trackSize) Name.MAX_SEARCH_SIZE <= Stream.available stream ->
  let window :=
    Stream.window stream (Z.min (size_t trackSize) Name.MAX_SEARCH_SIZE) in
  let restored := mkIstream (content stream) (position stream) false false in
  (forall name : string,
      Name.firstName window = Some name ->
      Name.extractTrackName true stream trackNumber trackSize
      = Done (name, restored))
  /\ (forall (q : nat) (lengthByte : byte),
         window !! (q + 2)%nat = Some lengthByte ->
         (length window < q + 3 + Z.to_nat (u8 lengthByte))%nat ->
         Name.decode window q = None)
  /\ (forall pre post : list byte,
         window = pre ++ [xff; x03; x04] ++ list_byte_of_string "Bass" ++ post ->
         (forall q : nat,
             (q < length pre)%nat ->
             Search.occurs_at Name.pattern (drop q window) = true ->
             Name.decode window q = None) ->
         Name.extractTrackName true stream trackNumber trackSize
         = Done ("Bass", restored)).
Proof.
  intros Hgood Hpos Hfit window restored.
  pose proof (NameFacts.extractTrackName_window stream trackNumber trackSize
                Hgood Hpos Hfit) as Hw.
  fold window in Hw. fold restored in Hw.
  split; [| split].
  - intros name Hname. rewrite Hw, Hname. reflexivity.
  - intros q lengthByte Hb Hout. exact (NameFacts.decode_outside _ _ _ Hb Hout).
  - intros pre post Hwin Hskip. rewrite Hw.
    assert (Hf : Name.firstName window = Some "Bass").
    { rewrite Hwin.
      apply (NameFacts.firstName_event pre post (list_byte_of_string "Bass") x04);
        [reflexivity | simpl; lia |].
      rewrite <- Hwin. exact Hskip. }
    rewrite Hf. reflexivity.
Qed.

Lemma extractTrackName_first_match_witness :
  Stream.good Sample.atBass = true
  /\ 0 <= position Sample.atBass
  /\ Z.min (size_t 12) Name.MAX_SEARCH_SIZE <= Stream.available Sample.atBass
  /\ Name.extractTrackName true Sample.atBass 1 12 = Done ("Bass", Sample.atBass).
Proof.
  assert (Hgood : Stream.good Sample.atBass = true) by reflexivity.
  assert (Hpos : 0 <= position Sample.atBass) by (vm_compute; discriminate).
  assert (Hfit : Z.min (size_t 12) Name.MAX_SEARCH_SIZE
                 <= Stream.available Sample.atBass)
    by (vm_compute; discriminate).
  split; [exact Hgood |]. split; [exact Hpos |]. split; [exact Hfit |].
  apply (proj1 (extractTrackName_first_match Sample.atBass 1 12 Hgood Hpos Hfit)).
  vm_compute. reflexivity.
Defined.

(** C6. A file whose format field (the two bytes at offset 8) is not 1 is
    rejected, and the file system is left as it was: no output file has been
    created. When the header is all there with the right magic and length,
    so that the format check is the first to fail, the error is "Not a
    Format 1 MIDI file" (the UnsupportedFormat of the specification). *)
Theorem format_rejected (fuel : nat) (env : environment)
    (inputFile outputDir : string) (fs : filesystem)
    (bytes : list byte) (format : Z) :
  fs !! c_str inputFile = Some bytes ->
  vsize bytes <= SIZE_MAX ->
  Codec.bytesToUInt16 bytes 8 = Done format ->
  format <> 1 ->
  exists what : string,
    Split.splitMIDIFile fuel env inputFile outputDir fs = (Raised what, fs)
    /\ (14 <= vsize bytes ->
        string_of_list_byte (take 4 bytes) = "MThd" ->
        Codec.bytesToUInt32 bytes 4 = Done 6 ->
        what = "Not a Format 1 MIDI file").
Proof.
  intros Hfs Hmax Hformat Hne.
  destruct (SplitFacts.readFile_format env bytes format Hmax Hformat Hne)
    as [what [Hread Hwhat]].
  exists what. split; [| exact Hwhat].
  unfold Split.splitMIDIFile. rewrite Hfs, Hread. reflexivity.
Qed.

Lemma format_rejected_witness :
  Sample.onlyInput Sample.formatZero !! c_str "in/Song.mid" = Some Sample.formatZero
  /\ vsize Sample.formatZero <= SIZE_MAX
  /\ Codec.bytesToUInt16 Sample.formatZero 8 = Done 0
  /\ 0 <> 1
  /\ Split.splitMIDIFile 1 Sample.env "in/Song.mid" "out" (Sample.onlyInput Sample.formatZero)
     = (Raised "Not a Format 1 MIDI file", Sample.onlyInput Sample.formatZero).
Proof.
  assert (H1 : Sample.onlyInput Sample.formatZero !! c_str "in/Song.mid"
               = Some Sample.formatZero) by (vm_compute; reflexivity).
  assert (H2 : vsize Sample.formatZero <= SIZE_MAX) by (vm_compute; discriminate).
  assert (H3 : Codec.bytesToUInt16 Sample.formatZero 8 = Done 0)
    by (vm_compute; reflexivity).
  assert (H4 : 0 <> 1) by discriminate.
  split; [exact H1 |]. split; [exact H2 |]. split; [exact H3 |].
  split; [exact H4 |].
  destruct (format_rejected 1 Sample.env "in/Song.mid" "out"
              (Sample.onlyInput Sample.formatZero) Sample.formatZero 0 H1 H2 H3 H4)
    as [what [Hrun Hwhat]].
  rewrite Hrun, Hwhat;
    [reflexivity | vm_compute; discriminate
     | vm_compute; reflexivity | vm_compute; reflexivity].
Defined.

(** C5. A file in which a track declares more bytes than are left should be
    rejected, with an error that names the track, and with no output file
    afterwards. The seek at line 288 goes beyond the end of the file without
    failing, so the check at line 289 lets the track pass: for a file whose
    only track declares 10 bytes and holds 4, the run succeeds and writes
    "out/Song - Track 1.mid", holding the output header and the 12 bytes of
    the chunk that exist. When another track is declared after the short
    one, the run stops at the next chunk header, and the error names
    track 2, not the short track 1. *)
Theorem truncated_track_is_written :
  (forall fuel : nat,
      Split.splitMIDIFile (S fuel) Sample.env "in/Song.mid" "out"
        (Sample.onlyInput Sample.cutShort)
      = (Done 1,
         <["out/Song - Track 1.mid" :=
             Split.outputHeader [x01; xe0] ++ Sample.chunk 10 Sample.silent]>
           (Sample.onlyInput Sample.cutShort)))
  /\ (forall fuel : nat,
         Split.splitMIDIFile fuel Sample.env "in/Song.mid" "out"
           (Sample.onlyInput Sample.cutShortOfTwo)
         = (Raised "Error reading track header 2",
            Sample.onlyInput Sample.cutShortOfTwo)).
Proof.
  split; intros fuel.
  - erewrite SplitFacts.splitMIDIFile_read;
      [| vm_compute; reflexivity | vm_compute; reflexivity].
    cbn [Split.writeLoop].
    rewrite SplitFacts.writeTrack_fresh;
      [| vm_compute; reflexivity | vm_compute; reflexivity].
    vm_compute. reflexivity.
  - unfold Split.splitMIDIFile.
    replace (Sample.onlyInput Sample.cutShortOfTwo !! c_str "in/Song.mid")
      with (Some Sample.cutShortOfTwo) by (vm_compute; reflexivity).
    replace (Split.readFile Sample.env (mkIstream Sample.cutShortOfTwo 0 false false))
      with (@Raised (list byte * list Track.TrackInfo * istream)
              "Error reading track header 2")
      by (vm_compute; reflexivity).
    reflexivity.
Qed.

(** C7. The decoders should answer 0 whenever fewer than 4 (or 2) bytes are
    left at the offset and never read outside the buffer. The guard adds in
    [size_t]: at the offset [SIZE_MAX] the sum wraps to 3 (or 1), the guard
    lets the call pass, and the first byte is read at index [SIZE_MAX],
    outside the buffer. *)
Theorem codec_guard_wraps :
  Codec.bytesToUInt32 [x00; x00; x01; x02] SIZE_MAX = OutOfBounds
  /\ Codec.bytesToUInt16 [x01; x02] SIZE_MAX = OutOfBounds.
Proof. split; vm_compute; reflexivity. Qed.

(** C8. [simpleSearch] returns no offset when the pattern is empty or longer
    than the text; in every case it returns what the left-to-right scan of
    the specification reports ([Search.findAll]: after a match at [p] the
    scan resumes at [p + len(needle)]). What the scan reports are places
    where the pattern occurs, each at least a pattern length after the one
    before, and a place where the pattern occurs and that is not reported
    lies inside a reported occurrence. *)
Theorem simpleSearch_findAll (text pattern : list byte) :
  vsize text <= SIZE_MAX ->
  (pattern = [] \/ vsize text < vsize pattern ->
   Search.simpleSearch text pattern = Done [])
  /\ Search.simpleSearch text pattern
     = Done (Z.of_nat <$> Search.findAll text pattern)
  /\ (forall q : nat,
         q ∈ Search.findAll text pattern ->
         Search.occurs_at pattern (drop q text) = true)
  /\ SearchFacts.spaced (length pattern) (Search.findAll text pattern)
  /\ (forall q : nat,
         pattern <> [] ->
         Search.occurs_at pattern (drop q text) = true ->
         q ∈ Search.findAll text pattern \/
         exists r : nat,
           r ∈ Search.findAll text pattern /\ (r < q < r + length pattern)%nat).
Proof.
  intros Hmax.
  split; [| split; [| split; [| split]]].
  - intros [-> | Hshort]; [reflexivity |].
    unfold Search.simpleSearch.
    replace (vsize text <? vsize pattern) with true
      by (symmetry; apply Z.ltb_lt; exact Hshort).
    rewrite orb_true_r. reflexivity.
  - apply SearchFacts.simpleSearch_scan. exact Hmax.
  - intros q Hq. unfold Search.findAll in Hq.
    destruct pattern as [| p0 pattern]; [apply elem_of_nil in Hq; contradiction |].
    destruct (length text <? length (p0 :: pattern))%nat;
      [apply elem_of_nil in Hq; contradiction |].
    apply SearchFacts.scan_sound in Hq as [_ Ho].
    rewrite Nat.sub_0_r in Ho. exact Ho.
  - unfold Search.findAll.
    destruct pattern as [| p0 pattern]; [constructor |].
    destruct (length text <? length (p0 :: pattern))%nat; [constructor |].
    apply SearchFacts.scan_spaced. simpl. lia.
  - intros q Hne Hocc. unfold Search.findAll.
    destruct pattern as [| p0 pattern]; [contradiction |].
    destruct (Nat.ltb_spec (length text) (length (p0 :: pattern))) as [Hs | Hl].
    + rewrite SearchFacts.occurs_at_short in Hocc; [discriminate |].
      rewrite length_drop. lia.
    + apply SearchFacts.scan_complete; [simpl; lia | lia |].
      rewrite Nat.sub_0_r. exact Hocc.
Qed.

Lemma simpleSearch_findAll_witness :
  vsize Sample.bass <= SIZE_MAX
  /\ Search.simpleSearch Sample.bass Name.pattern = Done [1].
Proof.
  assert (Hmax : vsize Sample.bass <= SIZE_MAX) by (vm_compute; discriminate).
  split; [exact Hmax |].
  rewrite (proj1 (proj2 (simpleSearch_findAll Sample.bass Name.pattern Hmax))).
  vm_compute. reflexivity.
Defined.

(** C9. A call of [extractTrackName] leaves the read position of the stream
    where it found it, and the bytes of the stream as they were, on every
    path: the buffer not allocated ([resize_ok] false), a stream that is not
    good on entry, a short read, and a complete read with or without a name
    found. A stream that was good on entry is good afterwards. *)
Theorem extractTrackName_restores_position (resize_ok : bool) (stream : istream)
    (trackNumber trackSize : Z) :
  0 <= position stream ->
  exists (trackName : string) (stream' : istream),
    Name.extractTrackName resize_ok stream trackNumber trackSize
    = Done (trackName, stream')
    /\ position stream' = position stream
    /\ content stream' = content stream
    /\ (Stream.good stream = true -> Stream.good stream' = true).
Proof.
  intros Hpos.
  destruct (NameFacts.extractTrackName_returns resize_ok stream trackNumber trackSize)
    as (trackName & stream' & Hcall & _ & Hcontent & Hposition & Hgood).
  exists trackName, stream'. split; [exact Hcall |].
  split; [apply Hposition; exact Hpos |].
  split; [exact Hcontent |].
  apply Hgood. exact Hpos.
Qed.

Lemma extractTrackName_restores_position_witness :
  0 <= position Sample.atCut
  /\ exists (trackName : string) (stream' : istream),
       Name.extractTrackName true Sample.atCut 1 10 = Done (trackName, stream')
       /\ position stream' = position Sample.atCut
       /\ content stream' = content Sample.atCut
       /\ (Stream.good Sample.atCut = true -> Stream.good stream' = true).
Proof.
  assert (Hpos : 0 <= position Sample.atCut) by (vm_compute; discriminate).
  split; [exact Hpos |].
  exact (extractTrackName_restores_position true Sample.atCut 1 10 Hpos).
Defined.

(** C10. Every call of [extractTrackName] returns, and the name it returns
    is not empty: a name read from the buffer is returned only when it is
    not empty, and the fall-back name starts with "Track ". *)
Theorem extractTrackName_nonempty (resize_ok : bool) (stream : istream)
    (trackNumber trackSize : Z) :
  exists (trackName : string) (stream' : istream),
    Name.extractTrackName resize_ok stream trackNumber trackSize
    = Done (trackName, stream')
    /\ trackName <> EmptyString.
Proof.
  destruct (NameFacts.extractTrackName_returns resize_ok stream trackNumber trackSize)
    as (trackName & stream' & Hcall & Hname & _).
  exists trackName, stream'. split; [exact Hcall | exact Hname].
Qed.

(** * Further properties *)

(** ** Byte codec, continued *)

Module CodecRoundTrip.

Import Codec CodecFacts.

Lemma u8_byte_of_Z_mod (x : Z) : u8 (byte_of_Z x) = x mod 256.
Proof.
  unfold u8, byte_of_Z, uint8_t. change (2 ^ 8) with 256.
  pose proof (Z.mod_pos_bound x 256 ltac:(lia)) as Hb.
  destruct (Byte.of_N (Z.to_N (x mod 256))) as [b |] eqn:E.
  - apply Byte.to_of_N in E. rewrite E. lia.
  - apply Byte.of_N_None_iff in E. lia.
Qed.

Lemma byte_of_Z_u8 (b : byte) : byte_of_Z (u8 b) = b.
Proof.
  unfold byte_of_Z, u8, uint8_t. pose proof (Byte.to_N_bounded b) as Hb.
  rewrite Z.mod_small by lia. rewrite N2Z.id, Byte.of_to_N. reflexivity.
Qed.

Lemma low_byte (x : Z) : Z.land x 255 = x mod 256.
Proof. change 255 with (Z.ones 8). rewrite Z.land_ones by lia. reflexivity. Qed.

Lemma be_value_encode32 (v : Z) : be_value (uint32ToBytes v) = uint32_t v.
Proof.
  unfold uint32ToBytes, uint32_t. rewrite be_value_4.
  rewrite !low_byte, !Z.shiftr_div_pow2 by lia.
  rewrite !u8_byte_of_Z_mod, !Z.mod_mod by lia.
  change (2 ^ 24) with 16777216. change (2 ^ 16) with 65536.
  change (2 ^ 8) with 256. change (2 ^ 32) with 4294967296.
  Z.div_mod_to_equations. lia.
Qed.

Lemma be_value_encode16 (v : Z) : be_value (uint16ToBytes v) = uint16_t v.
Proof.
  unfold uint16ToBytes, uint16_t. rewrite be_value_2.
  rewrite !low_byte, !Z.shiftr_div_pow2 by lia.
  rewrite !u8_byte_of_Z_mod, !Z.mod_mod by lia.
  change (2 ^ 8) with 256. change (2 ^ 16) with 65536.
  Z.div_mod_to_equations. lia.
Qed.

Lemma decode_four (b0 b1 b2 b3 : byte) :
  bytesToUInt32 [b0; b1; b2; b3] 0 = Done (be_value [b0; b1; b2; b3]).
Proof.
  exact (bytesToUInt32_value [] [] b0 b1 b2 b3 ltac:(vm_compute; discriminate)).
Qed.

Lemma decode_two (b0 b1 : byte) :
  bytesToUInt16 [b0; b1] 0 = Done (be_value [b0; b1]).
Proof.
  exact (bytesToUInt16_value [] [] b0 b1 ltac:(vm_compute; discriminate)).
Qed.

Lemma encode32_be_value (b0 b1 b2 b3 : byte) :
  uint32ToBytes (be_value [b0; b1; b2; b3]) = [b0; b1; b2; b3].
Proof.
  pose proof (u8_range b0). pose proof (u8_range b1).
  pose proof (u8_range b2). pose proof (u8_range b3).
  unfold uint32ToBytes. rewrite be_value_4.
  rewrite !low_byte, !Z.shiftr_div_pow2 by lia.
  change (2 ^ 24) with 16777216. change (2 ^ 16) with 65536.
  change (2 ^ 8) with 256.
  replace ((u8 b0 * 16777216 + u8 b1 * 65536 + u8 b2 * 256 + u8 b3) / 16777216 mod 256)
    with (u8 b0) by (Z.div_mod_to_equations; lia).
  replace ((u8 b0 * 16777216 + u8 b1 * 65536 + u8 b2 * 256 + u8 b3) / 65536 mod 256)
    with (u8 b1) by (Z.div_mod_to_equations; lia).
  replace ((u8 b0 * 16777216 + u8 b1 * 65536 + u8 b2 * 256 + u8 b3) / 256 mod 256)
    with (u8 b2) by (Z.div_mod_to_equations; lia).
  replace ((u8 b0 * 16777216 + u8 b1 * 65536 + u8 b2 * 256 + u8 b3) mod 256)
    with (u8 b3) by (Z.div_mod_to_equations; lia).
  rewrite !byte_of_Z_u8. reflexivity.
Qed.

Lemma encode16_be_value (b0 b1 : byte) :
  uint16ToBytes (be_value [b0; b1]) = [b0; b1].
Proof.
  pose proof (u8_range b0). pose proof (u8_range b1).
  unfold uint16ToBytes. rewrite be_value_2.
  rewrite !low_byte, !Z.shiftr_div_pow2 by lia.
  change (2 ^ 8) with 256.
  replace ((u8 b0 * 256 + u8 b1) / 256 mod 256)
    with (u8 b0) by (Z.div_mod_to_equations; lia).
  replace ((u8 b0 * 256 + u8 b1) mod 256)
    with (u8 b1) by (Z.div_mod_to_equations; lia).
  rewrite !byte_of_Z_u8. reflexivity.
Qed.

End CodecRoundTrip.

(** X1. Decoding what [uint32ToBytes] encodes gives the value back, reduced
    to 32 bits as the parameter type does. *)
Theorem bytesToUInt32_of_uint32ToBytes (value : Z) :
  Codec.bytesToUInt32 (Codec.uint32ToBytes value) 0 = Done (uint32_t value).
Proof.
  unfold Codec.uint32ToBytes at 1. rewrite CodecRoundTrip.decode_four.
  change (Codec.be_value _) with (Codec.be_value (Codec.uint32ToBytes value)).
  rewrite CodecRoundTrip.be_value_encode32. reflexivity.
Qed.

(** X2. Decoding what [uint16ToBytes] encodes gives the value back, reduced
    to 16 bits. *)
Theorem bytesToUInt16_of_uint16ToBytes (value : Z) :
  Codec.bytesToUInt16 (Codec.uint16ToBytes value) 0 = Done (uint16_t value).
Proof.
  unfold Codec.uint16ToBytes at 1. rewrite CodecRoundTrip.decode_two.
  change (Codec.be_value _) with (Codec.be_value (Codec.uint16ToBytes value)).
  rewrite CodecRoundTrip.be_value_encode16. reflexivity.
Qed.

(** X3. Encoding what the decoders read gives the bytes back: four bytes
    through [bytesToUInt32] and [uint32ToBytes], two bytes through
    [bytesToUInt16] and [uint16ToBytes]. *)
Theorem encode_of_decode (b0 b1 b2 b3 : byte) :
  (exists value : Z,
      Codec.bytesToUInt32 [b0; b1; b2; b3] 0 = Done value
      /\ Codec.uint32ToBytes value = [b0; b1; b2; b3])
  /\ (exists value : Z,
         Codec.bytesToUInt16 [b0; b1] 0 = Done value
         /\ Codec.uint16ToBytes value = [b0; b1]).
Proof.
  split; eexists; split;
    [apply CodecRoundTrip.decode_four | apply CodecRoundTrip.encode32_be_value
    | apply CodecRoundTrip.decode_two | apply CodecRoundTrip.encode16_be_value].
Qed.

Module DecoderFacts.

Import Codec CodecFacts.

Lemma take_drop_four (v : list byte) (n : nat) (b0 b1 b2 b3 : byte) :
  v !! n = Some b0 -> v !! S n = Some b1 ->
  v !! S (S n) = Some b2 -> v !! S (S (S n)) = Some b3 ->
  take 4 (drop n v) = [b0; b1; b2; b3].
Proof.
  intros H0 H1 H2 H3.
  rewrite (drop_S _ _ _ H0), (drop_S _ _ _ H1), (drop_S _ _ _ H2), (drop_S _ _ _ H3).
  reflexivity.
Qed.

Lemma take_drop_two (v : list byte) (n : nat) (b0 b1 : byte) :
  v !! n = Some b0 -> v !! S n = Some b1 -> take 2 (drop n v) = [b0; b1].
Proof.
  intros H0 H1. rewrite (drop_S _ _ _ H0), (drop_S _ _ _ H1). reflexivity.
Qed.

Lemma bytesToUInt32_fit (bytes : list byte) (offset : Z) :
  0 <= offset -> offset + 4 <= SIZE_MAX -> offset + 4 <= vsize bytes ->
  bytesToUInt32 bytes offset
  = Done (be_value (take 4 (drop (Z.to_nat offset) bytes))).
Proof.
  intros H0 Hmax Hfit. unfold bytesToUInt32.
  rewrite !size_t_small by lia.
  replace (offset + 4 >? vsize bytes) with false
    by (symmetry; rewrite Z.gtb_ltb; apply Z.ltb_ge; lia).
  destruct (at_in_range bytes offset ltac:(lia)) as [b0 [L0 E0]].
  destruct (at_in_range bytes (offset + 1) ltac:(lia)) as [b1 [L1 E1]].
  destruct (at_in_range bytes (offset + 2) ltac:(lia)) as [b2 [L2 E2]].
  destruct (at_in_range bytes (offset + 3) ltac:(lia)) as [b3 [L3 E3]].
  rewrite E0, E1, E2, E3. cbn [mbind outcome_bind]. rewrite word32_value.
  replace (Z.to_nat (offset + 1)) with (S (Z.to_nat offset)) in L1 by lia.
  replace (Z.to_nat (offset + 2)) with (S (S (Z.to_nat offset))) in L2 by lia.
  replace (Z.to_nat (offset + 3)) with (S (S (S (Z.to_nat offset)))) in L3 by lia.
  rewrite (take_drop_four _ _ _ _ _ _ L0 L1 L2 L3). reflexivity.
Qed.

Lemma bytesToUInt16_fit (bytes : list byte) (offset : Z) :
  0 <= offset -> offset + 2 <= SIZE_MAX -> offset + 2 <= vsize bytes ->
  bytesToUInt16 bytes offset
  = Done (be_value (take 2 (drop (Z.to_nat offset) bytes))).
Proof.
  intros H0 Hmax Hfit. unfold bytesToUInt16.
  rewrite !size_t_small by lia.
  replace (offset + 2 >? vsize bytes) with false
    by (symmetry; rewrite Z.gtb_ltb; apply Z.ltb_ge; lia).
  destruct (at_in_range bytes offset ltac:(lia)) as [b0 [L0 E0]].
  destruct (at_in_range bytes (offset + 1) ltac:(lia)) as [b1 [L1 E1]].
  rewrite E0, E1. cbn [mbind outcome_bind]. rewrite word16_value.
  replace (Z.to_nat (offset + 1)) with (S (Z.to_nat offset)) in L1 by lia.
  rewrite (take_drop_two _ _ _ _ L0 L1). reflexivity.
Qed.

End DecoderFacts.

(** X4. For an offset at which [offset + 4] does not wrap, [bytesToUInt32]
    reads inside the vector only: with fewer than four bytes at the offset it
    answers 0, with four bytes it answers their big-endian value, below
    2^32. *)
Theorem bytesToUInt32_contract (bytes : list byte) (offset : Z) :
  0 <= offset ->
  offset + 4 <= SIZE_MAX ->
  exists value : Z,
    Codec.bytesToUInt32 bytes offset = Done value
    /\ 0 <= value < 2 ^ 32
    /\ (vsize bytes < offset + 4 -> value = 0)
    /\ (offset + 4 <= vsize bytes ->
        value = Codec.be_value (take 4 (drop (Z.to_nat offset) bytes))).
Proof.
  intros H0 Hmax.
  destruct (CodecFacts.bytesToUInt32_defined bytes offset H0 Hmax) as [value [Hv Hr]].
  exists value. split; [exact Hv |]. split; [exact Hr |]. split.
  - intros Hshort.
    rewrite (CodecFacts.bytesToUInt32_short bytes offset H0 Hmax Hshort) in Hv.
    congruence.
  - intros Hfit.
    rewrite (DecoderFacts.bytesToUInt32_fit bytes offset H0 Hmax Hfit) in Hv.
    congruence.
Qed.

Lemma bytesToUInt32_contract_witness :
  0 <= 4
  /\ 4 + 4 <= SIZE_MAX
  /\ exists value : Z,
       Codec.bytesToUInt32 Sample.oneBass 4 = Done value
       /\ 0 <= value < 2 ^ 32
       /\ (vsize Sample.oneBass < 4 + 4 -> value = 0)
       /\ (4 + 4 <= vsize Sample.oneBass ->
           value = Codec.be_value (take 4 (drop (Z.to_nat 4) Sample.oneBass))).
Proof.
  assert (H0 : 0 <= 4) by (vm_compute; discriminate).
  assert (Hmax : 4 + 4 <= SIZE_MAX) by (vm_compute; discriminate).
  split; [exact H0 |]. split; [exact Hmax |].
  exact (bytesToUInt32_contract Sample.oneBass 4 H0 Hmax).
Defined.

(** X5. For an offset at which [offset + 2] does not wrap, [bytesToUInt16]
    reads inside the vector only: with fewer than two bytes at the offset it
    answers 0, with two bytes it answers their big-endian value, below
    2^16. *)
Theorem bytesToUInt16_contract (bytes : list byte) (offset : Z) :
  0 <= offset ->
  offset + 2 <= SIZE_MAX ->
  exists value : Z,
    Codec.bytesToUInt16 bytes offset = Done value
    /\ 0 <= value < 2 ^ 16
    /\ (vsize bytes < offset + 2 -> value = 0)
    /\ (offset + 2 <= vsize bytes ->
        value = Codec.be_value (take 2 (drop (Z.to_nat offset) bytes))).
Proof.
  intros H0 Hmax.
  destruct (CodecFacts.bytesToUInt16_defined bytes offset H0 Hmax) as [value [Hv Hr]].
  exists value. split; [exact Hv |]. split; [exact Hr |]. split.
  - intros Hshort.
    rewrite (CodecFacts.bytesToUInt16_short bytes offset H0 Hmax Hshort) in Hv.
    congruence.
  - intros Hfit.
    rewrite (DecoderFacts.bytesToUInt16_fit bytes offset H0 Hmax Hfit) in Hv.
    congruence.
Qed.

Lemma bytesToUInt16_contract_witness :
  0 <= 10
  /\ 10 + 2 <= SIZE_MAX
  /\ exists value : Z,
       Codec.bytesToUInt16 Sample.twoBass 10 = Done value
       /\ 0 <= value < 2 ^ 16
       /\ (vsize Sample.twoBass < 10 + 2 -> value = 0)
       /\ (10 + 2 <= vsize Sample.twoBass ->
           value = Codec.be_value (take 2 (drop (Z.to_nat 10) Sample.twoBass))).
Proof.
  assert (H0 : 0 <= 10) by (vm_compute; discriminate).
  assert (Hmax : 10 + 2 <= SIZE_MAX) by (vm_compute; discriminate).
  split; [exact H0 |]. split; [exact Hmax |].
  exact (bytesToUInt16_contract Sample.twoBass 10 H0 Hmax).
Defined.

(** ** Track names, continued *)

Module MarkerFacts.

Import Search Name.

Lemma occurrences_complete (needle : list byte) :
  forall (hay : list byte) (p q : nat),
    (q < length hay)%nat ->
    occurs_at needle (drop q hay) = true ->
    (p + q)%nat ∈ occurrences needle hay p.
Proof.
  induction hay as [| h rest IH]; intros p q Hq Hocc; [cbn in Hq; lia |].
  cbn [occurrences]. destruct q as [| q].
  - rewrite drop_0 in Hocc. rewrite Hocc, Nat.add_0_r. apply list_elem_of_here.
  - cbn [drop] in Hocc. cbn [length] in Hq.
    replace (p + S q)%nat with (S p + q)%nat by lia.
    destruct (occurs_at needle (h :: rest));
      [apply list_elem_of_further |]; apply IH; (lia || exact Hocc).
Qed.

Lemma occurs_at_pattern (hay : list byte) :
  occurs_at pattern hay = true <-> hay !! 0%nat = Some xff /\ hay !! 1%nat = Some x03.
Proof.
  unfold pattern. destruct hay as [| h0 [| h1 rest]]; cbn [occurs_at lookup list_lookup].
  - split; [discriminate | intros [H _]; discriminate].
  - rewrite andb_false_r. split; [discriminate | intros [_ H]; discriminate].
  - rewrite andb_true_r, andb_true_iff.
    split.
    + intros [H0 H1]. apply Byte.byte_dec_bl in H0, H1. subst. split; reflexivity.
    + intros [[= ->] [= ->]]. split; reflexivity.
Qed.

End MarkerFacts.

(** X6. The search for the track name marker reports every place of the
    buffer where the bytes FF 03 stand, and no other: the marker cannot
    overlap itself, so the resumption after a match skips no occurrence. *)
Theorem marker_search_complete (searchBuffer : list byte) :
  vsize searchBuffer <= 2 ^ 32 ->
  exists matches : list Z,
    Search.simpleSearch searchBuffer Name.pattern = Done matches
    /\ (forall p : nat,
          Z.of_nat p ∈ matches <->
          searchBuffer !! p = Some xff /\ searchBuffer !! S p = Some x03)
    /\ (forall m : Z, m ∈ matches -> 0 <= m /\ m + 2 <= vsize searchBuffer).
Proof.
  intros Hmax. exists (Z.of_nat <$> Name.occurrences Name.pattern searchBuffer 0).
  split; [apply NameFacts.simpleSearch_pattern; exact Hmax |]. split.
  - intros p.
    assert (Hiff : Search.occurs_at Name.pattern (drop p searchBuffer) = true
                   <-> searchBuffer !! p = Some xff /\ searchBuffer !! S p = Some x03).
    { rewrite MarkerFacts.occurs_at_pattern, !lookup_drop.
      replace (p + 0)%nat with p by lia. replace (p + 1)%nat with (S p) by lia.
      reflexivity. }
    rewrite <- Hiff. clear Hiff. split.
    + intros Hin. apply list_elem_of_fmap in Hin as [q [Hq Hin]].
      apply Nat2Z.inj in Hq. subst q.
      apply NameFacts.occurrences_sound in Hin as [_ Hocc].
      rewrite Nat.sub_0_r in Hocc. exact Hocc.
    + intros Hocc. apply list_elem_of_fmap. exists p. split; [reflexivity |].
      apply (MarkerFacts.occurrences_complete Name.pattern searchBuffer 0 p);
        [| exact Hocc].
      apply MarkerFacts.occurs_at_pattern in Hocc as [H0 _].
      rewrite lookup_drop, Nat.add_0_r in H0.
      apply lookup_lt_Some in H0. exact H0.
  - intros m Hin. apply list_elem_of_fmap in Hin as [q [-> Hin]].
    apply NameFacts.occurrences_inside in Hin. unfold vsize. lia.
Qed.

Lemma marker_search_complete_witness :
  vsize Sample.bass <= 2 ^ 32
  /\ exists matches : list Z,
       Search.simpleSearch Sample.bass Name.pattern = Done matches
       /\ (forall p : nat,
             Z.of_nat p ∈ matches <->
             Sample.bass !! p = Some xff /\ Sample.bass !! S p = Some x03)
       /\ (forall m : Z, m ∈ matches -> 0 <= m /\ m + 2 <= vsize Sample.bass).
Proof.
  assert (Hmax : vsize Sample.bass <= 2 ^ 32) by (vm_compute; discriminate).
  split; [exact Hmax |].
  exact (marker_search_complete Sample.bass Hmax).
Defined.

(** X7. The name of a track depends on the track number and on the first
    [min(trackSize, 1024)] bytes at the read position only: two streams that
    hold the same bytes there give the same name, whatever comes after, so a
    name event beyond the first 1024 bytes of a track is never found. *)
Theorem extractTrackName_reads_window_only (stream1 stream2 : istream)
    (trackNumber trackSize : Z) :
  let searchSize := Z.min (size_t trackSize) Name.MAX_SEARCH_SIZE in
  Stream.good stream1 = true -> 0 <= position stream1 ->
  Stream.good stream2 = true -> 0 <= position stream2 ->
  searchSize <= Stream.available stream1 ->
  searchSize <= Stream.available stream2 ->
  take (Z.to_nat searchSize) (drop (Z.to_nat (position stream1)) (content stream1))
  = take (Z.to_nat searchSize) (drop (Z.to_nat (position stream2)) (content stream2)) ->
  exists trackName : string,
    Name.extractTrackName true stream1 trackNumber trackSize
    = Done (trackName, mkIstream (content stream1) (position stream1) false false)
    /\ Name.extractTrackName true stream2 trackNumber trackSize
       = Done (trackName, mkIstream (content stream2) (position stream2) false false).
Proof.
  intros searchSize Hgood1 Hpos1 Hgood2 Hpos2 Hfit1 Hfit2 Hsame.
  rewrite (NameFacts.extractTrackName_window stream1 trackNumber trackSize
             Hgood1 Hpos1 Hfit1).
  rewrite (NameFacts.extractTrackName_window stream2 trackNumber trackSize
             Hgood2 Hpos2 Hfit2).
  fold searchSize.
  rewrite (StreamFacts.window_take stream1 searchSize Hpos1).
  rewrite (StreamFacts.window_take stream2 searchSize Hpos2).
  rewrite Hsame. eexists. split; reflexivity.
Qed.

Lemma extractTrackName_reads_window_only_witness :
  let stream2 := mkIstream Sample.twoBass 22 false false in
  let searchSize := Z.min (size_t 12) Name.MAX_SEARCH_SIZE in
  Stream.good Sample.atBass = true /\ 0 <= position Sample.atBass
  /\ Stream.good stream2 = true /\ 0 <= position stream2
  /\ searchSize <= Stream.available Sample.atBass
  /\ searchSize <= Stream.available stream2
  /\ take (Z.to_nat searchSize)
       (drop (Z.to_nat (position Sample.atBass)) (content Sample.atBass))
     = take (Z.to_nat searchSize)
         (drop (Z.to_nat (position stream2)) (content stream2))
  /\ exists trackName : string,
       Name.extractTrackName true Sample.atBass 1 12
       = Done (trackName,
               mkIstream (content Sample.atBass) (position Sample.atBass) false false)
       /\ Name.extractTrackName true stream2 1 12
          = Done (trackName,
                  mkIstream (content stream2) (position stream2) false false).
Proof.
  cbv zeta.
  set (stream2 := mkIstream Sample.twoBass 22 false false).
  assert (Hgood1 : Stream.good Sample.atBass = true) by reflexivity.
  assert (Hpos1 : 0 <= position Sample.atBass) by (vm_compute; discriminate).
  assert (Hgood2 : Stream.good stream2 = true) by reflexivity.
  assert (Hpos2 : 0 <= position stream2) by (vm_compute; discriminate).
  assert (Hfit1 : Z.min (size_t 12) Name.MAX_SEARCH_SIZE
                  <= Stream.available Sample.atBass) by (vm_compute; discriminate).
  assert (Hfit2 : Z.min (size_t 12) Name.MAX_SEARCH_SIZE
                  <= Stream.available stream2) by (vm_compute; discriminate).
  assert (Hsame : take (Z.to_nat (Z.min (size_t 12) Name.MAX_SEARCH_SIZE))
                    (drop (Z.to_nat (position Sample.atBass)) (content Sample.atBass))
                  = take (Z.to_nat (Z.min (size_t 12) Name.MAX_SEARCH_SIZE))
                      (drop (Z.to_nat (position stream2)) (content stream2)))
    by (vm_compute; reflexivity).
  split; [exact Hgood1 |]. split; [exact Hpos1 |]. split; [exact Hgood2 |].
  split; [exact Hpos2 |]. split; [exact Hfit1 |]. split; [exact Hfit2 |].
  split; [exact Hsame |].
  exact (extractTrackName_reads_window_only Sample.atBass stream2 1 12
           Hgood1 Hpos1 Hgood2 Hpos2 Hfit1 Hfit2 Hsame).
Defined.

(** ** Safe file names *)

Module SanitizeFacts.

Import Writer Sanitize.

Lemma replace_mapString (old new : ascii) (s : string) :
  replace old new s = mapString (fun c => if Ascii.eqb c old then new else c) s.
Proof. induction s as [| c s IH]; [reflexivity |]. cbn. rewrite IH. reflexivity. Qed.

Lemma mapString_compose (f g : ascii -> ascii) (s : string) :
  mapString g (mapString f s) = mapString (fun c => g (f c)) s.
Proof. induction s as [| c s IH]; [reflexivity |]. cbn. rewrite IH. reflexivity. Qed.

Lemma mapString_ext (f g : ascii -> ascii) (s : string) :
  (forall c, f c = g c) -> mapString f s = mapString g s.
Proof.
  intros H. induction s as [| c s IH]; [reflexivity |].
  cbn. rewrite H, IH. reflexivity.
Qed.

Lemma mapString_id (s : string) : mapString (fun c => c) s = s.
Proof. induction s as [| c s IH]; [reflexivity |]. cbn. rewrite IH. reflexivity. Qed.

Lemma replaceLoop_mapString (chars : string) :
  forall s : string, replaceLoop chars s = mapString (throughChars chars) s.
Proof.
  induction chars as [| x chars IH]; intros s.
  - cbn. symmetry. apply mapString_id.
  - cbn [replaceLoop]. rewrite IH, replace_mapString, mapString_compose.
    reflexivity.
Qed.

Lemma throughChars_underscore (chars : string) :
  existsb (Ascii.eqb "_"%char) (list_ascii_of_string chars) = false ->
  throughChars chars "_"%char = "_"%char.
Proof.
  induction chars as [| x chars IH]; intros H; [reflexivity |].
  cbn [list_ascii_of_string existsb] in H. apply orb_false_iff in H as [Hx Hrest].
  cbn [throughChars]. rewrite Hx. apply IH. exact Hrest.
Qed.

Lemma throughChars_spec (chars : string) :
  existsb (Ascii.eqb "_"%char) (list_ascii_of_string chars) = false ->
  forall c : ascii,
    throughChars chars c
    = if existsb (Ascii.eqb c) (list_ascii_of_string chars) then "_"%char else c.
Proof.
  induction chars as [| x chars IH]; intros H c; [reflexivity |].
  cbn [list_ascii_of_string existsb] in H. apply orb_false_iff in H as [Hx Hrest].
  cbn [throughChars list_ascii_of_string existsb].
  destruct (Ascii.eqb c x) eqn:E; cbn [orb].
  - apply throughChars_underscore. exact Hrest.
  - apply IH. exact Hrest.
Qed.

Lemma getSafeFilename_mapString (name : string) :
  getSafeFilename name = mapString safeChar name.
Proof.
  unfold getSafeFilename. rewrite replaceLoop_mapString.
  apply mapString_ext. intros c. unfold safeChar, isInvalid.
  apply throughChars_spec. reflexivity.
Qed.

Lemma length_mapString (f : ascii -> ascii) (s : string) :
  String.length (mapString f s) = String.length s.
Proof. induction s as [| c s IH]; [reflexivity |]. cbn. rewrite IH. reflexivity. Qed.

Lemma get_mapString (f : ascii -> ascii) (s : string) :
  forall i : nat, String.get i (mapString f s) = option_map f (String.get i s).
Proof.
  induction s as [| c s IH]; intros i; [reflexivity |].
  destruct i as [| i]; [reflexivity |]. cbn. apply IH.
Qed.

Lemma safeChar_valid (c : ascii) : isInvalid (safeChar c) = false.
Proof.
  unfold safeChar. destruct (isInvalid c) eqn:E; [reflexivity | exact E].
Qed.

End SanitizeFacts.

(** X8. [getSafeFilename] changes a name character by character: a
    character listed in [invalid] becomes an underscore, every other
    character stays. So the length stays, and none of the listed characters
    is left. *)
Theorem getSafeFilename_pointwise (name : string) :
  Writer.getSafeFilename name = Sanitize.mapString Sanitize.safeChar name
  /\ String.length (Writer.getSafeFilename name) = String.length name
  /\ (forall (i : nat) (c : ascii),
         String.get i name = Some c ->
         String.get i (Writer.getSafeFilename name)
         = Some (if Sanitize.isInvalid c then "_"%char else c))
  /\ (forall (i : nat) (c : ascii),
         String.get i (Writer.getSafeFilename name) = Some c ->
         Sanitize.isInvalid c = false).
Proof.
  rewrite SanitizeFacts.getSafeFilename_mapString.
  split; [reflexivity |]. split; [apply SanitizeFacts.length_mapString |].
  split.
  - intros i c Hc. rewrite SanitizeFacts.get_mapString, Hc. reflexivity.
  - intros i c Hc. rewrite SanitizeFacts.get_mapString in Hc.
    destruct (String.get i name) as [d |]; [| discriminate].
    injection Hc as <-. apply SanitizeFacts.safeChar_valid.
Qed.

(** X9. A safe name is not changed by [getSafeFilename]: applying the
    function twice is applying it once. *)
Theorem getSafeFilename_idempotent (name : string) :
  Writer.getSafeFilename (Writer.getSafeFilename name) = Writer.getSafeFilename name.
Proof.
  rewrite !SanitizeFacts.getSafeFilename_mapString, SanitizeFacts.mapString_compose.
  apply SanitizeFacts.mapString_ext. intros c.
  unfold Sanitize.safeChar at 1. rewrite SanitizeFacts.safeChar_valid. reflexivity.
Qed.

(** ** The chunk copy, continued *)

Module CopyFacts.

Import Writer StreamFacts Copy.

Lemma copyLoop_prefix :
  forall (fuel : nat) (in_ : istream) (out : list byte) (size : Z),
    Stream.good in_ = true ->
    0 <= position in_ ->
    0 <= size <= SIZE_MAX ->
    size <= BUFFER_SIZE * (Z.of_nat fuel - 1) ->
    copyLoop fuel in_ out size
    = Done (afterCopy in_ size,
            out ++ take (Z.to_nat size) (drop (Z.to_nat (position in_)) (content in_))).
Proof.
  unfold BUFFER_SIZE.
  induction fuel as [| fuel IH]; intros in_ out size Hgood Hpos Hsize Hfuel;
    [exfalso; lia |].
  destruct (Z.le_gt_cases size (Stream.available in_)) as [Hall | Hshort].
  { rewrite (WriterFacts.copyLoop_exact (S fuel) in_ out size Hgood Hpos
               ltac:(lia) ltac:(lia) Hfuel).
    unfold afterCopy.
    replace (size <=? Stream.available in_) with true
      by (symmetry; apply Z.leb_le; lia).
    reflexivity. }
  cbn [copyLoop].
  replace (size >? 0) with true
    by (symmetry; apply Z.gtb_lt; unfold Stream.available in Hshort; lia).
  assert (Havail : 0 <= Stream.available in_) by (unfold Stream.available; lia).
  assert (Hrest : vsize (drop (Z.to_nat (position in_)) (content in_))
                  = Stream.available in_).
  { unfold vsize, Stream.available. rewrite length_drop. unfold vsize. lia. }
  destruct (Z.le_gt_cases (Z.min size BUFFER_SIZE) (Stream.available in_))
    as [Hfull | Hpart].
  - assert (Hn : Z.min size BUFFER_SIZE = 4096) by (unfold BUFFER_SIZE in *; lia).
    rewrite read_ok by (try exact Hgood; unfold BUFFER_SIZE in *; lia).
    rewrite Hn.
    rewrite vsize_take_drop by (unfold Stream.available in *; lia).
    change (4096 =? 0) with false. cbv iota.
    unfold Stream.eof. cbn [eofbit].
    rewrite size_t_small by (unfold BUFFER_SIZE in *; lia).
    rewrite IH;
      [| reflexivity | cbn [position]; lia | unfold BUFFER_SIZE in *; lia
       | unfold BUFFER_SIZE in *; lia].
    cbn [position content]. f_equal. f_equal.
    + unfold afterCopy, Stream.available. cbn [position content].
      unfold Stream.available, BUFFER_SIZE in *.
      replace (size - 4096 <=? Z.max 0 (vsize (content in_) - (position in_ + 4096)))
        with false by (symmetry; apply Z.leb_gt; lia).
      replace (size <=? Z.max 0 (vsize (content in_) - position in_))
        with false by (symmetry; apply Z.leb_gt; lia).
      f_equal. unfold Stream.available in *. lia.
    + rewrite <- app_assoc. f_equal.
      replace (Z.to_nat (position in_ + 4096))
        with (Z.to_nat (position in_) + Z.to_nat 4096)%nat by lia.
      rewrite <- drop_drop, take_take_drop. f_equal. lia.
  - unfold Stream.read. rewrite Hgood.
    replace (Z.min size BUFFER_SIZE <=? Stream.available in_) with false
      by (symmetry; apply Z.leb_gt; lia).
    rewrite window_take by exact Hpos.
    rewrite (take_ge _ (Z.to_nat (Stream.available in_)))
      by (unfold vsize in Hrest; lia).
    rewrite (take_ge _ (Z.to_nat size)) by (unfold vsize in Hrest; lia).
    rewrite Hrest. unfold afterCopy.
    replace (size <=? Stream.available in_) with false
      by (symmetry; apply Z.leb_gt; lia).
    destruct (Z.eqb_spec (Stream.available in_) 0) as [Hzero | Hsome].
    + replace (drop (Z.to_nat (position in_)) (content in_)) with (@nil byte).
      * rewrite app_nil_r. reflexivity.
      * symmetry. apply length_zero_iff_nil. unfold vsize in Hrest. lia.
    + reflexivity.
Qed.

Lemma copyStream_afterCopy (in_ : istream) (out : list byte) (size : Z) :
  Stream.good in_ = true ->
  0 <= position in_ ->
  0 <= size <= SIZE_MAX ->
  copyStream in_ out size
  = Done (afterCopy in_ size,
          out ++ take (Z.to_nat size) (drop (Z.to_nat (position in_)) (content in_))).
Proof.
  intros Hgood Hpos Hsize. unfold copyStream.
  apply copyLoop_prefix; try assumption.
  unfold BUFFER_SIZE.
  pose proof (Z.div_mod size 4096 ltac:(lia)).
  pose proof (Z.mod_pos_bound size 4096 ltac:(lia)).
  assert (0 <= size / 4096) by (apply Z.div_pos; lia).
  lia.
Qed.

End CopyFacts.

(** X10. Copying [size] bytes from a good stream appends to the output the
    bytes there are, at most [size] of them, and nothing else; the stream
    ends after the bytes copied, and stays good exactly when all [size] were
    there. *)
Theorem copyStream_prefix (in_ : istream) (out : list byte) (size : Z) :
  Stream.good in_ = true ->
  0 <= position in_ ->
  0 <= size <= SIZE_MAX ->
  exists in' : istream,
    Writer.copyStream in_ out size
    = Done (in', out ++ take (Z.to_nat size)
                          (drop (Z.to_nat (position in_)) (content in_)))
    /\ content in' = content in_
    /\ position in' = position in_ + Z.min size (Stream.available in_)
    /\ (Stream.good in' = true <-> size <= Stream.available in_).
Proof.
  intros Hgood Hpos Hsize.
  exists (Copy.afterCopy in_ size). split.
  - apply CopyFacts.copyStream_afterCopy; assumption.
  - unfold Copy.afterCopy.
    destruct (Z.leb_spec size (Stream.available in_)) as [Hall | Hshort];
      cbn [content position]; (split; [reflexivity |]); (split; [lia |]);
      unfold Stream.good; cbn [eofbit failbit]; split; intros H;
      try reflexivity; try lia; try discriminate.
Qed.

Lemma copyStream_prefix_witness :
  Stream.good Sample.atCut = true
  /\ 0 <= position Sample.atCut
  /\ 0 <= 18 <= SIZE_MAX
  /\ exists in' : istream,
       Writer.copyStream Sample.atCut [] 18
       = Done (in', [] ++ take (Z.to_nat 18)
                             (drop (Z.to_nat (position Sample.atCut))
                                   (content Sample.atCut)))
       /\ content in' = content Sample.atCut
       /\ position in' = position Sample.atCut + Z.min 18 (Stream.available Sample.atCut)
       /\ (Stream.good in' = true <-> 18 <= Stream.available Sample.atCut).
Proof.
  assert (Hgood : Stream.good Sample.atCut = true) by reflexivity.
  assert (Hpos : 0 <= position Sample.atCut) by (vm_compute; discriminate).
  assert (Hsize : 0 <= 18 <= SIZE_MAX) by (split; vm_compute; discriminate).
  split; [exact Hgood |]. split; [exact Hpos |]. split; [exact Hsize |].
  exact (copyStream_prefix Sample.atCut [] 18 Hgood Hpos Hsize).
Defined.

(** X11. What the writer puts in the file of a track whose path is free and
    can be created: the output header and then the bytes of the input from
    the recorded position on, as many as there are up to [8 + size]
    computed in 32 bits. A chunk cut short by the end of the file gives a
    shorter file and no error; a declared size of 2^32 - 8 or more wraps,
    and fewer than eight bytes of the chunk are copied. No other path
    changes. *)
Theorem writeTrack_copies (fuel : nat) (env : environment)
    (baseName outputDir : string) (header : list byte)
    (track : Track.TrackInfo) (file : istream) (fs : filesystem) :
  let outputPath :=
    join outputDir
      (baseName +:+ " - " +:+ Writer.getSafeFilename (Track.name track) +:+ ".mid") in
  exists_ fs outputPath = false ->
  can_create env (c_str outputPath) = true ->
  0 <= Track.position track ->
  exists file' : istream,
    Split.writeTrack (S fuel) env baseName outputDir header track file fs
    = (Done file',
       <[c_str outputPath :=
           header ++ take (Z.to_nat (uint32_t (8 + Track.size track)))
                       (drop (Z.to_nat (Track.position track)) (content file))]> fs).
Proof.
  intros outputPath Hex Hcreate Hpos.
  rewrite SplitFacts.writeTrack_fresh by assumption. fold outputPath. cbv zeta.
  unfold Stream.seekg, Stream.clear, Stream.fail at 1. cbn [failbit position content].
  replace (Track.position track <? 0) with false
    by (symmetry; apply Z.ltb_ge; lia).
  cbn [failbit].
  assert (Hrange : 0 <= uint32_t (8 + Track.size track) < 2 ^ 32)
    by (unfold uint32_t; apply Z.mod_pos_bound; lia).
  rewrite size_t_small by (unfold SIZE_MAX; lia).
  rewrite (CopyFacts.copyStream_afterCopy
             (mkIstream (content file) (Track.position track) false false) header
             (uint32_t (8 + Track.size track)) eq_refl Hpos
             ltac:(unfold SIZE_MAX; lia)).
  cbn [position content]. eexists.
  rewrite !insert_insert_eq. reflexivity.
Qed.

Lemma writeTrack_copies_witness :
  let track := Track.mk 1 "Bass" (2 ^ 32 - 4) 14 in
  let outputPath :=
    join "out" ("Song" +:+ " - " +:+ Writer.getSafeFilename (Track.name track)
                +:+ ".mid") in
  exists_ (Sample.onlyInput Sample.oneBass) outputPath = false
  /\ can_create Sample.env (c_str outputPath) = true
  /\ 0 <= Track.position track
  /\ exists file' : istream,
       Split.writeTrack 1 Sample.env "Song" "out" (Split.outputHeader [x01; xe0])
         track Sample.atBass (Sample.onlyInput Sample.oneBass)
       = (Done file',
          <[c_str outputPath :=
              Split.outputHeader [x01; xe0]
              ++ take (Z.to_nat (uint32_t (8 + Track.size track)))
                   (drop (Z.to_nat (Track.position track)) (content Sample.atBass))]>
            (Sample.onlyInput Sample.oneBass)).
Proof.
  cbv zeta.
  set (track := Track.mk 1 "Bass" (2 ^ 32 - 4) 14).
  assert (Hex : exists_ (Sample.onlyInput Sample.oneBass)
                  (join "out" ("Song" +:+ " - "
                     +:+ Writer.getSafeFilename (Track.name track) +:+ ".mid"))
                = false) by (vm_compute; reflexivity).
  assert (Hcreate : can_create Sample.env
                      (c_str (join "out" ("Song" +:+ " - "
                         +:+ Writer.getSafeFilename (Track.name track) +:+ ".mid")))
                    = true) by reflexivity.
  assert (Hpos : 0 <= Track.position track) by (vm_compute; discriminate).
  split; [exact Hex |]. split; [exact Hcreate |]. split; [exact Hpos |].
  exact (writeTrack_copies 0 Sample.env "Song" "out" (Split.outputHeader [x01; xe0])
           track Sample.atBass (Sample.onlyInput Sample.oneBass) Hex Hcreate Hpos).
Defined.

(** ** The driver on arbitrary input *)

Module RunFacts.

Import Split StreamFacts Run.

Lemma tracksLoop_settled (env : environment) :
  forall (n : nat) (i : Z) (file : istream) (tracks : list Track.TrackInfo),
    settled (tracksLoop env n i file tracks).
Proof.
  induction n as [| n IH]; intros i file tracks; [exact I |].
  cbn [tracksLoop].
  destruct (Stream.tellg file) as [trackStartPos file1].
  destruct (trackStartPos =? -1); [exact I |].
  destruct (Stream.read file1 8) as [trackHeader file2].
  destruct (Stream.fail file2 || negb (vsize trackHeader =? 8)) eqn:Hread;
    [exact I |].
  destruct (negb (String.eqb (string_of_list_byte (take 4 trackHeader)) "MTrk"));
    [exact I |].
  apply orb_false_iff in Hread as [_ Hlen].
  apply negb_false_iff, Z.eqb_eq in Hlen.
  destruct (CodecFacts.bytesToUInt32_defined trackHeader 4
              ltac:(lia) ltac:(unfold SIZE_MAX; lia)) as [trackSize [Hsize _]].
  rewrite Hsize. cbn [mbind outcome_bind].
  destruct (NameFacts.extractTrackName_returns
              (resize_ok env (uint16_t (i + 1))) file2 (uint16_t (i + 1)) trackSize)
    as [trackName [stream' [Hname _]]].
  rewrite Hname. cbn [mbind outcome_bind fst snd].
  destruct (Stream.fail (Stream.seekg_cur stream' trackSize)); [exact I |].
  apply IH.
Qed.

Lemma readFile_settled (env : environment) (file : istream) :
  settled (readFile env file).
Proof.
  unfold readFile.
  destruct (Stream.read file 14) as [headerData file1].
  destruct (Stream.fail file1 || negb (vsize headerData =? 14)) eqn:Hread;
    [exact I |].
  destruct (negb (String.eqb (string_of_list_byte (take 4 headerData)) "MThd"));
    [exact I |].
  apply orb_false_iff in Hread as [_ Hlen].
  apply negb_false_iff, Z.eqb_eq in Hlen.
  destruct (CodecFacts.bytesToUInt32_defined headerData 4
              ltac:(lia) ltac:(unfold SIZE_MAX; lia)) as [headerSize [Hsize _]].
  rewrite Hsize. cbn [mbind outcome_bind].
  destruct (negb (headerSize =? 6)); [exact I |].
  destruct (CodecFacts.bytesToUInt16_defined headerData 8
              ltac:(lia) ltac:(unfold SIZE_MAX; lia)) as [format [Hformat _]].
  rewrite Hformat. cbn [mbind outcome_bind].
  destruct (negb (format =? 1)); [exact I |].
  destruct (CodecFacts.bytesToUInt16_defined headerData 10
              ltac:(lia) ltac:(unfold SIZE_MAX; lia)) as [totalTracks [Htotal _]].
  rewrite Htotal. cbn [mbind outcome_bind].
  pose proof (tracksLoop_settled env (Z.to_nat totalTracks) 0 file1 []) as Hloop.
  destruct (tracksLoop env (Z.to_nat totalTracks) 0 file1 []); cbn in *; tauto.
Qed.

(** The loop at lines 333-335 is left only on its first test, with the
    candidate name and a free path. *)
Lemma existsLoop_done (fs : filesystem) (outputPath baseName safeTrackName : string)
    (counter : Z) (fuel : nat) (outputFile result : string) :
  existsLoop fuel fs outputPath baseName safeTrackName counter outputFile
  = Done result ->
  exists_ fs outputPath = false /\ result = outputFile.
Proof.
  destruct fuel as [| fuel]; [discriminate |].
  cbn [existsLoop]. destruct (exists_ fs outputPath) eqn:Hex.
  - rewrite (SplitFacts.existsLoop_spins _ _ _ _ _ Hex). discriminate.
  - intros [= <-]. split; reflexivity.
Qed.

Lemma existsLoop_inBounds (fs : filesystem) (outputPath baseName safeTrackName : string)
    (counter : Z) (fuel : nat) (outputFile : string) :
  inBounds (existsLoop fuel fs outputPath baseName safeTrackName counter outputFile).
Proof.
  revert outputFile. induction fuel as [| fuel IH]; intros outputFile; [exact I |].
  cbn [existsLoop]. destruct (exists_ fs outputPath); [apply IH | exact I].
Qed.

Lemma exists_free (fs : filesystem) (path : string) :
  exists_ fs path = false -> fs !! c_str path = None.
Proof.
  unfold exists_. intros H. apply bool_decide_eq_false in H.
  destruct (fs !! c_str path) eqn:E; [| reflexivity].
  exfalso. apply H. eauto.
Qed.

Lemma writeTrack_inBounds (fuel : nat) (env : environment)
    (baseName outputDir : string) (header : list byte)
    (track : Track.TrackInfo) (file : istream) (fs : filesystem) :
  inBounds (fst (writeTrack fuel env baseName outputDir header track file fs)).
Proof.
  unfold writeTrack.
  pose proof (existsLoop_inBounds fs
                (join outputDir (baseName +:+ " - "
                   +:+ Writer.getSafeFilename (Track.name track) +:+ ".mid"))
                baseName (Writer.getSafeFilename (Track.name track)) 1 fuel
                (baseName +:+ " - " +:+ Writer.getSafeFilename (Track.name track)
                 +:+ ".mid")) as Hloop.
  destruct (existsLoop _ _ _ _ _ _ _) as [outputFile | what | |];
    try exact I; [| contradiction].
  destruct (negb (can_create env (c_str (join outputDir outputFile))));
    [exact I |].
  destruct (Stream.fail (Stream.seekg (Stream.clear file) (Track.position track)))
    eqn:Hseek; [exact I |].
  assert (Hpos : 0 <= position (Stream.seekg (Stream.clear file) (Track.position track))).
  { revert Hseek. unfold Stream.seekg, Stream.clear, Stream.fail.
    cbn [failbit content position].
    destruct (Z.ltb_spec (Track.position track) 0); cbn [failbit position];
      [discriminate | intros _; lia]. }
  destruct (WriterFacts.copyStream_returns
              (Stream.seekg (Stream.clear file) (Track.position track)) header
              (size_t (uint32_t (8 + Track.size track))) Hpos
              (size_t_range (uint32_t (8 + Track.size track))))
    as [[file' out] Hcopy].
  rewrite Hcopy. exact I.
Qed.

Lemma writeTrack_grows (fuel : nat) (env : environment)
    (baseName outputDir : string) (header : list byte)
    (track : Track.TrackInfo) (file : istream) (fs : filesystem) :
  fs ⊆ snd (writeTrack fuel env baseName outputDir header track file fs).
Proof.
  unfold writeTrack.
  destruct (existsLoop _ _ _ _ _ _ _) as [outputFile | what | |] eqn:Hloop;
    try reflexivity.
  apply existsLoop_done in Hloop as [Hfree ->].
  apply exists_free in Hfree.
  set (outputPath := c_str (join outputDir _)) in *.
  destruct (negb (can_create env outputPath)); [reflexivity |].
  assert (Hnew : forall bytes : list byte, fs ⊆ <[outputPath := bytes]> fs)
    by (intros bytes; apply insert_subseteq; exact Hfree).
  rewrite insert_insert_eq.
  destruct (Stream.fail _); [apply Hnew |].
  destruct (Writer.copyStream _ _ _) as [[file' out] | what | |]; cbn [snd];
    try apply Hnew.
  rewrite insert_insert_eq. apply Hnew.
Qed.

Lemma writeLoop_inBounds (fuel : nat) (env : environment)
    (baseName outputDir : string) (header : list byte) :
  forall (tracks : list Track.TrackInfo) (file : istream) (splitCount : Z)
         (fs : filesystem),
    inBounds (fst (writeLoop fuel env baseName outputDir header tracks file
                     splitCount fs)).
Proof.
  induction tracks as [| track rest IH]; intros file splitCount fs; [exact I |].
  cbn [writeLoop].
  pose proof (writeTrack_inBounds fuel env baseName outputDir header track file fs)
    as Hone.
  destruct (writeTrack fuel env baseName outputDir header track file fs)
    as [[file' | what | |] fs']; cbn [fst] in *; try exact I; [apply IH | contradiction].
Qed.

Lemma writeLoop_grows (fuel : nat) (env : environment)
    (baseName outputDir : string) (header : list byte) :
  forall (tracks : list Track.TrackInfo) (file : istream) (splitCount : Z)
         (fs : filesystem),
    fs ⊆ snd (writeLoop fuel env baseName outputDir header tracks file
                splitCount fs).
Proof.
  induction tracks as [| track rest IH]; intros file splitCount fs; [reflexivity |].
  cbn [writeLoop].
  pose proof (writeTrack_grows fuel env baseName outputDir header track file fs)
    as Hone.
  destruct (writeTrack fuel env baseName outputDir header track file fs)
    as [[file' | what | |] fs']; cbn [snd] in *; try exact Hone.
  etransitivity; [exact Hone | apply IH].
Qed.

End RunFacts.

(** X12. No run of [splitMIDIFile] reads a vector outside its bounds, whatever
    the bytes of the input file, the file system and the environment: every
    index the run computes on the header, on a track header and on the
    search buffer of a track is inside the vector. *)
Theorem splitMIDIFile_in_bounds (fuel : nat) (env : environment)
    (inputFile outputDir : string) (fs : filesystem) :
  fst (Split.splitMIDIFile fuel env inputFile outputDir fs) <> OutOfBounds.
Proof.
  intros Hout.
  assert (Hin : Run.inBounds
                  (fst (Split.splitMIDIFile fuel env inputFile outputDir fs))).
  { unfold Split.splitMIDIFile.
    destruct (fs !! c_str inputFile) as [bytes |]; [| exact I].
    pose proof (RunFacts.readFile_settled env (mkIstream bytes 0 false false))
      as Hread.
    destruct (Split.readFile env (mkIstream bytes 0 false false))
      as [[[division tracks] file] | what | |]; cbn in Hread; try contradiction;
      [apply RunFacts.writeLoop_inBounds | exact I]. }
  rewrite Hout in Hin. exact Hin.
Qed.

(** X13. A run never removes or changes a file that was there before it: every
    path of the file system keeps its bytes, the input file among them, also
    when the run stops with an error after some tracks have been written. *)
Theorem splitMIDIFile_keeps_files (fuel : nat) (env : environment)
    (inputFile outputDir : string) (fs : filesystem) :
  fs ⊆ snd (Split.splitMIDIFile fuel env inputFile outputDir fs)
  /\ (forall (path : string) (bytes : list byte),
        fs !! path = Some bytes ->
        snd (Split.splitMIDIFile fuel env inputFile outputDir fs) !! path
        = Some bytes).
Proof.
  assert (Hsub : fs ⊆ snd (Split.splitMIDIFile fuel env inputFile outputDir fs)).
  { unfold Split.splitMIDIFile.
    destruct (fs !! c_str inputFile) as [bytes |]; [| reflexivity].
    destruct (Split.readFile env (mkIstream bytes 0 false false))
      as [[[division tracks] file] | what | |]; try reflexivity.
    apply RunFacts.writeLoop_grows. }
  split; [exact Hsub |].
  intros path bytes Hpath. exact (lookup_weaken _ _ _ _ Hpath Hsub).
Qed.

(** ** The header checks *)

Module HeaderFacts.

Import Split StreamFacts.

Lemma take_drop_take {A : Type} (l : list A) (n p m : nat) :
  (p + n <= m)%nat -> take n (drop p (take m l)) = take n (drop p l).
Proof.
  intros H. rewrite !take_drop_commute, take_take.
  replace ((p + n) `min` m)%nat with (p + n)%nat by lia. reflexivity.
Qed.

Lemma tag_eqb_true (l : list byte) (tag : string) :
  l = list_byte_of_string tag -> String.eqb (string_of_list_byte l) tag = true.
Proof.
  intros ->. rewrite string_of_list_byte_of_string. apply String.eqb_refl.
Qed.

Lemma tag_eqb_false (l : list byte) (tag : string) :
  l <> list_byte_of_string tag -> String.eqb (string_of_list_byte l) tag = false.
Proof.
  intros Hne. apply String.eqb_neq. intros Heq. apply Hne.
  rewrite <- Heq. symmetry. apply list_byte_of_string_of_list_byte.
Qed.

(** The header checks on a file of 14 bytes or more, by the bytes of the
    file. *)
Lemma readFile_header (env : environment) (bytes : list byte) :
  14 <= vsize bytes ->
  readFile env (mkIstream bytes 0 false false)
  = if negb (String.eqb (string_of_list_byte (take 4 bytes)) "MThd") then
      Raised "Not a valid MIDI file (missing MThd header)"
    else if negb (Codec.be_value (take 4 (drop 4 bytes)) =? 6) then
      Raised "Invalid MIDI header size"
    else if negb (Codec.be_value (take 2 (drop 8 bytes)) =? 1) then
      Raised "Not a Format 1 MIDI file"
    else
      r ← tracksLoop env (Z.to_nat (Codec.be_value (take 2 (drop 10 bytes)))) 0
            (mkIstream bytes 14 false false) [];
      Done (take 2 (drop 12 bytes), fst r, snd r).
Proof.
  intros Hlen. unfold readFile.
  rewrite read_ok;
    [| reflexivity | lia | cbn [position]; lia
     | unfold Stream.available; cbn [position content]; lia].
  cbn [position content]. change (Z.to_nat 0) with 0%nat. rewrite drop_0.
  change (Z.to_nat 14) with 14%nat.
  unfold Stream.fail. cbn [failbit orb].
  assert (H14 : vsize (take 14 bytes) = 14)
    by (unfold vsize in *; rewrite length_take; lia).
  rewrite H14. change (14 =? 14) with true. cbn [negb].
  rewrite take_take. change (4 `min` 14)%nat with 4%nat.
  destruct (String.eqb (string_of_list_byte (take 4 bytes)) "MThd");
    cbn [negb]; [| reflexivity].
  rewrite (DecoderFacts.bytesToUInt32_fit (take 14 bytes) 4)
    by (try rewrite H14; unfold SIZE_MAX; lia).
  cbn [mbind outcome_bind].
  change (Z.to_nat 4) with 4%nat.
  rewrite (take_drop_take bytes 4 4 14) by lia.
  destruct (negb (Codec.be_value (take 4 (drop 4 bytes)) =? 6)); [reflexivity |].
  rewrite (DecoderFacts.bytesToUInt16_fit (take 14 bytes) 8)
    by (try rewrite H14; unfold SIZE_MAX; lia).
  cbn [mbind outcome_bind].
  change (Z.to_nat 8) with 8%nat.
  rewrite (take_drop_take bytes 2 8 14) by lia.
  destruct (negb (Codec.be_value (take 2 (drop 8 bytes)) =? 1)); [reflexivity |].
  rewrite (DecoderFacts.bytesToUInt16_fit (take 14 bytes) 10)
    by (try rewrite H14; unfold SIZE_MAX; lia).
  cbn [mbind outcome_bind].
  change (Z.to_nat 10) with 10%nat.
  rewrite (take_drop_take bytes 2 10 14) by lia.
  change (0 + 14) with 14.
  replace (drop 12 (take 14 bytes)) with (take 2 (drop 12 bytes))
    by (rewrite take_drop_commute; reflexivity).
  reflexivity.
Qed.

Lemma readFile_short (env : environment) (bytes : list byte) :
  vsize bytes < 14 ->
  readFile env (mkIstream bytes 0 false false) = Raised "Error reading MIDI header.".
Proof.
  intros Hshort. unfold readFile.
  pose proof (read_short (mkIstream bytes 0 false false) 14 eq_refl
                ltac:(unfold Stream.available; cbn [position content]; lia))
    as Hfail.
  destruct (Stream.read (mkIstream bytes 0 false false) 14) as [headerData file].
  cbn [snd] in Hfail. rewrite Hfail. reflexivity.
Qed.

End HeaderFacts.

(** X14. An input file of fewer than 14 bytes is rejected with
    "Error reading MIDI header." and nothing is written. *)
Theorem short_header_rejected (fuel : nat) (env : environment)
    (inputFile outputDir : string) (fs : filesystem) (bytes : list byte) :
  fs !! c_str inputFile = Some bytes ->
  vsize bytes < 14 ->
  Split.splitMIDIFile fuel env inputFile outputDir fs
  = (Raised "Error reading MIDI header.", fs).
Proof.
  intros Hfs Hshort. unfold Split.splitMIDIFile.
  rewrite Hfs, (HeaderFacts.readFile_short env bytes Hshort). reflexivity.
Qed.

Lemma short_header_rejected_witness :
  let bytes := take 13 Sample.oneBass in
  Sample.onlyInput bytes !! c_str "in/Song.mid" = Some bytes
  /\ vsize bytes < 14
  /\ Split.splitMIDIFile 1 Sample.env "in/Song.mid" "out" (Sample.onlyInput bytes)
     = (Raised "Error reading MIDI header.", Sample.onlyInput bytes).
Proof.
  cbv zeta.
  assert (Hfs : Sample.onlyInput (take 13 Sample.oneBass) !! c_str "in/Song.mid"
                = Some (take 13 Sample.oneBass)) by (vm_compute; reflexivity).
  assert (Hshort : vsize (take 13 Sample.oneBass) < 14) by (vm_compute; reflexivity).
  split; [exact Hfs |]. split; [exact Hshort |].
  exact (short_header_rejected 1 Sample.env "in/Song.mid" "out" _ _ Hfs Hshort).
Defined.

(** X15. An input file of 14 bytes or more that does not begin with the four
    bytes "MThd" is rejected with "Not a valid MIDI file (missing MThd
    header)", whatever follows, and nothing is written. *)
Theorem missing_magic_rejected (fuel : nat) (env : environment)
    (inputFile outputDir : string) (fs : filesystem) (bytes : list byte) :
  fs !! c_str inputFile = Some bytes ->
  14 <= vsize bytes ->
  take 4 bytes <> list_byte_of_string "MThd" ->
  Split.splitMIDIFile fuel env inputFile outputDir fs
  = (Raised "Not a valid MIDI file (missing MThd header)", fs).
Proof.
  intros Hfs Hlen Hmagic. unfold Split.splitMIDIFile.
  rewrite Hfs, (HeaderFacts.readFile_header env bytes Hlen).
  rewrite (HeaderFacts.tag_eqb_false _ _ Hmagic). reflexivity.
Qed.

Lemma missing_magic_rejected_witness :
  let bytes := list_byte_of_string "RIFF" ++ drop 4 Sample.oneBass in
  Sample.onlyInput bytes !! c_str "in/Song.mid" = Some bytes
  /\ 14 <= vsize bytes
  /\ take 4 bytes <> list_byte_of_string "MThd"
  /\ Split.splitMIDIFile 1 Sample.env "in/Song.mid" "out" (Sample.onlyInput bytes)
     = (Raised "Not a valid MIDI file (missing MThd header)", Sample.onlyInput bytes).
Proof.
  cbv zeta.
  set (bytes := list_byte_of_string "RIFF" ++ drop 4 Sample.oneBass).
  assert (Hfs : Sample.onlyInput bytes !! c_str "in/Song.mid" = Some bytes)
    by (vm_compute; reflexivity).
  assert (Hlen : 14 <= vsize bytes) by (vm_compute; discriminate).
  assert (Hmagic : take 4 bytes <> list_byte_of_string "MThd")
    by (vm_compute; discriminate).
  split; [exact Hfs |]. split; [exact Hlen |]. split; [exact Hmagic |].
  exact (missing_magic_rejected 1 Sample.env "in/Song.mid" "out" _ _ Hfs Hlen Hmagic).
Defined.

(** X16. An input file that begins with "MThd" and whose header length field
    (the four bytes at offset 4, big-endian) is not 6 is rejected with
    "Invalid MIDI header size", before the format is looked at, and nothing
    is written. *)
Theorem header_size_rejected (fuel : nat) (env : environment)
    (inputFile outputDir : string) (fs : filesystem) (bytes : list byte) :
  fs !! c_str inputFile = Some bytes ->
  14 <= vsize bytes ->
  take 4 bytes = list_byte_of_string "MThd" ->
  Codec.be_value (take 4 (drop 4 bytes)) <> 6 ->
  Split.splitMIDIFile fuel env inputFile outputDir fs
  = (Raised "Invalid MIDI header size", fs).
Proof.
  intros Hfs Hlen Hmagic Hsize. unfold Split.splitMIDIFile.
  rewrite Hfs, (HeaderFacts.readFile_header env bytes Hlen).
  rewrite (HeaderFacts.tag_eqb_true _ _ Hmagic). cbn [negb].
  replace (Codec.be_value (take 4 (drop 4 bytes)) =? 6) with false
    by (symmetry; apply Z.eqb_neq; exact Hsize).
  reflexivity.
Qed.

Lemma header_size_rejected_witness :
  let bytes :=
    list_byte_of_string "MThd" ++ Codec.uint32ToBytes 7 ++ drop 8 Sample.formatZero in
  Sample.onlyInput bytes !! c_str "in/Song.mid" = Some bytes
  /\ 14 <= vsize bytes
  /\ take 4 bytes = list_byte_of_string "MThd"
  /\ Codec.be_value (take 4 (drop 4 bytes)) <> 6
  /\ Split.splitMIDIFile 1 Sample.env "in/Song.mid" "out" (Sample.onlyInput bytes)
     = (Raised "Invalid MIDI header size", Sample.onlyInput bytes).
Proof.
  cbv zeta.
  set (bytes := list_byte_of_string "MThd" ++ Codec.uint32ToBytes 7
                ++ drop 8 Sample.formatZero).
  assert (Hfs : Sample.onlyInput bytes !! c_str "in/Song.mid" = Some bytes)
    by (vm_compute; reflexivity).
  assert (Hlen : 14 <= vsize bytes) by (vm_compute; discriminate).
  assert (Hmagic : take 4 bytes = list_byte_of_string "MThd")
    by (vm_compute; reflexivity).
  assert (Hsize : Codec.be_value (take 4 (drop 4 bytes)) <> 6)
    by (vm_compute; discriminate).
  split; [exact Hfs |]. split; [exact Hlen |]. split; [exact Hmagic |].
  split; [exact Hsize |].
  exact (header_size_rejected 1 Sample.env "in/Song.mid" "out" _ _
           Hfs Hlen Hmagic Hsize).
Defined.

(** ** The walk over the tracks *)

Module WalkFacts.

Import Split StreamFacts HeaderFacts Walk.

Lemma extractTrackName_at (resize_ok : bool) (bytes : list byte)
    (pos trackNumber trackSize : Z) :
  0 <= pos ->
  exists trackName : string,
    Name.extractTrackName resize_ok (mkIstream bytes pos false false)
      trackNumber trackSize
    = Done (trackName, mkIstream bytes pos false false)
    /\ trackName <> EmptyString.
Proof.
  intros Hpos.
  destruct (NameFacts.extractTrackName_returns resize_ok
              (mkIstream bytes pos false false) trackNumber trackSize)
    as [trackName [stream' [Hcall [Hname [Hcontent [Hposition Hgood]]]]]].
  exists trackName. split; [| exact Hname]. rewrite Hcall. do 2 f_equal.
  specialize (Hposition Hpos). specialize (Hgood Hpos eq_refl).
  destruct stream' as [c p e f]. cbn [content position] in *.
  unfold Stream.good in Hgood. cbn [eofbit failbit] in Hgood.
  apply andb_true_iff in Hgood as [He Hf].
  apply negb_true_iff in He, Hf. subst. reflexivity.
Qed.

Lemma nameAt_nonempty (env : environment) (bytes : list byte) (pos i trackSize : Z) :
  0 <= pos -> nameAt env bytes pos i trackSize <> EmptyString.
Proof.
  intros Hpos. unfold nameAt.
  destruct (names_ok env (uint16_t (i + 1))).
  - destruct (extractTrackName_at (resize_ok env (uint16_t (i + 1))) bytes pos
                (uint16_t (i + 1)) trackSize Hpos) as [trackName [Hcall Hname]].
    rewrite Hcall. exact Hname.
  - destruct (i =? 0); [discriminate |].
    apply NameFacts.fallback_nonempty.
Qed.

(** One iteration of the walk over the tracks, by the bytes of the file. *)
Lemma tracksLoop_step (env : environment) (n : nat) (i : Z) (bytes : list byte)
    (pos : Z) (tracks : list Track.TrackInfo) :
  0 <= pos ->
  tracksLoop env (S n) i (mkIstream bytes pos false false) tracks
  = if vsize bytes <? pos + 8 then
      Raised ("Error reading track header " +:+ pretty (i + 1))
    else if negb (String.eqb
                    (string_of_list_byte (take 4 (drop (Z.to_nat pos) bytes)))
                    "MTrk") then
      Raised ("Invalid track header for track " +:+ pretty (i + 1))
    else
      let trackSize := Codec.be_value (take 4 (drop (Z.to_nat (pos + 4)) bytes)) in
      tracksLoop env n (uint16_t (i + 1))
        (mkIstream bytes (pos + 8 + trackSize) false false)
        (tracks ++ [Track.mk (uint16_t (i + 1))
                      (nameAt env bytes (pos + 8) i trackSize) trackSize pos]).
Proof.
  intros Hpos. cbn [tracksLoop].
  unfold Stream.tellg at 1. cbn [Stream.good eofbit failbit negb andb position].
  replace (pos =? -1) with false by (symmetry; apply Z.eqb_neq; lia).
  destruct (Z.ltb_spec (vsize bytes) (pos + 8)) as [Hshort | Hfit].
  { pose proof (read_short (mkIstream bytes pos false false) 8 eq_refl
                  ltac:(unfold Stream.available; cbn [position content]; lia))
      as Hfail.
    destruct (Stream.read (mkIstream bytes pos false false) 8) as [trackHeader file].
    cbn [snd] in Hfail. rewrite Hfail. reflexivity. }
  rewrite read_ok;
    [| reflexivity | lia | cbn [position]; lia
     | unfold Stream.available; cbn [position content]; lia].
  cbn [position content]. change (Z.to_nat 8) with 8%nat.
  unfold Stream.fail at 1. cbn [failbit orb].
  set (rest := drop (Z.to_nat pos) bytes).
  assert (Hrest : (8 <= length rest)%nat)
    by (unfold rest; rewrite length_drop; unfold vsize in Hfit; lia).
  assert (H8 : vsize (take 8 rest) = 8)
    by (unfold vsize; rewrite length_take; lia).
  rewrite H8. change (8 =? 8) with true. cbn [negb].
  rewrite take_take. change (4 `min` 8)%nat with 4%nat.
  destruct (negb (String.eqb (string_of_list_byte (take 4 rest)) "MTrk"));
    [reflexivity |].
  rewrite (DecoderFacts.bytesToUInt32_fit (take 8 rest) 4)
    by (try rewrite H8; unfold SIZE_MAX; lia).
  cbn [mbind outcome_bind]. change (Z.to_nat 4) with 4%nat.
  rewrite (take_drop_take rest 4 4 8) by lia.
  replace (drop 4 rest) with (drop (Z.to_nat (pos + 4)) bytes)
    by (unfold rest; rewrite drop_drop; f_equal; lia).
  cbv zeta.
  set (trackSize := Codec.be_value (take 4 (drop (Z.to_nat (pos + 4)) bytes))).
  assert (Hsize : 0 <= trackSize < 2 ^ 32).
  { unfold trackSize.
    destruct (take 4 (drop (Z.to_nat (pos + 4)) bytes)) as [| b0 [| b1 [| b2 [| b3 l]]]] eqn:E.
    all: apply (f_equal length) in E; rewrite length_take, length_drop in E;
      unfold vsize in Hfit; cbn [length] in E; try lia.
    destruct l; [| cbn [length] in E; lia].
    apply CodecFacts.be_value_4_range. }
  destruct (extractTrackName_at (resize_ok env (uint16_t (i + 1))) bytes (pos + 8)
              (uint16_t (i + 1)) trackSize ltac:(lia)) as [trackName [Hcall Hname]].
  unfold nameAt. rewrite Hcall. cbn [mbind outcome_bind fst snd].
  unfold Stream.seekg_cur, Stream.fail. cbn [failbit position content].
  replace (pos + 8 + trackSize <? 0) with false by (symmetry; apply Z.ltb_ge; lia).
  cbn [failbit]. reflexivity.
Qed.

Lemma counter_small (n : nat) (i : Z) :
  0 <= i -> i + Z.of_nat n < 2 ^ 16 -> counter n i = i + Z.of_nat n.
Proof.
  unfold counter. induction n as [| n IH]; intros H0 Hn; [cbn; lia |].
  rewrite Nat.iter_succ, IH by lia. rewrite uint16_t_small by lia. lia.
Qed.

(** A walk of [n + m] iterations is a walk of [n] followed by one of [m]. *)
Lemma tracksLoop_add (env : environment) (m : nat) :
  forall (n : nat) (i : Z) (file : istream) (tracks : list Track.TrackInfo)
         (tracks' : list Track.TrackInfo) (file' : istream),
    tracksLoop env n i file tracks = Done (tracks', file') ->
    tracksLoop env (n + m) i file tracks
    = tracksLoop env m (counter n i) file' tracks'.
Proof.
  induction n as [| n IH]; intros i file tracks tracks' file' Hrun.
  { cbn in Hrun. injection Hrun as <- <-. reflexivity. }
  change (S n + m)%nat with (S (n + m)).
  cbn [tracksLoop] in Hrun |- *.
  destruct (Stream.tellg file) as [trackStartPos file1].
  destruct (trackStartPos =? -1); [discriminate |].
  destruct (Stream.read file1 8) as [trackHeader file2].
  destruct (Stream.fail file2 || negb (vsize trackHeader =? 8)); [discriminate |].
  destruct (negb (String.eqb (string_of_list_byte (take 4 trackHeader)) "MTrk"));
    [discriminate |].
  destruct (Codec.bytesToUInt32 trackHeader 4) as [trackSize | | |];
    cbn [mbind outcome_bind] in Hrun |- *; try discriminate.
  destruct (Name.extractTrackName _ _ _ _) as [r | | |];
    cbn [mbind outcome_bind] in Hrun |- *; try discriminate.
  destruct (Stream.fail (Stream.seekg_cur (snd r) trackSize)); [discriminate |].
  rewrite (IH _ _ _ _ _ Hrun). unfold counter. rewrite Nat.iter_succ_r.
  reflexivity.
Qed.

End WalkFacts.

Module ChainFacts.

Import Split StreamFacts HeaderFacts WalkFacts Walk.

Lemma be_value_4_bytes (l : list byte) :
  length l = 4%nat -> 0 <= Codec.be_value l < 2 ^ 32.
Proof.
  destruct l as [| b0 [| b1 [| b2 [| b3 [| b4 l]]]]]; try discriminate.
  intros _. apply CodecFacts.be_value_4_range.
Qed.

Lemma be_value_2_bytes (l : list byte) :
  length l = 2%nat -> 0 <= Codec.be_value l < 2 ^ 16.
Proof.
  destruct l as [| b0 [| b1 [| b2 l]]]; try discriminate.
  intros _. apply CodecFacts.be_value_2_range.
Qed.

Lemma tag_of_eqb (l : list byte) (tag : string) :
  negb (String.eqb (string_of_list_byte l) tag) = false ->
  l = list_byte_of_string tag.
Proof.
  intros H. apply negb_false_iff, String.eqb_eq in H. rewrite <- H.
  symmetry. apply list_byte_of_string_of_list_byte.
Qed.

Lemma tracksLoop_chained (env : environment) (bytes : list byte) :
  forall (n : nat) (i pos : Z) (tracks tracks' : list Track.TrackInfo)
         (file' : istream),
    0 <= pos -> 0 <= i -> i + Z.of_nat n < 2 ^ 16 ->
    tracksLoop env n i (mkIstream bytes pos false false) tracks
    = Done (tracks', file') ->
    exists found : list Track.TrackInfo,
      tracks' = tracks ++ found
      /\ length found = n
      /\ chained bytes i pos found
      /\ file' = mkIstream bytes (pos + extent found) false false.
Proof.
  induction n as [| n IH]; intros i pos tracks tracks' file' Hpos Hi Hn Hrun.
  { cbn in Hrun. injection Hrun as <- <-. exists [].
    rewrite app_nil_r. cbn [extent]. rewrite Z.add_0_r. repeat split. }
  rewrite tracksLoop_step in Hrun by exact Hpos.
  destruct (Z.ltb_spec (vsize bytes) (pos + 8)) as [Hshort | Hfit];
    [discriminate |].
  destruct (negb (String.eqb _ "MTrk")) eqn:Htag; [discriminate |].
  apply tag_of_eqb in Htag. cbv zeta in Hrun.
  set (trackSize := Codec.be_value (take 4 (drop (Z.to_nat (pos + 4)) bytes))) in *.
  assert (Hsize : 0 <= trackSize < 2 ^ 32).
  { apply be_value_4_bytes. rewrite length_take, length_drop.
    unfold vsize in Hfit. lia. }
  rewrite (uint16_t_small (i + 1)) in Hrun by lia.
  apply IH in Hrun; [| lia | lia | lia].
  destruct Hrun as [found [Htracks [Hlen [Hchain Hfile]]]].
  exists (Track.mk (i + 1) (nameAt env bytes (pos + 8) i trackSize) trackSize pos
          :: found).
  split; [rewrite Htracks, <- app_assoc; reflexivity |].
  split; [cbn [length]; lia |].
  split.
  - cbn [chained Track.number Track.position Track.size Track.name].
    repeat split; try assumption; try lia.
    apply nameAt_nonempty. lia.
  - rewrite Hfile. cbn [extent Track.size]. f_equal. lia.
Qed.

End ChainFacts.

(** X17. What [readFile] has checked when it accepts a file: the file has its
    14 header bytes with the tag "MThd", header length 6 and format 1; the
    tracks returned are as many as the header declares, numbered from 1,
    the first chunk header at offset 14 and each next one where the
    declared size of the track before it leads; every chunk header is in
    the file with the tag "MTrk" and the size recorded is the one it
    declares; every track has a name; the division is the last two header
    bytes; and the stream is left good after the last declared chunk. *)
Theorem readFile_accepts (env : environment) (bytes division : list byte)
    (tracks : list Track.TrackInfo) (file : istream) :
  Split.readFile env (mkIstream bytes 0 false false) = Done (division, tracks, file) ->
  14 <= vsize bytes
  /\ take 4 bytes = list_byte_of_string "MThd"
  /\ Codec.be_value (take 4 (drop 4 bytes)) = 6
  /\ Codec.be_value (take 2 (drop 8 bytes)) = 1
  /\ vsize tracks = Codec.be_value (take 2 (drop 10 bytes))
  /\ division = take 2 (drop 12 bytes)
  /\ Walk.chained bytes 0 14 tracks
  /\ file = mkIstream bytes (14 + Walk.extent tracks) false false.
Proof.
  intros Hread.
  destruct (Z.lt_ge_cases (vsize bytes) 14) as [Hshort | Hlen].
  { rewrite (HeaderFacts.readFile_short env bytes Hshort) in Hread. discriminate. }
  rewrite (HeaderFacts.readFile_header env bytes Hlen) in Hread.
  destruct (negb (String.eqb _ "MThd")) eqn:Hmagic; [discriminate |].
  apply ChainFacts.tag_of_eqb in Hmagic.
  destruct (Z.eqb_spec (Codec.be_value (take 4 (drop 4 bytes))) 6) as [Hsize | Hsize];
    cbn [negb] in Hread; [| discriminate].
  destruct (Z.eqb_spec (Codec.be_value (take 2 (drop 8 bytes))) 1) as [Hformat | Hformat];
    cbn [negb] in Hread; [| discriminate].
  assert (Htotal : 0 <= Codec.be_value (take 2 (drop 10 bytes)) < 2 ^ 16).
  { apply ChainFacts.be_value_2_bytes. rewrite length_take, length_drop.
    unfold vsize in Hlen. lia. }
  destruct (Split.tracksLoop env _ 0 (mkIstream bytes 14 false false) [])
    as [[tracks' file'] | | |] eqn:Hloop; cbn [mbind outcome_bind] in Hread;
    try discriminate.
  cbn [fst snd] in Hread. injection Hread as <- <- <-.
  apply ChainFacts.tracksLoop_chained in Hloop; [| lia | lia | lia].
  destruct Hloop as [found [Htracks [Hcount [Hchain Hfile]]]].
  cbn [app] in Htracks. subst tracks'.
  repeat split; try assumption.
  unfold vsize. rewrite Hcount. lia.
Qed.

Lemma readFile_accepts_witness :
  let tracks := [Track.mk 1 "Bass" 12 14; Track.mk 2 "Bass" 12 34] in
  let file := mkIstream Sample.twoBass 54 false false in
  Split.readFile Sample.env (mkIstream Sample.twoBass 0 false false)
  = Done ([x01; xe0], tracks, file)
  /\ 14 <= vsize Sample.twoBass
  /\ take 4 Sample.twoBass = list_byte_of_string "MThd"
  /\ Codec.be_value (take 4 (drop 4 Sample.twoBass)) = 6
  /\ Codec.be_value (take 2 (drop 8 Sample.twoBass)) = 1
  /\ vsize tracks = Codec.be_value (take 2 (drop 10 Sample.twoBass))
  /\ [x01; xe0] = take 2 (drop 12 Sample.twoBass)
  /\ Walk.chained Sample.twoBass 0 14 tracks
  /\ file = mkIstream Sample.twoBass (14 + Walk.extent tracks) false false.
Proof.
  cbv zeta.
  assert (Hread : Split.readFile Sample.env (mkIstream Sample.twoBass 0 false false)
                  = Done ([x01; xe0],
                          [Track.mk 1 "Bass" 12 14; Track.mk 2 "Bass" 12 34],
                          mkIstream Sample.twoBass 54 false false))
    by (vm_compute; reflexivity).
  split; [exact Hread |].
  exact (readFile_accepts Sample.env Sample.twoBass _ _ _ Hread).
Defined.

Module DeclaredFacts.

Import Split StreamFacts HeaderFacts WalkFacts Layout LayoutFacts.

(** The header checks pass on a Format 1 header that declares [n] tracks,
    whatever follows it. *)
Lemma readFile_declared (env : environment) (n : Z) (d0 d1 : byte)
    (rest : list byte) :
  0 <= n < 2 ^ 16 ->
  readFile env (mkIstream (header n d0 d1 ++ rest) 0 false false)
  = r ← tracksLoop env (Z.to_nat n) 0
          (mkIstream (header n d0 d1 ++ rest) 14 false false) [];
    Done ([d0; d1], fst r, snd r).
Proof.
  intros Hn. pose proof (vsize_nonneg rest) as Hrest.
  assert (Hlen : vsize (header n d0 d1 ++ rest) = 14 + vsize rest)
    by (rewrite vsize_app, vsize_header; reflexivity).
  rewrite readFile_header by lia.
  rewrite (take_app_le (header n d0 d1) rest 4) by (cbn; lia).
  change (string_of_list_byte (take 4 (header n d0 d1))) with "MThd"%string.
  rewrite String.eqb_refl. cbn [negb].
  assert (Hfield : forall k p : nat, (p + k <= 14)%nat ->
            take k (drop p (header n d0 d1 ++ rest)) = take k (drop p (header n d0 d1))).
  { intros k p Hkp.
    rewrite drop_app_le by (change (length (header n d0 d1)) with 14%nat; lia).
    apply take_app_le. rewrite length_drop.
    change (length (header n d0 d1)) with 14%nat. lia. }
  rewrite (Hfield 4 4)%nat, (Hfield 2 8)%nat, (Hfield 2 10)%nat, (Hfield 2 12)%nat
    by lia.
  pose proof (header_size n d0 d1) as H4.
  rewrite (DecoderFacts.bytesToUInt32_fit (header n d0 d1) 4) in H4
    by (try rewrite vsize_header; unfold SIZE_MAX; lia).
  change (Z.to_nat 4) with 4%nat in H4.
  replace (Codec.be_value (take 4 (drop 4 (header n d0 d1)))) with 6 by congruence.
  change (6 =? 6) with true. cbn [negb].
  pose proof (header_format n d0 d1) as H8.
  rewrite (DecoderFacts.bytesToUInt16_fit (header n d0 d1) 8) in H8
    by (try rewrite vsize_header; unfold SIZE_MAX; lia).
  change (Z.to_nat 8) with 8%nat in H8.
  replace (Codec.be_value (take 2 (drop 8 (header n d0 d1)))) with 1 by congruence.
  change (1 =? 1) with true. cbn [negb].
  pose proof (header_tracks n d0 d1 Hn) as H10.
  rewrite (DecoderFacts.bytesToUInt16_fit (header n d0 d1) 10) in H10
    by (try rewrite vsize_header; unfold SIZE_MAX; lia).
  change (Z.to_nat 10) with 10%nat in H10.
  replace (Codec.be_value (take 2 (drop 10 (header n d0 d1)))) with n by congruence.
  reflexivity.
Qed.

(** The walk over a file that declares [n] tracks and holds the chunks of
    [payloads], fewer than [n], followed by [post]: the chunks there are
    walked, and the walk goes on at [post]. *)
Lemma readFile_prefix (env : environment) (n : Z) (d0 d1 : byte)
    (payloads : list (list byte)) (post : list byte) :
  let bytes := header n d0 d1 ++ concat (chunk <$> payloads) ++ post in
  vsize payloads < n < 2 ^ 16 ->
  vsize bytes <= SIZE_MAX ->
  Forall (fun payload => 8 + vsize payload < 2 ^ 32) payloads ->
  readFile env (mkIstream bytes 0 false false)
  = r ← tracksLoop env (S (Z.to_nat (n - vsize payloads - 1))) (vsize payloads)
          (mkIstream bytes (14 + vsize (concat (chunk <$> payloads))) false false)
          (tracksFrom env 0 14 payloads);
    Done ([d0; d1], fst r, snd r).
Proof.
  intros bytes Hn Hmax Hall. pose proof (vsize_nonneg payloads) as Hk.
  unfold bytes. rewrite readFile_declared by lia. fold bytes.
  replace (Z.to_nat n)
    with (length payloads + S (Z.to_nat (n - vsize payloads - 1)))%nat
    by (unfold vsize in *; lia).
  pose proof (tracksLoop_layout env payloads 0 (header n d0 d1) post []) as Hloop.
  cbv zeta in Hloop. fold bytes in Hloop.
  specialize (Hloop ltac:(lia) ltac:(lia) Hmax Hall).
  rewrite vsize_header in Hloop.
  cbn [app] in Hloop.
  rewrite (tracksLoop_add env _ _ _ _ _ _ _ Hloop).
  rewrite counter_small by (unfold vsize in Hn; lia). reflexivity.
Qed.

End DeclaredFacts.

(** X18. A file that declares more tracks than it holds: after the chunks
    that are there, with fewer than eight bytes left, the run stops with
    "Error reading track header" and the number of the first track that is
    missing, and nothing is written, not even the tracks that are there. *)
Theorem missing_track_rejected (fuel : nat) (env : environment)
    (inputFile outputDir : string) (fs : filesystem)
    (n : Z) (d0 d1 : byte) (payloads : list (list byte)) (post : list byte) :
  let bytes := Layout.header n d0 d1 ++ concat (Layout.chunk <$> payloads) ++ post in
  fs !! c_str inputFile = Some bytes ->
  vsize payloads < n < 2 ^ 16 ->
  vsize bytes <= SIZE_MAX ->
  Forall (fun payload => 8 + vsize payload < 2 ^ 32) payloads ->
  vsize post < 8 ->
  Split.splitMIDIFile fuel env inputFile outputDir fs
  = (Raised ("Error reading track header " +:+ pretty (vsize payloads + 1)), fs).
Proof.
  intros bytes Hfs Hn Hmax Hall Hpost. unfold Split.splitMIDIFile. rewrite Hfs.
  unfold bytes.
  rewrite (DeclaredFacts.readFile_prefix env n d0 d1 payloads post Hn Hmax Hall).
  fold bytes.
  pose proof (vsize_nonneg (concat (Layout.chunk <$> payloads))) as Hc.
  rewrite WalkFacts.tracksLoop_step by lia.
  replace (vsize bytes <? 14 + vsize (concat (Layout.chunk <$> payloads)) + 8)
    with true.
  2:{ symmetry. apply Z.ltb_lt. unfold bytes.
      rewrite !vsize_app, LayoutFacts.vsize_header. lia. }
  reflexivity.
Qed.

Lemma missing_track_rejected_witness :
  let bytes :=
    Layout.header 2 x01 xe0 ++ concat (Layout.chunk <$> [Sample.bass]) ++ [] in
  Sample.onlyInput bytes !! c_str "in/Song.mid" = Some bytes
  /\ vsize [Sample.bass] < 2 < 2 ^ 16
  /\ vsize bytes <= SIZE_MAX
  /\ Forall (fun payload => 8 + vsize payload < 2 ^ 32) [Sample.bass]
  /\ vsize (@nil byte) < 8
  /\ Split.splitMIDIFile 1 Sample.env "in/Song.mid" "out" (Sample.onlyInput bytes)
     = (Raised ("Error reading track header " +:+ pretty (vsize [Sample.bass] + 1)),
        Sample.onlyInput bytes).
Proof.
  cbv zeta.
  set (bytes := Layout.header 2 x01 xe0
                ++ concat (Layout.chunk <$> [Sample.bass]) ++ []).
  assert (Hfs : Sample.onlyInput bytes !! c_str "in/Song.mid" = Some bytes)
    by (vm_compute; reflexivity).
  assert (Hn : vsize [Sample.bass] < 2 < 2 ^ 16) by (split; vm_compute; reflexivity).
  assert (Hmax : vsize bytes <= SIZE_MAX) by (vm_compute; discriminate).
  assert (Hall : Forall (fun payload => 8 + vsize payload < 2 ^ 32) [Sample.bass])
    by (repeat constructor).
  assert (Hpost : vsize (@nil byte) < 8) by (vm_compute; reflexivity).
  split; [exact Hfs |]. split; [exact Hn |]. split; [exact Hmax |].
  split; [exact Hall |]. split; [exact Hpost |].
  exact (missing_track_rejected 1 Sample.env "in/Song.mid" "out" _ 2 x01 xe0
           [Sample.bass] [] Hfs Hn Hmax Hall Hpost).
Defined.

(** X19. A file that declares more tracks than it holds chunks: after the
    chunks that are there, with eight bytes or more that do not begin with
    "MTrk", the run stops with "Invalid track header for track" and the
    number of that track, and nothing is written. *)
Theorem invalid_track_rejected (fuel : nat) (env : environment)
    (inputFile outputDir : string) (fs : filesystem)
    (n : Z) (d0 d1 : byte) (payloads : list (list byte)) (post : list byte) :
  let bytes := Layout.header n d0 d1 ++ concat (Layout.chunk <$> payloads) ++ post in
  fs !! c_str inputFile = Some bytes ->
  vsize payloads < n < 2 ^ 16 ->
  vsize bytes <= SIZE_MAX ->
  Forall (fun payload => 8 + vsize payload < 2 ^ 32) payloads ->
  8 <= vsize post ->
  take 4 post <> list_byte_of_string "MTrk" ->
  Split.splitMIDIFile fuel env inputFile outputDir fs
  = (Raised ("Invalid track header for track " +:+ pretty (vsize payloads + 1)), fs).
Proof.
  intros bytes Hfs Hn Hmax Hall Hpost Htag. unfold Split.splitMIDIFile. rewrite Hfs.
  unfold bytes.
  rewrite (DeclaredFacts.readFile_prefix env n d0 d1 payloads post Hn Hmax Hall).
  fold bytes.
  pose proof (vsize_nonneg (concat (Layout.chunk <$> payloads))) as Hc.
  rewrite WalkFacts.tracksLoop_step by lia.
  replace (vsize bytes <? 14 + vsize (concat (Layout.chunk <$> payloads)) + 8)
    with false.
  2:{ symmetry. apply Z.ltb_ge. unfold bytes.
      rewrite !vsize_app, LayoutFacts.vsize_header. lia. }
  replace (drop (Z.to_nat (14 + vsize (concat (Layout.chunk <$> payloads)))) bytes)
    with post.
  2:{ unfold bytes. rewrite app_assoc. rewrite drop_app_length'; [reflexivity |].
      rewrite length_app. change (length (Layout.header n d0 d1)) with 14%nat.
      unfold vsize. lia. }
  rewrite (HeaderFacts.tag_eqb_false _ _ Htag). reflexivity.
Qed.

Lemma invalid_track_rejected_witness :
  let bytes :=
    Layout.header 2 x01 xe0 ++ concat (Layout.chunk <$> [Sample.bass])
    ++ Sample.bass in
  Sample.onlyInput bytes !! c_str "in/Song.mid" = Some bytes
  /\ vsize [Sample.bass] < 2 < 2 ^ 16
  /\ vsize bytes <= SIZE_MAX
  /\ Forall (fun payload => 8 + vsize payload < 2 ^ 32) [Sample.bass]
  /\ 8 <= vsize Sample.bass
  /\ take 4 Sample.bass <> list_byte_of_string "MTrk"
  /\ Split.splitMIDIFile 1 Sample.env "in/Song.mid" "out" (Sample.onlyInput bytes)
     = (Raised ("Invalid track header for track " +:+ pretty (vsize [Sample.bass] + 1)),
        Sample.onlyInput bytes).
Proof.
  cbv zeta.
  set (bytes := Layout.header 2 x01 xe0
                ++ concat (Layout.chunk <$> [Sample.bass]) ++ Sample.bass).
  assert (Hfs : Sample.onlyInput bytes !! c_str "in/Song.mid" = Some bytes)
    by (vm_compute; reflexivity).
  assert (Hn : vsize [Sample.bass] < 2 < 2 ^ 16) by (split; vm_compute; reflexivity).
  assert (Hmax : vsize bytes <= SIZE_MAX) by (vm_compute; discriminate).
  assert (Hall : Forall (fun payload => 8 + vsize payload < 2 ^ 32) [Sample.bass])
    by (repeat constructor).
  assert (Hpost : 8 <= vsize Sample.bass) by (vm_compute; discriminate).
  assert (Htag : take 4 Sample.bass <> list_byte_of_string "MTrk")
    by (vm_compute; discriminate).
  split; [exact Hfs |]. split; [exact Hn |]. split; [exact Hmax |].
  split; [exact Hall |]. split; [exact Hpost |]. split; [exact Htag |].
  exact (invalid_track_rejected 1 Sample.env "in/Song.mid" "out" _ 2 x01 xe0
           [Sample.bass] Sample.bass Hfs Hn Hmax Hall Hpost Htag).
Defined.

(** ** The errors of a run *)

Module ErrorFacts.

Import Split StreamFacts HeaderFacts WalkFacts Walk Run.


Lemma chained_positions (bytes : list byte) :
  forall (tracks : list Track.TrackInfo) (i pos : Z),
    0 <= pos ->
    (forall l : list byte, length l = 4%nat -> 0 <= Codec.be_value l) ->
    chained bytes i pos tracks ->
    Forall (fun track => 0 <= Track.position track) tracks.
Proof.
  induction tracks as [| track rest IH]; intros i pos Hpos Hval Hchain;
    [constructor |].
  cbn [chained] in Hchain.
  destruct Hchain as (_ & Hp & Hfit & _ & Hsize & _ & Hrest).
  constructor; [lia |].
  apply (IH (i + 1) (pos + 8 + Track.size track)); [| exact Hval | exact Hrest].
  assert (0 <= Track.size track).
  { rewrite Hsize. apply Hval. rewrite length_take, length_drop.
    unfold vsize in Hfit. lia. }
  lia.
Qed.

Lemma readFile_found (env : environment) (bytes division : list byte)
    (tracks : list Track.TrackInfo) (file : istream) :
  readFile env (mkIstream bytes 0 false false) = Done (division, tracks, file) ->
  14 <= vsize bytes
  /\ vsize tracks = Codec.be_value (take 2 (drop 10 bytes))
  /\ Forall (fun track => 0 <= Track.position track) tracks.
Proof.
  intros Hread.
  destruct (Z.lt_ge_cases (vsize bytes) 14) as [Hshort | Hlen].
  { rewrite (readFile_short env bytes Hshort) in Hread. discriminate. }
  rewrite (readFile_header env bytes Hlen) in Hread.
  destruct (negb (String.eqb _ "MThd")); [discriminate |].
  destruct (negb (_ =? 6)); [discriminate |].
  destruct (negb (_ =? 1)); [discriminate |].
  assert (Htotal : 0 <= Codec.be_value (take 2 (drop 10 bytes)) < 2 ^ 16).
  { apply ChainFacts.be_value_2_bytes. rewrite length_take, length_drop.
    unfold vsize in Hlen. lia. }
  destruct (tracksLoop env _ 0 (mkIstream bytes 14 false false) [])
    as [[tracks' file'] | | |] eqn:Hloop; cbn [mbind outcome_bind] in Hread;
    try discriminate.
  cbn [fst snd] in Hread. injection Hread as <- <- <-.
  apply ChainFacts.tracksLoop_chained in Hloop; [| lia | lia | lia].
  destruct Hloop as [found [Htracks [Hcount [Hchain _]]]].
  cbn [app] in Htracks. subst tracks'.
  split; [exact Hlen |]. split; [unfold vsize; rewrite Hcount; lia |].
  apply (chained_positions bytes found 0 14); [lia | | exact Hchain].
  intros l Hl. apply ChainFacts.be_value_4_bytes. exact Hl.
Qed.



End ErrorFacts.



(** ** The outcome of a run *)

Module FuelFacts.

Import Split.

Lemma existsLoop_fuel (fs : filesystem) (outputPath baseName safeTrackName : string)
    (counter : Z) (outputFile : string) (fuel fuel' : nat) :
  existsLoop (S fuel) fs outputPath baseName safeTrackName counter outputFile
  = existsLoop (S fuel') fs outputPath baseName safeTrackName counter outputFile.
Proof.
  cbn [existsLoop]. destruct (exists_ fs outputPath) eqn:Hex; [| reflexivity].
  rewrite !(SplitFacts.existsLoop_spins _ _ _ _ _ Hex). reflexivity.
Qed.

Lemma writeTrack_fuel (fuel fuel' : nat) (env : environment)
    (baseName outputDir : string) (header : list byte)
    (track : Track.TrackInfo) (file : istream) (fs : filesystem) :
  writeTrack (S fuel) env baseName outputDir header track file fs
  = writeTrack (S fuel') env baseName outputDir header track file fs.
Proof.
  unfold writeTrack. rewrite (existsLoop_fuel _ _ _ _ _ _ fuel fuel'). reflexivity.
Qed.

Lemma writeLoop_fuel (fuel fuel' : nat) (env : environment)
    (baseName outputDir : string) (header : list byte) :
  forall (tracks : list Track.TrackInfo) (file : istream) (splitCount : Z)
         (fs : filesystem),
    writeLoop (S fuel) env baseName outputDir header tracks file splitCount fs
    = writeLoop (S fuel') env baseName outputDir header tracks file splitCount fs.
Proof.
  induction tracks as [| track rest IH]; intros file splitCount fs; [reflexivity |].
  cbn [writeLoop]. rewrite (writeTrack_fuel fuel fuel').
  destruct (writeTrack (S fuel') env baseName outputDir header track file fs)
    as [[file' | what | |] fs']; try reflexivity.
  apply IH.
Qed.

Lemma writeLoop_count (fuel : nat) (env : environment)
    (baseName outputDir : string) (header : list byte) :
  forall (tracks : list Track.TrackInfo) (file : istream) (splitCount : Z)
         (fs : filesystem) (count : Z),
    fst (writeLoop fuel env baseName outputDir header tracks file splitCount fs)
    = Done count ->
    count = splitCount + vsize tracks.
Proof.
  induction tracks as [| track rest IH]; intros file splitCount fs count.
  - cbn [writeLoop fst]. intros [= <-]. change (vsize []) with 0. lia.
  - cbn [writeLoop].
    destruct (writeTrack fuel env baseName outputDir header track file fs)
      as [[file' | what | |] fs']; cbn [fst abort]; try discriminate.
    intros Hrun. apply IH in Hrun. unfold vsize in *. cbn [length]. lia.
Qed.

End FuelFacts.

(** X21. The loop at lines 333-335 runs not at all or for ever: what a run
    does is the same for every positive bound on the iterations of the
    loop, so a run that has not returned within one bound has not returned
    within any, and a run that returns never went round the loop. *)
Theorem collision_loop_all_or_nothing (fuel fuel' : nat) (env : environment)
    (inputFile outputDir : string) (fs : filesystem) :
  Split.splitMIDIFile (S fuel) env inputFile outputDir fs
  = Split.splitMIDIFile (S fuel') env inputFile outputDir fs.
Proof.
  unfold Split.splitMIDIFile.
  destruct (fs !! c_str inputFile) as [bytes |]; [| reflexivity].
  destruct (Split.readFile env (mkIstream bytes 0 false false))
    as [[[division tracks] file] | what | |]; try reflexivity.
  apply FuelFacts.writeLoop_fuel.
Qed.

(** X22. The number a run reports when it succeeds is the number of tracks
    the header of the input declares (the two bytes at offset 10), for every
    input, well formed or not. *)
Theorem success_counts_declared_tracks (fuel : nat) (env : environment)
    (inputFile outputDir : string) (fs : filesystem) (bytes : list byte)
    (count : Z) :
  fs !! c_str inputFile = Some bytes ->
  fst (Split.splitMIDIFile fuel env inputFile outputDir fs) = Done count ->
  14 <= vsize bytes
  /\ count = Codec.be_value (take 2 (drop 10 bytes)).
Proof.
  intros Hfs. unfold Split.splitMIDIFile. rewrite Hfs.
  destruct (Split.readFile env (mkIstream bytes 0 false false))
    as [[[division tracks] file] | what | |] eqn:Hread; cbn [fst Split.abort];
    try discriminate.
  intros Hrun. apply FuelFacts.writeLoop_count in Hrun.
  apply ErrorFacts.readFile_found in Hread as (Hlen & Hcount & _).
  split; [exact Hlen | lia].
Qed.

Lemma success_counts_declared_tracks_witness :
  Sample.onlyInput Sample.oneBass !! c_str "in/Song.mid" = Some Sample.oneBass
  /\ fst (Split.splitMIDIFile 1 Sample.env "in/Song.mid" "out"
            (Sample.onlyInput Sample.oneBass)) = Done 1
  /\ 14 <= vsize Sample.oneBass
  /\ 1 = Codec.be_value (take 2 (drop 10 Sample.oneBass)).
Proof.
  assert (Hfs : Sample.onlyInput Sample.oneBass !! c_str "in/Song.mid"
                = Some Sample.oneBass) by (vm_compute; reflexivity).
  assert (Hrun : fst (Split.splitMIDIFile 1 Sample.env "in/Song.mid" "out"
                        (Sample.onlyInput Sample.oneBass)) = Done 1)
    by (vm_compute; reflexivity).
  split; [exact Hfs |]. split; [exact Hrun |].
  exact (success_counts_declared_tracks 1 Sample.env "in/Song.mid" "out"
           (Sample.onlyInput Sample.oneBass) Sample.oneBass 1 Hfs Hrun).
Defined.

(** ** Files with more or less than their tracks *)

Module TrailingFacts.

Import Split Layout LayoutFacts.

Lemma readFile_trailing (env : environment) (d0 d1 : byte)
    (payloads : list (list byte)) (post : list byte) :
  let bytes := file d0 d1 payloads ++ post in
  vsize payloads < 2 ^ 16 ->
  vsize bytes <= SIZE_MAX ->
  Forall (fun payload => 8 + vsize payload < 2 ^ 32) payloads ->
  readFile env (mkIstream bytes 0 false false)
  = Done ([d0; d1], tracksFrom env 0 14 payloads,
          mkIstream bytes (vsize (file d0 d1 payloads)) false false).
Proof.
  intros bytes Hn Hmax Hall. pose proof (vsize_nonneg payloads) as Hk.
  assert (Hbytes : bytes = header (vsize payloads) d0 d1
                           ++ concat (chunk <$> payloads) ++ post)
    by (unfold bytes, file; rewrite <- app_assoc; reflexivity).
  rewrite Hbytes. rewrite DeclaredFacts.readFile_declared by lia.
  rewrite <- Hbytes.
  unfold vsize at 1. rewrite Nat2Z.id.
  pose proof (tracksLoop_layout env payloads 0 (header (vsize payloads) d0 d1) post [])
    as Hloop.
  cbv zeta in Hloop. rewrite <- Hbytes in Hloop.
  specialize (Hloop ltac:(lia) ltac:(lia) Hmax Hall).
  rewrite vsize_header in Hloop. rewrite Hloop.
  cbn [mbind outcome_bind fst snd app]. unfold file.
  rewrite vsize_app, vsize_header. reflexivity.
Qed.


Lemma single_track_file (d0 d1 : byte) (payload : list byte) :
  outputHeader [d0; d1] ++ chunk payload = file d0 d1 [payload].
Proof.
  unfold file, outputHeader, header. cbn [fmap list_fmap concat].
  rewrite app_nil_r. change (vsize [payload]) with 1.
  rewrite <- !app_assoc. reflexivity.
Qed.

End TrailingFacts.

(** X23. Bytes that follow the last chunk the header declares are not looked
    at: a well-formed file with anything appended is split into the same
    files, with the same bytes, as the file itself. *)
Theorem trailing_bytes_ignored (fuel : nat) (env : environment)
    (inputFile outputDir : string) (fs : filesystem)
    (d0 d1 : byte) (payloads : list (list byte)) (post : list byte) :
  let bytes := Layout.file d0 d1 payloads ++ post in
  let tracks := Layout.tracksFrom env 0 14 payloads in
  let files := Layout.outputs (stem inputFile) outputDir d0 d1 tracks payloads in
  fs !! c_str inputFile = Some bytes ->
  vsize payloads < 2 ^ 16 ->
  vsize bytes <= SIZE_MAX ->
  Forall (fun payload => 8 + vsize payload < 2 ^ 32) payloads ->
  NoDup (Layout.pathOf (stem inputFile) outputDir <$> tracks) ->
  (forall track, track ∈ tracks ->
                 fs !! Layout.pathOf (stem inputFile) outputDir track = None /\
                 can_create env (Layout.pathOf (stem inputFile) outputDir track) = true) ->
  Split.splitMIDIFile (S fuel) env inputFile outputDir fs
  = (Done (vsize payloads), Layout.written fs files).
Proof.
  intros bytes tracks files Hfs Hn Hmax Hall Hnd Hfree.
  rewrite (SplitFacts.splitMIDIFile_read _ _ _ _ _ _ _ _ _ Hfs
             (TrailingFacts.readFile_trailing env d0 d1 payloads post Hn Hmax Hall)).
  pose proof (LayoutFacts.tracksFrom_chunks env payloads 0
                (Layout.header (vsize payloads) d0 d1) post) as Hlayout.
  cbv zeta in Hlayout. rewrite LayoutFacts.vsize_header in Hlayout.
  replace (Layout.header (vsize payloads) d0 d1
           ++ concat (Layout.chunk <$> payloads) ++ post) with bytes in Hlayout
    by (unfold bytes, Layout.file; rewrite <- app_assoc; reflexivity).
  fold tracks in Hlayout. fold bytes. fold tracks.
  rewrite (LayoutFacts.writeLoop_layout fuel env (stem inputFile) outputDir d0 d1
             bytes tracks payloads Hlayout Hall Hnd
             (mkIstream bytes (vsize (Layout.file d0 d1 payloads)) false false)
             0 fs eq_refl Hfree).
  f_equal. f_equal. unfold vsize, tracks.
  rewrite LayoutFacts.length_tracksFrom. lia.
Qed.

Lemma trailing_bytes_ignored_witness :
  let fs := Sample.onlyInput (Layout.file x01 xe0 Sample.silentAndBass ++ Sample.bass) in
  let tracks := Layout.tracksFrom Sample.env 0 14 Sample.silentAndBass in
  fs !! c_str "in/Song.mid"
  = Some (Layout.file x01 xe0 Sample.silentAndBass ++ Sample.bass)
  /\ vsize Sample.silentAndBass < 2 ^ 16
  /\ vsize (Layout.file x01 xe0 Sample.silentAndBass ++ Sample.bass) <= SIZE_MAX
  /\ Forall (fun payload => 8 + vsize payload < 2 ^ 32) Sample.silentAndBass
  /\ NoDup (Layout.pathOf (stem "in/Song.mid") "out" <$> tracks)
  /\ (forall track, track ∈ tracks ->
        fs !! Layout.pathOf (stem "in/Song.mid") "out" track = None /\
        can_create Sample.env (Layout.pathOf (stem "in/Song.mid") "out" track) = true)
  /\ Split.splitMIDIFile 1 Sample.env "in/Song.mid" "out" fs
     = (Done (vsize Sample.silentAndBass),
        Layout.written fs
          (Layout.outputs (stem "in/Song.mid") "out" x01 xe0 tracks
             Sample.silentAndBass)).
Proof.
  cbv zeta.
  set (fs := Sample.onlyInput (Layout.file x01 xe0 Sample.silentAndBass ++ Sample.bass)).
  assert (Hfs : fs !! c_str "in/Song.mid"
                = Some (Layout.file x01 xe0 Sample.silentAndBass ++ Sample.bass))
    by (vm_compute; reflexivity).
  assert (Hn : vsize Sample.silentAndBass < 2 ^ 16) by (vm_compute; reflexivity).
  assert (Hmax : vsize (Layout.file x01 xe0 Sample.silentAndBass ++ Sample.bass)
                 <= SIZE_MAX)
    by (vm_compute; discriminate).
  assert (Hall : Forall (fun payload => 8 + vsize payload < 2 ^ 32)
                   Sample.silentAndBass)
    by (repeat constructor).
  assert (Hnd : NoDup (Layout.pathOf (stem "in/Song.mid") "out"
                         <$> Layout.tracksFrom Sample.env 0 14 Sample.silentAndBass))
    by (apply (bool_decide_unpack _); vm_compute; exact I).
  assert (Hfree : forall track,
             track ∈ Layout.tracksFrom Sample.env 0 14 Sample.silentAndBass ->
             fs !! Layout.pathOf (stem "in/Song.mid") "out" track = None /\
             can_create Sample.env (Layout.pathOf (stem "in/Song.mid") "out" track)
             = true).
  { intros track Hin. split; [| reflexivity].
    vm_compute in Hin.
    apply elem_of_cons in Hin as [-> | Hin]; [vm_compute; reflexivity |].
    apply elem_of_cons in Hin as [-> | Hin]; [vm_compute; reflexivity |].
    apply elem_of_nil in Hin. contradiction. }
  split; [exact Hfs |]. split; [exact Hn |]. split; [exact Hmax |].
  split; [exact Hall |]. split; [exact Hnd |]. split; [exact Hfree |].
  exact (trailing_bytes_ignored 0 Sample.env "in/Song.mid" "out" fs x01 xe0
           Sample.silentAndBass Sample.bass Hfs Hn Hmax Hall Hnd Hfree).
Defined.

(** X24. A file the splitter writes for a track of a well-formed input, the
    output header followed by the chunk, is a Format 1 file of one track;
    splitting such a file writes one file with the very same bytes. *)
Theorem single_track_file_reproduced (fuel : nat) (env : environment)
    (inputFile outputDir : string) (fs : filesystem)
    (d0 d1 : byte) (payload : list byte) :
  let bytes := Split.outputHeader [d0; d1] ++ Layout.chunk payload in
  let track := Track.mk 1 (Layout.trackName env 1 payload) (vsize payload) 14 in
  let path := Layout.pathOf (stem inputFile) outputDir track in
  fs !! c_str inputFile = Some bytes ->
  8 + vsize payload < 2 ^ 32 ->
  fs !! path = None ->
  can_create env path = true ->
  bytes = Layout.file d0 d1 [payload]
  /\ Split.splitMIDIFile (S fuel) env inputFile outputDir fs
     = (Done 1, <[path := bytes]> fs).
Proof.
  intros bytes track path Hfs Hsize Hnone Hcreate.
  assert (Hfile : bytes = Layout.file d0 d1 [payload])
    by apply TrailingFacts.single_track_file.
  split; [exact Hfile |].
  rewrite Hfile in Hfs.
  pose proof (vsize_nonneg payload) as Hp.
  assert (Hmax : vsize (Layout.file d0 d1 [payload]) <= SIZE_MAX).
  { rewrite <- Hfile. unfold bytes.
    rewrite vsize_app, LayoutFacts.vsize_chunk.
    change (vsize (Split.outputHeader [d0; d1])) with 14. unfold SIZE_MAX. lia. }
  destruct (LayoutFacts.splitMIDIFile_lossless fuel env inputFile outputDir fs
              d0 d1 [payload] Hfs ltac:(reflexivity) Hmax
              ltac:(repeat constructor; exact Hsize)) as [Hrun _].
  - cbn [Layout.tracksFrom fmap list_fmap]. repeat constructor; set_solver.
  - intros other Hother. cbn [Layout.tracksFrom] in Hother.
    apply list_elem_of_singleton in Hother. subst other.
    split; [exact Hnone | exact Hcreate].
  - rewrite Hrun. reflexivity.
Qed.

Lemma single_track_file_reproduced_witness :
  let bytes := Split.outputHeader [x01; xe0] ++ Layout.chunk Sample.bass in
  let track := Track.mk 1 (Layout.trackName Sample.env 1 Sample.bass)
                 (vsize Sample.bass) 14 in
  let path := Layout.pathOf (stem "in/Song - Bass.mid") "out" track in
  let fs : filesystem := {[ "in/Song - Bass.mid" := bytes ]} in
  fs !! c_str "in/Song - Bass.mid" = Some bytes
  /\ 8 + vsize Sample.bass < 2 ^ 32
  /\ fs !! path = None
  /\ can_create Sample.env path = true
  /\ bytes = Layout.file x01 xe0 [Sample.bass]
  /\ Split.splitMIDIFile 1 Sample.env "in/Song - Bass.mid" "out" fs
     = (Done 1, <[path := bytes]> fs).
Proof.
  cbv zeta.
  set (bytes := Split.outputHeader [x01; xe0] ++ Layout.chunk Sample.bass).
  set (fs := {[ "in/Song - Bass.mid" := bytes ]} : filesystem).
  assert (Hfs : fs !! c_str "in/Song - Bass.mid" = Some bytes)
    by (vm_compute; reflexivity).
  assert (Hsize : 8 + vsize Sample.bass < 2 ^ 32) by (vm_compute; reflexivity).
  assert (Hnone : fs !! Layout.pathOf (stem "in/Song - Bass.mid") "out"
                          (Track.mk 1 (Layout.trackName Sample.env 1 Sample.bass)
                             (vsize Sample.bass) 14) = None)
    by (vm_compute; reflexivity).
  assert (Hcreate : can_create Sample.env
                      (Layout.pathOf (stem "in/Song - Bass.mid") "out"
                         (Track.mk 1 (Layout.trackName Sample.env 1 Sample.bass)
                            (vsize Sample.bass) 14)) = true)
    by reflexivity.
  split; [exact Hfs |]. split; [exact Hsize |]. split; [exact Hnone |].
  split; [exact Hcreate |].
  exact (single_track_file_reproduced 0 Sample.env "in/Song - Bass.mid" "out" fs
           x01 xe0 Sample.bass Hfs Hsize Hnone Hcreate).
Defined.

Module PartialFacts.

Import Split Layout LayoutFacts.



End PartialFacts.


